(** * mfu_flist_archive.c: parallel tar create / extract

    A shallow embedding of the archive core of mpiFileUtils
    (src/common/mfu_flist_archive.c): the offset layout planner, the
    archive writer, the libcircle work items, the sidecar index file and
    the entry partitioning of the extractor.

    Conventions.
    - [uint64_t] values are [Z] with the wrap-around written as [wrap64];
      [int] and [off_t] casts are [to_int] and [to_off_t].
    - A byte is a [Z] in [0, 256); file contents are [list Z].
    - MPI collectives are modelled from the global point of view: the
      per-rank contributions are a list indexed by rank.
    - libarchive is an external collaborator: its results are the members
      of the [Codec] interface and of the reader and environment records. *)

From Stdlib Require Import ZArith Lia List String Ascii.
From stdpp Require Import base list list_numbers gmap strings.

Local Open Scope Z_scope.

(** ** Machine integers *)

Definition wrap64 (z : Z) : Z := z mod 2 ^ 64.
Definition to_int (z : Z) : Z := (z + 2 ^ 31) mod 2 ^ 32 - 2 ^ 31.
Definition to_off_t (z : Z) : Z := (z + 2 ^ 63) mod 2 ^ 64 - 2 ^ 63.
Definition INT_MAX : Z := 2 ^ 31 - 1.

(** Return codes of mfu.h. *)
Inductive mfu_rc := MFU_SUCCESS | MFU_FAILURE.

Definition rc_ok (rc : mfu_rc) : bool :=
  match rc with MFU_SUCCESS => true | MFU_FAILURE => false end.

(** Modelled from the spec: [mfu_alltrue] (mfu_util.c is not among the
    sources) is the all-reduce with logical AND of section 7; [flags] holds
    one flag per rank and every rank receives the conjunction. *)
Definition mfu_alltrue (flags : list bool) : bool := forallb id flags.

(** [MPI_Allreduce] and [MPI_Scan] with [MPI_SUM] on [MPI_UINT64_T]. *)
Definition MPI_Allreduce_sum (vals : list Z) : Z :=
  fold_left (fun acc v => wrap64 (acc + v)) vals 0.

Definition MPI_Scan_sum (vals : list Z) (rank : nat) : Z :=
  MPI_Allreduce_sum (take (S rank) vals).

(** ** A small POSIX file system

    Modelled from the spec: the [mfu_open], [mfu_stat], [mfu_read],
    [mfu_write], [mfu_pwrite], [mfu_lseek], [mfu_ftruncate] and
    [mfu_readlink] wrappers of mfu_io.c (not among the sources) are the
    system calls of the same name: "open/seek/read/write/close failures"
    are reported by a negative result.  A descriptor is [None] for -1. *)

Inductive node :=
| Reg (mode : Z) (data : list Z)
| Dir (mode : Z)
| Lnk (target : string).

Abbreviation filesystem := (gmap string node).

Record ofd := { of_path : string; of_pos : Z }.
Definition fd_t := option ofd.

Definition may_read (mode : Z) : bool := Z.testbit mode 8.
Definition may_write (mode : Z) : bool := Z.testbit mode 7.

Definition zeros (n : nat) : list Z := replicate n 0.

Definition mfu_open_rdonly (fs : filesystem) (path : string) : fd_t :=
  match fs !! path with
  | Some (Reg m _) =>
      if may_read m then Some {| of_path := path; of_pos := 0 |} else None
  | _ => None
  end.

(** open(path, O_WRONLY | O_CREAT [| O_TRUNC], mode) *)
Definition mfu_open_creat (fs : filesystem) (path : string) (trunc : bool)
    (mode : Z) : filesystem * fd_t :=
  match fs !! path with
  | None => (<[path := Reg mode []]> fs, Some {| of_path := path; of_pos := 0 |})
  | Some (Reg m d) =>
      if may_write m
      then ((if trunc then <[path := Reg m []]> fs else fs),
            Some {| of_path := path; of_pos := 0 |})
      else (fs, None)
  | Some _ => (fs, None)
  end.

(** stat: the size of the file, [None] when the call fails. *)
Definition mfu_stat (fs : filesystem) (path : string) : option Z :=
  match fs !! path with
  | Some (Reg _ d) => Some (Z.of_nat (length d))
  | Some (Dir _) => Some 0
  | _ => None
  end.

(** The bytes of [data] after a write of [buf] at byte [pos]. *)
Definition write_at (buf : list Z) (pos : nat) (data : list Z) : list Z :=
  let base := data ++ zeros (pos + length buf - length data) in
  take pos base ++ buf ++ drop (pos + length buf) base.

Definition mfu_pwrite (fs : filesystem) (fd : fd_t) (buf : list Z) (pos : Z)
    : filesystem * Z :=
  match fd with
  | None => (fs, -1)
  | Some d =>
      match fs !! of_path d with
      | Some (Reg m data) =>
          if pos <? 0 then (fs, -1)
          else (<[of_path d := Reg m (write_at buf (Z.to_nat pos) data)]> fs,
                Z.of_nat (length buf))
      | _ => (fs, -1)
      end
  end.

Definition mfu_write (fs : filesystem) (fd : fd_t) (buf : list Z)
    : filesystem * fd_t * Z :=
  match fd with
  | None => (fs, fd, -1)
  | Some d =>
      let '(fs', n) := mfu_pwrite fs fd buf (of_pos d) in
      if n <? 0 then (fs', fd, n)
      else (fs', Some {| of_path := of_path d; of_pos := of_pos d + n |}, n)
  end.

(** read: the bytes obtained ([None] for -1); at most [n] of them. *)
Definition mfu_read (fs : filesystem) (fd : fd_t) (n : Z)
    : fd_t * option (list Z) :=
  match fd with
  | None => (fd, None)
  | Some d =>
      match fs !! of_path d with
      | Some (Reg _ data) =>
          let got := take (Z.to_nat n) (drop (Z.to_nat (of_pos d)) data) in
          (Some {| of_path := of_path d;
                   of_pos := of_pos d + Z.of_nat (length got) |}, Some got)
      | _ => (fd, None)
      end
  end.

(** lseek(fd, offset, SEEK_SET): the new descriptor, [None] for (off_t)-1. *)
Definition mfu_lseek (fd : fd_t) (offset : Z) : option ofd :=
  match fd with
  | None => None
  | Some d =>
      if to_off_t offset <? 0 then None
      else Some {| of_path := of_path d; of_pos := to_off_t offset |}
  end.

Definition mfu_ftruncate (fs : filesystem) (fd : fd_t) (len : Z) : filesystem :=
  match fd with
  | None => fs
  | Some d =>
      match fs !! of_path d with
      | Some (Reg m data) =>
          if len <? 0 then fs
          else <[of_path d :=
                   Reg m (take (Z.to_nat len)
                            (data ++ zeros (Z.to_nat len - length data)))]> fs
      | _ => fs
      end
  end.

(** readlink(path, buf, bufsize): the bytes placed in [buf], [None] for -1. *)
Definition mfu_readlink (fs : filesystem) (path : string) (bufsize : Z)
    : option (list ascii) :=
  match fs !! path with
  | Some (Lnk target) =>
      Some (take (Z.to_nat bufsize) (list_ascii_of_string target))
  | _ => None
  end.

(** ** File list and options *)

Inductive mfu_filetype :=
| MFU_TYPE_NULL | MFU_TYPE_UNKNOWN | MFU_TYPE_FILE | MFU_TYPE_DIR | MFU_TYPE_LINK.

Global Instance mfu_filetype_eq_dec : EqDecision mfu_filetype.
Proof. solve_decision. Defined.

Record flist_item := {
  file_name : string;
  file_type : mfu_filetype;
  file_size : Z;
  file_username : string;
  file_groupname : string
}.

Abbreviation mfu_flist := (list flist_item).

Record mfu_archive_opts_t := {
  preserve : bool;
  chunk_size : Z;
  buf_size : Z;
  create_libcircle : bool;
  extract_libarchive : bool
}.

(** <limits.h> on Linux. *)
Definition PATH_MAX : Z := 4096.

(** What the code stores in a [struct archive_entry]. *)
Record archive_entry := {
  ae_pathname : string;
  ae_stat : option node;
  ae_uname : string;
  ae_gname : string;
  ae_symlink : option string
}.

Definition archive_entry_new : archive_entry :=
  {| ae_pathname := ""; ae_stat := None; ae_uname := ""; ae_gname := "";
     ae_symlink := None |}.

(** ** The archive codec (libarchive) and path helpers

    Everything the code asks of libarchive and of mfu_path is a member of
    this interface. *)
Class Codec := {
  (** [mfu_path_relative] on [cwdpath->path] and the item name *)
  mfu_path_relative : string -> string -> string;
  (** [archive_read_disk_entry_from_file]: the entry filled from disk,
      [None] when the result is not [ARCHIVE_OK] *)
  archive_read_disk_entry_from_file :
    filesystem -> string -> archive_entry -> option archive_entry;
  (** the bytes [archive_write_header] emits in pax format for an entry,
      [None] when the result is not [ARCHIVE_OK] *)
  archive_write_header_pax : archive_entry -> option (list Z)
}.

Section Create.
Context `{Codec}.

(** [encode_header] (lines 279-400): the return code and the bytes left in
    [buf]; [*outsize] is their number. *)
Definition encode_header (fs : filesystem) (it : flist_item) (cwdpath : string)
    (bufsize : Z) (opts : mfu_archive_opts_t) : mfu_rc * list Z :=
  let fname := file_name it in
  let entry :=
    {| ae_pathname := mfu_path_relative cwdpath fname;
       ae_stat := ae_stat archive_entry_new;
       ae_uname := ae_uname archive_entry_new;
       ae_gname := ae_gname archive_entry_new;
       ae_symlink := ae_symlink archive_entry_new |} in
  let '(rc, entry) :=
    if preserve opts then
      match archive_read_disk_entry_from_file fs fname entry with
      | Some e => (MFU_SUCCESS, e)
      | None => (MFU_FAILURE, entry)
      end
    else
      let entry :=
        {| ae_pathname := ae_pathname entry;
           ae_stat := fs !! fname;
           ae_uname := file_username it;
           ae_gname := file_groupname it;
           ae_symlink := ae_symlink entry |} in
      if decide (file_type it = MFU_TYPE_LINK) then
        let targetsize := (PATH_MAX + 1) - 1 in
        match mfu_readlink fs fname targetsize with
        | Some target =>
            if Z.of_nat (length target) <? targetsize then
              (MFU_SUCCESS,
               {| ae_pathname := ae_pathname entry;
                  ae_stat := ae_stat entry;
                  ae_uname := ae_uname entry;
                  ae_gname := ae_gname entry;
                  ae_symlink := Some (string_of_list_ascii target) |})
            else (MFU_FAILURE, entry)
        | None => (MFU_FAILURE, entry)
        end
      else (MFU_SUCCESS, entry) in
  match archive_write_header_pax entry with
  | Some hdr =>
      if Z.of_nat (length hdr) <=? bufsize then (rc, hdr)
      else (MFU_FAILURE, [])
  | None => (MFU_FAILURE, [])
  end.

(** [write_header] (lines 403-439): the file system, [DTAR_err] and the
    return code. *)
Definition write_header (fs : filesystem) (DTAR_err : bool) (it : flist_item)
    (cwdpath : string) (bufsize : Z) (opts : mfu_archive_opts_t)
    (fd : fd_t) (offset : Z) : filesystem * bool * mfu_rc :=
  let '(encode_rc, buf) := encode_header fs it cwdpath bufsize opts in
  match encode_rc with
  | MFU_FAILURE => (fs, true, MFU_FAILURE)
  | MFU_SUCCESS =>
      let '(fs', pwrite_rc) := mfu_pwrite fs fd buf (to_off_t offset) in
      if pwrite_rc =? -1 then (fs', true, MFU_FAILURE)
      else (fs', DTAR_err, MFU_SUCCESS)
  end.

(** *** Layout planner (lines 1128-1173 and 1474-1517) *)

Definition header_bufsize : Z := 128 * 1024 * 1024.

(** "round file size up to nearest integer number of 512 bytes" *)
Definition fsize_padded (fsize : Z) : Z :=
  let p := wrap64 (wrap64 (fsize / 512) * 512) in
  if p <? fsize then wrap64 (p + 512) else p.

Record layout_entry_t := {
  header_size : Z;
  content_padded : Z;
  entry_size : Z
}.

(** The body of the layout loop, the same in both create paths. *)
Definition layout_entry (fs : filesystem) (cwdpath : string)
    (opts : mfu_archive_opts_t) (it : flist_item) : layout_entry_t :=
  match file_type it with
  | MFU_TYPE_DIR | MFU_TYPE_LINK =>
      let hs := Z.of_nat (length (encode_header fs it cwdpath header_bufsize opts).2) in
      {| header_size := hs; content_padded := 0; entry_size := hs |}
  | MFU_TYPE_FILE =>
      let hs := Z.of_nat (length (encode_header fs it cwdpath header_bufsize opts).2) in
      let padded := fsize_padded (file_size it) in
      {| header_size := hs; content_padded := padded;
         entry_size := wrap64 (hs + padded) |}
  | _ => {| header_size := 0; content_padded := 0; entry_size := 0 |}
  end.

Record layout_t := {
  header_sizes : list Z;
  entry_sizes : list Z;
  offsets : list Z;       (* local offsets, before the scan *)
  local_total : Z;        (* [offset] / [bytes] after the loop *)
  data_bytes : Z
}.

Fixpoint layout_loop (fs : filesystem) (cwdpath : string)
    (opts : mfu_archive_opts_t) (flist : mfu_flist) (offset dbytes : Z)
    : layout_t :=
  match flist with
  | [] => {| header_sizes := []; entry_sizes := []; offsets := [];
             local_total := offset; data_bytes := dbytes |}
  | it :: rest =>
      let le := layout_entry fs cwdpath opts it in
      let r := layout_loop fs cwdpath opts rest
                 (wrap64 (offset + entry_size le))
                 (wrap64 (dbytes + content_padded le)) in
      {| header_sizes := header_size le :: header_sizes r;
         entry_sizes := entry_size le :: entry_sizes r;
         offsets := offset :: offsets r;
         local_total := local_total r;
         data_bytes := data_bytes r |}
  end.

Definition create_layout (fs : filesystem) (cwdpath : string)
    (opts : mfu_archive_opts_t) (flist : mfu_flist) : layout_t :=
  layout_loop fs cwdpath opts flist 0 0.

(** "compute total archive size": the all-reduce over every rank's local
    total; [lists] holds the sorted file list of each rank. *)
Definition create_archive_size (fs : filesystem) (cwdpath : string)
    (opts : mfu_archive_opts_t) (lists : list mfu_flist) : Z :=
  MPI_Allreduce_sum
    (map (fun l => local_total (create_layout fs cwdpath opts l)) lists).

(** "execute scan to figure our global base offset", then "update offsets
    for each of our file to their global offset". *)
Definition create_global_offsets (fs : filesystem) (cwdpath : string)
    (opts : mfu_archive_opts_t) (lists : list mfu_flist) (rank : nat)
    : list Z :=
  let totals :=
    map (fun l => local_total (create_layout fs cwdpath opts l)) lists in
  let mine := create_layout fs cwdpath opts (lists !!! rank) in
  let global_offset :=
    wrap64 (MPI_Scan_sum totals rank - local_total mine) in
  map (fun o => wrap64 (o + global_offset)) (offsets mine).

(** [posix_fallocate(fd, 0, len)] leaves a file of at least [len] bytes. *)
Definition posix_fallocate (fs : filesystem) (fd : fd_t) (len : Z)
    : filesystem :=
  match fd with
  | None => fs
  | Some d =>
      match fs !! of_path d with
      | Some (Reg m data) =>
          <[of_path d := Reg m (data ++ zeros (Z.to_nat len - length data))]> fs
      | _ => fs
      end
  end.

(** "truncate file to correct size to overwrite existing file and to
    preallocate space" (lines 1203-1213 and 1548-1558). *)
Definition create_truncate (mfu_rank : Z) (fs : filesystem) (fd : fd_t)
    (archive_size : Z) : filesystem :=
  if mfu_rank =? 0 then
    let fs := mfu_ftruncate fs fd 0 in
    let final_size := to_off_t (wrap64 (archive_size + 2 * 512)) in
    let fs := mfu_ftruncate fs fd final_size in
    posix_fallocate fs fd final_size
  else fs.

(** "write headers for our files" (lines 1222-1236 and 1567-1581). *)
Fixpoint create_headers (fs : filesystem) (DTAR_err : bool)
    (cwdpath : string) (opts : mfu_archive_opts_t) (fd : fd_t)
    (flist : mfu_flist) (offs : list Z) : filesystem * bool :=
  match flist, offs with
  | it :: rest, o :: offs' =>
      let '(fs', err') :=
        match file_type it with
        | MFU_TYPE_FILE | MFU_TYPE_DIR | MFU_TYPE_LINK =>
            (write_header fs DTAR_err it cwdpath header_bufsize opts fd o).1
        | _ => (fs, DTAR_err)
        end in
      create_headers fs' err' cwdpath opts fd rest offs'
  | _, _ => (fs, DTAR_err)
  end.

(** "rank 0 finalizes the archive by writing two 512-byte blocks of NUL"
    (lines 1278-1291 and 1695-1708): the file system and [DTAR_err]. *)
Definition create_trailer (mfu_rank : Z) (fs : filesystem) (DTAR_err : bool)
    (fd : fd_t) (archive_size : Z) : filesystem * bool :=
  if mfu_rank =? 0 then
    let buf := zeros 1024 in
    let bufsize := 1024 in
    let '(fs', pwrite_rc) := mfu_pwrite fs fd buf (to_off_t archive_size) in
    (fs', if pwrite_rc =? bufsize then DTAR_err else true)
  else (fs, DTAR_err).

End Create.

(** ** Index file (lines 789-1002) *)

(** Modelled from the spec: [mfu_pack_uint64] (mfu_util.c is not among
    the sources) stores a value as "uint64_be", the eight bytes of its
    big-endian encoding, most significant first. *)
Definition mfu_pack_uint64 (value : Z) : list Z :=
  map (fun k => (value / 2 ^ (8 * k)) mod 256) [7; 6; 5; 4; 3; 2; 1; 0].

(** Modelled from the spec: [mfu_unpack_uint64] (mfu_util.c is not among
    the sources) reads the big-endian value of the eight bytes at [ptr]. *)
Definition mfu_unpack_uint64 (ptr : list Z) : Z :=
  fold_left (fun acc b => acc * 256 + b) (take 8 ptr) 0.

(** "convert offsets into host order": [count] values from [ptr]. *)
Fixpoint unpack_loop (count : nat) (ptr : list Z) : list Z :=
  match count with
  | O => []
  | S n => mfu_unpack_uint64 ptr :: unpack_loop n (drop 8 ptr)
  end.

(** "compute file name of index file from archive file name" *)
Definition index_name (file : string) : string := String.append file ".idx".

(** [MPI_Gatherv] at the root: rank r's block of [counts[r]] items lands at
    [displs[r]] of [recvbuf]. *)
Definition MPI_Gatherv (sends : list (list Z)) (counts displs : list Z)
    (recvbuf : list Z) : list Z :=
  fold_left
    (fun buf x => list_inserts (Z.to_nat x.2) (take (Z.to_nat x.1.2) x.1.1) buf)
    (zip (zip sends counts) displs) recvbuf.

(** The gather phase of [write_entry_index] (lines 807-840): [total] and
    rank 0's [all_offsets]; [offs] holds the offsets of each rank. *)
Definition gather_offsets (offs : list (list Z)) : Z * list Z :=
  let counts := map (fun l => Z.of_nat (length l)) offs in
  let total := MPI_Allreduce_sum counts in
  let disps :=
    imap (fun r c => wrap64 (MPI_Scan_sum counts r - c)) counts in
  let rank_counts := map to_int counts in
  let rank_disps := map to_int disps in
  (total, MPI_Gatherv offs rank_counts rank_disps (zeros (Z.to_nat total))).

(** "have rank 0 write the file" (lines 842-880): the file system and the
    local [success] flag of rank [mfu_rank]. *)
Definition write_index_file (mfu_rank : nat) (fs : filesystem) (name : string)
    (total : Z) (all_offsets : list Z) : filesystem * bool :=
  if (mfu_rank =? 0)%nat then
    let '(fs, fd) := mfu_open_creat fs name true 432 (* 0660 *) in
    match fd with
    | Some _ =>
        let bufsize := wrap64 (total * 8) in
        let packed :=
          flat_map mfu_pack_uint64 (take (Z.to_nat total) all_offsets) in
        let '(fs, _, nwritten) := mfu_write fs fd packed in
        (fs, nwritten =? to_off_t bufsize)
    | None => (fs, false)
    end
  else (fs, true).

(** The ranks take their turn on the shared file system. *)
Fixpoint write_index_ranks (ranks : list nat) (fs : filesystem) (name : string)
    (total : Z) (all_offsets : list Z) : filesystem * list bool :=
  match ranks with
  | [] => (fs, [])
  | r :: rest =>
      let '(fs, ok) := write_index_file r fs name total all_offsets in
      let '(fs, oks) := write_index_ranks rest fs name total all_offsets in
      (fs, ok :: oks)
  end.

(** [write_entry_index] as a collective: [offs] holds the [offsets] array
    ([count] items) each rank calls it with. *)
Definition write_entry_index (fs : filesystem) (file : string)
    (offs : list (list Z)) : filesystem * mfu_rc :=
  let name := index_name file in
  let '(total, all_offsets) := gather_offsets offs in
  let '(fs, oks) :=
    write_index_ranks (seq 0 (length offs)) fs name total all_offsets in
  (fs, if mfu_alltrue oks then MFU_SUCCESS else MFU_FAILURE).

(** [read_entry_index]: [None] for MFU_FAILURE, else [out_count] and
    [out_offsets], the same on every rank after the broadcasts. *)
Definition read_entry_index (fs : filesystem) (filename : string)
    : option (Z * list Z) :=
  let name := index_name filename in
  let '(count, have_index) :=
    match mfu_stat fs name with
    | Some st_size => (st_size / 8, true)
    | None => (0, false)
    end in
  let bufsize := wrap64 (count * 8) in
  let '(offsets, have_index) :=
    if have_index then
      match mfu_open_rdonly fs name with
      | Some d =>
          match mfu_read fs (Some d) bufsize with
          | (_, Some got) =>
              (got, Z.of_nat (length got) =? bufsize)
          | (_, None) => ([], false)
          end
      | None => ([], false)
      end
    else ([], false) in
  if have_index then Some (count, unpack_loop (Z.to_nat count) offsets)
  else None.

(** ** libcircle work items (lines 36-48, 443-518) *)

(** [DTAR_operation_code_t] is an enum printed and scanned as an [int]. *)
Definition DTAR_operation_code_t := Z.
Definition COPY_DATA : DTAR_operation_code_t := 0.

Record DTAR_operation_t := {
  op_file_size : Z;
  op_chunk_index : Z;
  op_offset : Z;
  op_code : DTAR_operation_code_t;
  op_operand : list ascii
}.

Definition NUL : ascii := ascii_of_nat 0.
Definition colon : ascii := ascii_of_nat 58.
Definition minus : ascii := ascii_of_nat 45.
Definition plus : ascii := ascii_of_nat 43.

(** *** printf conversions *)

Definition digit_char (d : Z) : ascii := ascii_of_nat (48 + Z.to_nat d).

Fixpoint print_digits (fuel : nat) (n : Z) (acc : list ascii) : list ascii :=
  match fuel with
  | O => acc
  | S f =>
      let acc' := digit_char (n mod 10) :: acc in
      if n / 10 =? 0 then acc' else print_digits f (n / 10) acc'
  end.

(** "%" PRIu64: at most 20 digits. *)
Definition print_u64 (n : Z) : list ascii := print_digits 20 n [].

(** "%d": at most 10 digits after the sign. *)
Definition print_int (n : Z) : list ascii :=
  if n <? 0 then minus :: print_digits 10 (- n) [] else print_digits 10 n [].

(** *** scanf conversions *)

Definition is_digit (c : ascii) : bool :=
  (48 <=? nat_of_ascii c)%nat && (nat_of_ascii c <=? 57)%nat.

Definition digit_val (c : ascii) : Z := Z.of_nat (nat_of_ascii c) - 48.

(** isspace: blank, \t, \n, \v, \f, \r *)
Definition is_space (c : ascii) : bool :=
  (nat_of_ascii c =? 32)%nat
  || ((9 <=? nat_of_ascii c)%nat && (nat_of_ascii c <=? 13)%nat).

Fixpoint skip_spaces (s : list ascii) : list ascii :=
  match s with
  | c :: s' => if is_space c then skip_spaces s' else s
  | [] => []
  end.

Fixpoint scan_digits (s : list ascii) (acc : Z) : Z :=
  match s with
  | c :: s' => if is_digit c then scan_digits s' (acc * 10 + digit_val c) else acc
  | [] => acc
  end.

(** The sign and the magnitude of a decimal integer at the start of [s];
    [None] when no digit follows (the conversion fails and [sscanf] does
    not return 1). *)
Definition scan_integer (s : list ascii) : option (bool * Z) :=
  let s := skip_spaces s in
  let '(neg, s) :=
    match s with
    | c :: s' =>
        if decide (c = minus) then (true, s')
        else if decide (c = plus) then (false, s') else (false, s)
    | [] => (false, s)
    end in
  match s with
  | c :: _ => if is_digit c then Some (neg, scan_digits s 0) else None
  | [] => None
  end.

(** sscanf(s, "%" SCNu64, &v): as strtoull, the value saturates. *)
Definition sscanf_u64 (s : list ascii) : option Z :=
  match scan_integer s with
  | Some (neg, v) =>
      let v := Z.min v (2 ^ 64 - 1) in
      Some (if neg then wrap64 (- v) else v)
  | None => None
  end.

(** sscanf(s, "%d", &v) *)
Definition sscanf_int (s : list ascii) : option Z :=
  match scan_integer s with
  | Some (neg, v) => Some (to_int (if neg then - v else v))
  | None => None
  end.

(** *** strtok on the work item buffer

    A [char*] is the list of the bytes from that address to the end of
    the buffer. *)

Definition is_delim (c : ascii) : bool := bool_decide (c = colon).
Definition is_nul (c : ascii) : bool := bool_decide (c = NUL).

Fixpoint skip_delims (m : list ascii) : list ascii :=
  match m with
  | c :: m' => if is_delim c then skip_delims m' else m
  | [] => []
  end.

(** The token at [m] and the memory from its terminator on. *)
Fixpoint token_span (m : list ascii) : list ascii * list ascii :=
  match m with
  | c :: m' =>
      if is_delim c || is_nul c then ([], m)
      else let '(t, r) := token_span m' in (c :: t, r)
  | [] => ([], [])
  end.

Record strtok_t := {
  tok : list ascii;       (* the token, a C string *)
  tok_end : list ascii;   (* the memory at tok + strlen(tok) + 1 *)
  save : list ascii       (* where the next strtok(NULL, ":") resumes *)
}.

(** strtok(m, ":") and strtok(NULL, ":") with saved pointer [m]; [None]
    is the NULL result (no token left, or no terminator in the buffer). *)
Definition strtok (m : list ascii) : option strtok_t :=
  match skip_delims m with
  | [] => None
  | c :: m' =>
      if is_nul c then None
      else
        let '(t, r) := token_span (c :: m') in
        match r with
        | d :: r' =>
            if is_nul d then Some {| tok := t; tok_end := r'; save := r |}
            else Some {| tok := t; tok_end := r'; save := r' |}
        | [] => None
        end
  end.

(** The C string at an address: the bytes before the first NUL. *)
Fixpoint cstr (m : list ascii) : list ascii :=
  match m with
  | c :: m' => if is_nul c then [] else c :: cstr m'
  | [] => []
  end.

Section WorkItems.
(** <libcircle.h> and mfu.h constants. *)
Variable CIRCLE_MAX_STRING_LEN : Z.
Variable DCOPY_DEF_PERMS_FILE : Z.

(** [DTAR_encode_operation]: the string, [None] for [DTAR_abort]. *)
Definition DTAR_encode_operation (code : DTAR_operation_code_t)
    (operand : list ascii) (fsize chunk_idx offset : Z) : option (list ascii) :=
  let opsize := CIRCLE_MAX_STRING_LEN in
  let len := Z.of_nat (length operand) in
  let op :=
    print_u64 fsize ++ colon :: print_u64 chunk_idx ++ colon ::
    print_u64 offset ++ colon :: print_int code ++ colon ::
    print_int (to_int len) ++ colon :: operand in
  let written := Z.of_nat (length op) in
  if written >=? opsize then None else Some op.

(** [DTAR_decode_operation] on the buffer [op]; [None] for [DTAR_abort]
    or a NULL token. *)
Definition DTAR_decode_operation (op : list ascii) : option DTAR_operation_t :=
  t1 ← strtok op;
  fsz ← sscanf_u64 (tok t1);
  t2 ← strtok (save t1);
  cidx ← sscanf_u64 (tok t2);
  t3 ← strtok (save t2);
  off ← sscanf_u64 (tok t3);
  t4 ← strtok (save t3);
  code ← sscanf_int (tok t4);
  t5 ← strtok (save t4);
  op_len ← sscanf_int (tok t5);
  let operand := tok_end t5 in
  if (op_len <? 0) || (Z.of_nat (length operand) <=? op_len) then None
  else
    Some {| op_file_size := fsz; op_chunk_index := cidx; op_offset := off;
            op_code := code;
            op_operand := cstr (<[Z.to_nat op_len := NUL]> operand) |}.

(** The work items of one regular file (the body of the loop of
    [DTAR_enqueue_copy], lines 536-562); a zero [chunk_size] traps. *)
Definition enqueue_file (name : string) (size doffset chunk_size : Z)
    : option (list (option (list ascii))) :=
  if chunk_size =? 0 then None
  else
    let num_chunks := size / chunk_size in
    let enc idx :=
      DTAR_encode_operation COPY_DATA (list_ascii_of_string name) size idx
        doffset in
    Some (map enc (seqZ 0 num_chunks) ++
          (if (wrap64 (num_chunks * chunk_size) <? size) || (num_chunks =? 0)
           then [enc num_chunks] else [])).

(** [DTAR_enqueue_copy]: the strings handed to [handle->enqueue]. *)
Fixpoint DTAR_enqueue_copy (DTAR_flist : mfu_flist)
    (DTAR_offsets DTAR_header_sizes : list Z) (DTAR_opts : mfu_archive_opts_t)
    : option (list (list ascii)) :=
  match DTAR_flist, DTAR_offsets, DTAR_header_sizes with
  | it :: rest, o :: os, h :: hs =>
      if decide (file_type it = MFU_TYPE_FILE) then
        ops ← enqueue_file (file_name it) (file_size it) (wrap64 (o + h))
                (chunk_size DTAR_opts);
        mine ← mapM id ops;
        more ← DTAR_enqueue_copy rest os hs DTAR_opts;
        Some (mine ++ more)
      else DTAR_enqueue_copy rest os hs DTAR_opts
  | _, _, _ => Some []
  end.

(** *** The copy callback *)

Record mfu_archive_file_cache_t := {
  cache_name : option string;
  cache_read : bool;
  cache_fd : fd_t
}.

Record DTAR_writer_t := {
  writer_name : string;
  writer_fd : fd_t;
  io_bufsize : Z
}.

Record dtar_state := {
  dtar_fs : filesystem;
  DTAR_writer : DTAR_writer_t;
  mfu_archive_src_cache : mfu_archive_file_cache_t;
  DTAR_err : bool;
  reduce_bytes : Z
}.

Definition mfu_archive_close_file (cache : mfu_archive_file_cache_t)
    : mfu_archive_file_cache_t :=
  match cache_name cache with
  | Some _ => {| cache_name := None; cache_read := cache_read cache;
                 cache_fd := cache_fd cache |}
  | None => cache
  end.

(** [mfu_archive_open_file]: [true] for 0, [false] for -1. *)
Definition mfu_archive_open_file (fs : filesystem) (file : string)
    (read_flag : bool) (cache : mfu_archive_file_cache_t)
    : filesystem * mfu_archive_file_cache_t * bool :=
  let hit :=
    match cache_name cache with
    | Some name =>
        bool_decide (name = file) && bool_decide (cache_read cache = read_flag)
    | None => false
    end in
  if hit then (fs, cache, true)
  else
    let cache := mfu_archive_close_file cache in
    let '(fs', fd) :=
      if read_flag then (fs, mfu_open_rdonly fs file)
      else mfu_open_creat fs file false DCOPY_DEF_PERMS_FILE in
    match fd with
    | None => (fs', cache, false)
    | Some _ =>
        (fs', {| cache_name := Some file; cache_read := read_flag;
                 cache_fd := fd |}, true)
    end.

(** "read data from input and write to archive" (lines 616-652). *)
Fixpoint copy_loop (fuel : nat) (fs : filesystem) (in_fd out_fd : fd_t)
    (bufsize chunk total_bytes_written : Z) (err : bool)
    : filesystem * fd_t * fd_t * Z * bool :=
  match fuel with
  | O => (fs, in_fd, out_fd, total_bytes_written, err)
  | S fuel' =>
      if (total_bytes_written <? chunk) && negb err then
        let remainder := wrap64 (chunk - total_bytes_written) in
        let num_to_read := if remainder <? bufsize then remainder else bufsize in
        match mfu_read fs in_fd num_to_read with
        | (in_fd', Some got) =>
            let nread := Z.of_nat (length got) in
            if nread =? 0 then (fs, in_fd', out_fd, total_bytes_written, err)
            else
              let '(fs', out_fd', nwritten) := mfu_write fs out_fd got in
              if nwritten =? nread then
                copy_loop fuel' fs' in_fd' out_fd' bufsize chunk
                  (wrap64 (total_bytes_written + nwritten)) err
              else (fs', in_fd', out_fd', total_bytes_written, true)
        | (in_fd', None) => (fs, in_fd', out_fd, total_bytes_written, true)
        end
      else (fs, in_fd, out_fd, total_bytes_written, err)
  end.

(** [DTAR_perform_copy] after the work item is decoded (lines 577-691). *)
Definition perform_copy_op (st : dtar_state) (DTAR_opts : mfu_archive_opts_t)
    (op : DTAR_operation_t) : dtar_state :=
  let in_name := string_of_list_ascii (op_operand op) in
  let '(fs, cache, open_ok) :=
    mfu_archive_open_file (dtar_fs st) in_name true (mfu_archive_src_cache st) in
  let in_fd := if open_ok then cache_fd cache else None in
  let err := if open_ok then DTAR_err st else true in
  let out_fd := writer_fd (DTAR_writer st) in
  let chunk := chunk_size DTAR_opts in
  let in_offset := wrap64 (chunk * op_chunk_index op) in
  let '(in_fd, err) :=
    match mfu_lseek in_fd in_offset with
    | Some d => (Some d, err)
    | None => (in_fd, true)
    end in
  let out_offset := wrap64 (op_offset op + in_offset) in
  let '(out_fd, err) :=
    match mfu_lseek out_fd out_offset with
    | Some d => (Some d, err)
    | None => (out_fd, true)
    end in
  let '(fs, in_fd, out_fd, total_bytes_written, err) :=
    copy_loop (S (Z.to_nat chunk)) fs in_fd out_fd
      (io_bufsize (DTAR_writer st)) chunk 0 err in
  let num_chunks := op_file_size op / chunk in
  let rem := wrap64 (op_file_size op - wrap64 (chunk * num_chunks)) in
  let last_chunk := if rem =? 0 then wrap64 (num_chunks - 1) else num_chunks in
  let last_expected :=
    if op_chunk_index op =? last_chunk then op_file_size op
    else wrap64 (in_offset + chunk) in
  let last_written := wrap64 (in_offset + total_bytes_written) in
  let err := if last_written <? last_expected then true else err in
  let '(fs, out_fd, err) :=
    if op_chunk_index op =? last_chunk then
      let padding := 512 - to_int (op_file_size op mod 512) in
      if (0 <? padding) && negb (padding =? 512) then
        let '(fs', out_fd', nwritten) :=
          mfu_write fs out_fd (zeros (Z.to_nat padding)) in
        (fs', out_fd', if nwritten =? padding then err else true)
      else (fs, out_fd, err)
    else (fs, out_fd, err) in
  {| dtar_fs := fs;
     DTAR_writer := {| writer_name := writer_name (DTAR_writer st);
                       writer_fd := out_fd;
                       io_bufsize := io_bufsize (DTAR_writer st) |};
     mfu_archive_src_cache :=
       {| cache_name := cache_name cache; cache_read := cache_read cache;
          cache_fd := if open_ok then in_fd else cache_fd cache |};
     DTAR_err := err;
     reduce_bytes := wrap64 (reduce_bytes st + total_bytes_written) |}.

(** [DTAR_perform_copy] on the dequeued buffer [opstr]; [None] when the
    decoder aborts. *)
Definition DTAR_perform_copy (st : dtar_state) (DTAR_opts : mfu_archive_opts_t)
    (opstr : list ascii) : option dtar_state :=
  op ← DTAR_decode_operation opstr;
  Some (perform_copy_op st DTAR_opts op).

End WorkItems.

(** ** The libcircle create path run by a single rank

    [mfu_flist_archive_create_libcircle] (lines 1055-1359) when the group
    has one rank: the all-reduce and the scan return the rank's own
    values and the work queue is drained by the rank itself, here in the
    order the items were enqueued.  [flist] is the sorted list. *)

Fixpoint drain_queue (DCOPY_DEF_PERMS_FILE : Z) (st : dtar_state)
    (opts : mfu_archive_opts_t) (queue : list (list ascii))
    : option dtar_state :=
  match queue with
  | [] => Some st
  | opstr :: rest =>
      st' ← DTAR_perform_copy DCOPY_DEF_PERMS_FILE st opts (opstr ++ [NUL]);
      drain_queue DCOPY_DEF_PERMS_FILE st' opts rest
  end.

Definition create_libcircle_single `{Codec}
    (CIRCLE_MAX_STRING_LEN DCOPY_DEF_PERMS_FILE : Z) (fs : filesystem)
    (flist : mfu_flist) (filename cwdpath : string) (opts : mfu_archive_opts_t)
    : option (filesystem * mfu_rc) :=
  let '(fs, fd) := mfu_open_creat fs filename false 436 (* 0664 *) in
  let err := match fd with Some _ => false | None => true end in
  let lay := create_layout fs cwdpath opts flist in
  let archive_size := create_archive_size fs cwdpath opts [flist] in
  let offs := create_global_offsets fs cwdpath opts [flist] 0 in
  let fs := (write_entry_index fs filename [offs]).1 in
  let fs := create_truncate 0 fs fd archive_size in
  let '(fs, err) := create_headers fs err cwdpath opts fd flist offs in
  queue ← DTAR_enqueue_copy CIRCLE_MAX_STRING_LEN flist offs (header_sizes lay)
            opts;
  st ← drain_queue DCOPY_DEF_PERMS_FILE
         {| dtar_fs := fs;
            DTAR_writer := {| writer_name := filename; writer_fd := fd;
                              io_bufsize := buf_size opts |};
            mfu_archive_src_cache :=
              {| cache_name := None; cache_read := true; cache_fd := None |};
            DTAR_err := err;
            reduce_bytes := 0 |}
         opts queue;
  let '(fs, err) :=
    create_trailer 0 (dtar_fs st) (DTAR_err st) fd archive_size in
  Some (fs, if mfu_alltrue [negb err] then MFU_SUCCESS else MFU_FAILURE).

(** ** Extraction (lines 1868-2036, 2277-2363, 3198-3496) *)

Inductive outcome (A : Type) :=
| Returned (a : A)
| Exited (code : Z).
Arguments Returned {A} a.
Arguments Exited {A} code.

(** What [archive_read_next_header] yields: an entry and its header
    position, or an error code; the end of the list is [ARCHIVE_EOF]. *)
Inductive next_header :=
| NH_OK (entry : archive_entry) (position : Z)
| NH_ERR (r : Z).

(** A libarchive reader on the archive file: the result of
    [archive_read_open_filename] (0 is [ARCHIVE_OK]) and the headers it
    reads from the start. *)
Record archive_reader := {
  reader_open : Z;
  reader_headers : list next_header
}.

(** The scan loop of [index_entries] (lines 1944-1992). *)
Fixpoint index_loop (hs : list next_header) (rc : mfu_rc) (offsets : list Z)
    : mfu_rc * list Z :=
  match rc with
  | MFU_FAILURE => (rc, offsets)
  | MFU_SUCCESS =>
      match hs with
      | [] => (rc, offsets)
      | NH_ERR _ :: _ => (MFU_FAILURE, offsets)
      | NH_OK _ pos :: hs' => index_loop hs' rc (offsets ++ [wrap64 pos])
      end
  end.

(** [index_entries]: [None] for MFU_FAILURE, else the offsets ([out_count]
    is their number). *)
Definition index_entries (a : archive_reader) : option (list Z) :=
  let rc := if reader_open a =? 0 then MFU_SUCCESS else MFU_FAILURE in
  match index_loop (reader_headers a) rc [] with
  | (MFU_SUCCESS, offsets) => Some offsets
  | (MFU_FAILURE, _) => None
  end.

(** The round-robin loop of [extract_flist] (lines 2326-2347): the entries
    this rank inserts, or the exit code. *)
Fixpoint extract_flist_loop (hs : list next_header) (ranks mfu_rank count : Z)
    (flist : list archive_entry) : outcome (list archive_entry) :=
  match hs with
  | [] => Returned flist
  | NH_ERR r :: _ => Exited r
  | NH_OK entry _ :: hs' =>
      extract_flist_loop hs' ranks mfu_rank (wrap64 (count + 1))
        (if count mod ranks =? mfu_rank then flist ++ [entry] else flist)
  end.

(** [extract_flist]; [peers] are the flags the other ranks bring to the
    final [mfu_alltrue]. *)
Definition extract_flist (a : archive_reader) (ranks mfu_rank : Z)
    (peers : list bool) : outcome (mfu_rc * list archive_entry) :=
  let rc := MFU_SUCCESS in
  if negb (reader_open a =? 0) then Exited (reader_open a)
  else
    match extract_flist_loop (reader_headers a) ranks mfu_rank 0 [] with
    | Exited r => Exited r
    | Returned flist =>
        Returned
          (if mfu_alltrue (rc_ok rc :: peers) then rc else MFU_FAILURE, flist)
    end.

(** "divide entries among ranks" (lines 3270-3283): [entry_start] and
    [entry_count] of rank [mfu_rank]. *)
Definition entry_partition (entries ranks mfu_rank : Z) : Z * Z :=
  let entries_per_rank := entries / ranks in
  let entries_remainder := wrap64 (entries - wrap64 (entries_per_rank * ranks)) in
  if mfu_rank <? entries_remainder then
    let entry_count := wrap64 (entries_per_rank + 1) in
    let entry_start := wrap64 (mfu_rank * entry_count) in
    (entry_start, entry_count)
  else
    let entry_count := entries_per_rank in
    let entry_start :=
      wrap64 (wrap64 (entries_remainder * wrap64 (entry_count + 1))
              + wrap64 (wrap64 (mfu_rank - entries_remainder) * entry_count)) in
    (entry_start, entry_count).

Definition entry_start (entries ranks mfu_rank : Z) : Z :=
  (entry_partition entries ranks mfu_rank).1.
Definition entry_count (entries ranks mfu_rank : Z) : Z :=
  (entry_partition entries ranks mfu_rank).2.

(** The phases of [mfu_flist_archive_extract] that go through libarchive
    or the mfu_flist library: their collective return codes are inputs. *)
Record extract_env := {
  (** the reader of [index_entries]: tar format only, no filters *)
  env_scan_reader : archive_reader;
  (** the reader of [extract_flist]: with the bzip2, gzip and compress
      filters *)
  env_reader : archive_reader;
  env_peers : list bool;
  env_extract_flist_offsets : mfu_rc;
  env_extract_files_offsets : mfu_rc;
  env_extract_files_offsets_chunk : mfu_rc;
  env_extract_symlinks : mfu_rc;
  env_extract_files : mfu_rc
}.

Inductive phase :=
| P_read_entry_index | P_index_entries
| P_extract_flist_offsets | P_extract_flist
| P_mkdir | P_mknod
| P_extract_files_offsets | P_extract_files_offsets_chunk
| P_extract_symlinks | P_extract_files
| P_metadata_apply | P_metadata_apply_dirs
| P_write_entry_index.

Record extract_result := {
  x_rc : mfu_rc;
  x_have_index : bool;
  x_have_offsets : bool;
  x_entries : Z;
  x_offsets : list Z;
  x_fs : filesystem;
  x_trace : list phase
}.

(** [mfu_flist_archive_extract] as rank [mfu_rank] of [ranks] sees it. *)
Definition mfu_flist_archive_extract (env : extract_env) (fs : filesystem)
    (filename : string) (ranks : nat) (mfu_rank : Z)
    (opts : mfu_archive_opts_t) : outcome extract_result :=
  let '(have_index, have_offsets, entries, offsets, trace) :=
    match read_entry_index fs filename with
    | Some (entries, offsets) =>
        (true, true, entries, offsets, [P_read_entry_index])
    | None =>
        match index_entries (env_scan_reader env) with
        | Some offsets =>
            (false, true, Z.of_nat (length offsets), offsets,
             [P_read_entry_index; P_index_entries])
        | None => (false, false, 0, [], [P_read_entry_index; P_index_entries])
        end
    end in
  let flist_ret :=
    if have_offsets then Returned (env_extract_flist_offsets env)
    else
      match extract_flist (env_reader env) (Z.of_nat ranks) mfu_rank
              (env_peers env) with
      | Returned (ret, _) => Returned ret
      | Exited r => Exited r
      end in
  let trace :=
    trace ++ [if have_offsets then P_extract_flist_offsets else P_extract_flist] in
  match flist_ret with
  | Exited r => Exited r
  | Returned MFU_FAILURE =>
      Returned {| x_rc := MFU_FAILURE; x_have_index := have_index;
                  x_have_offsets := have_offsets; x_entries := entries;
                  x_offsets := offsets; x_fs := fs; x_trace := trace |}
  | Returned MFU_SUCCESS =>
      let '(ret, trace) :=
        if have_offsets then
          if extract_libarchive opts then
            (env_extract_files_offsets env,
             trace ++ [P_mkdir; P_extract_files_offsets])
          else
            ((match env_extract_symlinks env with
              | MFU_SUCCESS => env_extract_files_offsets_chunk env
              | MFU_FAILURE => MFU_FAILURE
              end),
             trace ++ [P_mkdir; P_mknod; P_extract_files_offsets_chunk;
                       P_extract_symlinks; P_metadata_apply])
        else (env_extract_files env, trace ++ [P_mkdir; P_extract_files]) in
      let rc := match ret with MFU_SUCCESS => MFU_SUCCESS | _ => MFU_FAILURE end in
      let extracted_with_libarchive :=
        negb have_offsets || extract_libarchive opts in
      let trace :=
        if extracted_with_libarchive then trace ++ [P_metadata_apply_dirs]
        else trace in
      let '(fs, trace) :=
        if have_offsets && negb have_index then
          ((write_entry_index fs filename
              (map (fun r =>
                      take (Z.to_nat (entry_count entries (Z.of_nat ranks) (Z.of_nat r)))
                        (drop (Z.to_nat (entry_start entries (Z.of_nat ranks) (Z.of_nat r)))
                           offsets))
                 (seq 0 ranks))).1,
           trace ++ [P_write_entry_index])
        else (fs, trace) in
      Returned {| x_rc := rc; x_have_index := have_index;
                  x_have_offsets := have_offsets; x_entries := entries;
                  x_offsets := offsets; x_fs := fs; x_trace := trace |}
  end.

(** ** Sums used in the statements *)

Definition Zsum (l : list Z) : Z := foldr Z.add 0 l.

(** The sum of [entry_size] over all entries of all ranks. *)
Definition total_entry_size `{Codec} (fs : filesystem) (cwdpath : string)
    (opts : mfu_archive_opts_t) (lists : list mfu_flist) : Z :=
  Zsum (map (fun l =>
               Zsum (map (fun it => entry_size (layout_entry fs cwdpath opts it)) l))
          lists).

(** ** Sample inputs

    A codec that emits a header of one 512-byte block, two when the
    entry carries a link target. *)
Definition sample_codec : Codec := {|
  mfu_path_relative := fun _ name => name;
  archive_read_disk_entry_from_file := fun _ _ e => Some e;
  archive_write_header_pax := fun e =>
    Some (zeros (match ae_symlink e with Some _ => 1024 | None => 512 end))
|}.

Definition sample_opts : mfu_archive_opts_t :=
  {| preserve := false; chunk_size := 1048576; buf_size := 1048576;
     create_libcircle := false; extract_libarchive := false |}.

Definition sample_item (name : string) (t : mfu_filetype) (size : Z)
    : flist_item :=
  {| file_name := name; file_type := t; file_size := size;
     file_username := "user"; file_groupname := "group" |}.

(** Scenario 1 of the spec: "a" with 13 bytes and the empty "b". *)
Definition tiny_list : mfu_flist :=
  [sample_item "a" MFU_TYPE_FILE 13; sample_item "b" MFU_TYPE_FILE 0].

(** The files of [tiny_list]: "a" holds "hello world!\n". *)
Definition tiny_fs : filesystem :=
  <["a" := Reg 420 [104; 101; 108; 108; 111; 32; 119; 111; 114; 108;
                    100; 33; 10]]>
    (<["b" := Reg 420 []]> ∅).

(** The state of rank 0 when the copy callback runs on [tiny_list]: the
    archive is preallocated, no source file is cached, no error so far. *)
Definition sample_dtar_state : dtar_state :=
  {| dtar_fs := <["out.tar" := Reg 436 (zeros 2560)]> tiny_fs;
     DTAR_writer :=
       {| writer_name := "out.tar";
          writer_fd := Some {| of_path := "out.tar"; of_pos := 0 |};
          io_bufsize := 1048576 |};
     mfu_archive_src_cache :=
       {| cache_name := None; cache_read := true; cache_fd := None |};
     DTAR_err := false;
     reduce_bytes := 0 |}.

(** A codec whose disk reader (the preserve path) records the whole link
    target, as libarchive reads it with a buffer sized from the link. *)
Definition disk_codec : Codec := {|
  mfu_path_relative := fun _ name => name;
  archive_read_disk_entry_from_file := fun fs name e =>
    Some {| ae_pathname := ae_pathname e; ae_stat := fs !! name;
            ae_uname := ae_uname e; ae_gname := ae_gname e;
            ae_symlink :=
              match fs !! name with
              | Some (Lnk target) => Some target
              | _ => None
              end |};
  archive_write_header_pax := fun e =>
    Some (zeros (match ae_symlink e with Some _ => 1024 | None => 512 end))
|}.

(** A link target of 5000 bytes, longer than [PATH_MAX]. *)
Definition long_target : string := string_of_list_ascii (replicate 5000 "x"%char).

Definition long_link_fs : filesystem :=
  <["l" := Lnk long_target]> (<["out.tar" := Reg 436 (zeros 2048)]> ∅).

Definition preserve_opts : mfu_archive_opts_t :=
  {| preserve := true; chunk_size := 1048576; buf_size := 1048576;
     create_libcircle := false; extract_libarchive := false |}.

(** An archive whose first header cannot be read (-30 is ARCHIVE_FATAL). *)
Definition bad_reader : archive_reader :=
  {| reader_open := 0; reader_headers := [NH_ERR (-30)] |}.

Definition sample_env (scan a : archive_reader) : extract_env :=
  {| env_scan_reader := scan; env_reader := a; env_peers := [true; true; true];
     env_extract_flist_offsets := MFU_SUCCESS;
     env_extract_files_offsets := MFU_SUCCESS;
     env_extract_files_offsets_chunk := MFU_SUCCESS;
     env_extract_symlinks := MFU_SUCCESS;
     env_extract_files := MFU_SUCCESS |}.

(** The archive of [tiny_list]: two headers, at offsets 0 and 1024. *)
Definition tiny_reader : archive_reader :=
  {| reader_open := 0;
     reader_headers :=
       [NH_OK {| ae_pathname := "a"; ae_stat := None; ae_uname := "user";
                 ae_gname := "group"; ae_symlink := None |} 0;
        NH_OK {| ae_pathname := "b"; ae_stat := None; ae_uname := "user";
                 ae_gname := "group"; ae_symlink := None |} 1024] |}.

(** ** Notions used in the statements *)

Definition dec_value (l : list ascii) (v : Z) : Z :=
  fold_left (fun a c => a * 10 + digit_val c) l v.

Definition all_digits (l : list ascii) : Prop :=
  Forall (fun c => is_digit c = true) l.

Definition token_char (c : ascii) : Prop :=
  is_delim c = false /\ is_nul c = false.

(** The closed form of [entry_start], also at [k = R]. *)
Definition partition_bound (E R k : Z) : Z :=
  if k <? E mod R then k * (E / R + 1)
  else E mod R * (E / R + 1) + (k - E mod R) * (E / R).

(** Displacements as running sums. *)
Fixpoint prefix_from (b : Z) (cs : list Z) : list Z :=
  match cs with
  | [] => []
  | c :: cs' => b :: prefix_from (b + c) cs'
  end.

(** The index file can be opened for writing: it does not exist and is
    created with mode 0660, or it is a regular file of mode [mode] that
    its owner may write. *)
Definition index_creatable (fs : filesystem) (name : string) (mode : Z) : Prop :=
  (fs !! name = None /\ mode = 432)
  \/ (exists d, fs !! name = Some (Reg mode d) /\ may_write mode = true).

(** The phases after the offsets are known all succeed. *)
Definition later_phases_succeed (env : extract_env) (opts : mfu_archive_opts_t)
    : Prop :=
  env_extract_flist_offsets env = MFU_SUCCESS
  /\ (if extract_libarchive opts
      then env_extract_files_offsets env = MFU_SUCCESS
      else env_extract_files_offsets_chunk env = MFU_SUCCESS
           /\ env_extract_symlinks env = MFU_SUCCESS).

(** ** The static chunk engine (lines 1588-1685 and 2711-2812)

    Modelled from the spec: [mfu_pread] and the plain [mfu_open] for
    writing (mfu_io.c is not among the sources) are the [pread] and
    [open(O_WRONLY)] system calls: each rank "issues pread from the source
    and pwrite to the archive, both using absolute positions". *)

(** pread(fd, buf, n, pos): the bytes obtained, [None] for -1. *)
Definition mfu_pread (fs : filesystem) (fd : fd_t) (n pos : Z)
    : option (list Z) :=
  match fd with
  | None => None
  | Some d =>
      match fs !! of_path d with
      | Some (Reg _ data) =>
          if pos <? 0 then None
          else Some (take (Z.to_nat n) (drop (Z.to_nat pos) data))
      | _ => None
      end
  end.

(** open(path, O_WRONLY) *)
Definition mfu_open_wronly (fs : filesystem) (path : string) : fd_t :=
  match fs !! path with
  | Some (Reg m _) =>
      if may_write m then Some {| of_path := path; of_pos := 0 |} else None
  | _ => None
  end.

(** The fields of a [mfu_file_chunk] the code reads: [p->name],
    [p->offset], [p->length], [p->rank_of_owner], [p->index_of_owner]. *)
Record mfu_file_chunk := {
  chunk_name : string;
  chunk_offset : Z;
  chunk_length : Z;
  rank_of_owner : Z;
  index_of_owner : Z
}.

(** [a[i]]; [None] when [i] is outside the array. *)
Definition array_get (a : list Z) (i : Z) : option Z :=
  if i <? 0 then None else a !! Z.to_nat i.

(** "compute global index of item" (lines 1622-1625 and 2740-2743). *)
Definition chunk_data_offset (rank_disps all_offsets : list Z)
    (p : mfu_file_chunk) : option Z :=
  let owner_rank := to_int (rank_of_owner p) in
  disp ← array_get rank_disps owner_rank;
  let global_idx := wrap64 (disp + index_of_owner p) in
  array_get all_offsets global_idx.

(** "copy data from source files to archive file" (lines 1638-1674): the
    file system, [DTAR_err] and [reduce_buf[REDUCE_BYTES]] when the loop
    is left; [None] while it is still running when [fuel] is used up. *)
Fixpoint create_chunk_copy (fuel : nat) (fs : filesystem) (in_fd fd : fd_t)
    (bufsize : Z) (p : mfu_file_chunk) (data_offset bytes_copied : Z)
    (err : bool) (reduce : Z) : option (filesystem * bool * Z) :=
  match fuel with
  | O => None
  | S fuel' =>
      if bytes_copied <? chunk_length p then
        let remainder := wrap64 (chunk_length p - bytes_copied) in
        let bytes_to_read := if remainder <? bufsize then remainder else bufsize in
        let pos_read :=
          to_off_t (to_off_t (chunk_offset p) + to_off_t bytes_copied) in
        match mfu_pread fs in_fd bytes_to_read pos_read with
        | None => Some (fs, true, reduce)
        | Some got =>
            let pos_write := to_off_t (to_off_t data_offset + pos_read) in
            let '(fs', nwrite) := mfu_pwrite fs fd got pos_write in
            if nwrite <? 0 then Some (fs', true, reduce)
            else
              create_chunk_copy fuel' fs' in_fd fd bufsize p data_offset
                (wrap64 (bytes_copied + nwrite)) err (wrap64 (reduce + nwrite))
        end
      else Some (fs, err, reduce)
  end.

(** "iterate over items and copy data for each one" (lines 1619-1685) on
    the chunk list of this rank; [fuel] bounds each inner loop. *)
Fixpoint create_chunk_loop (fuel : nat) (fs : filesystem) (fd : fd_t)
    (bufsize : Z) (rank_disps all_offsets : list Z)
    (data_chunks : list mfu_file_chunk) (err : bool) (reduce : Z)
    : option (filesystem * bool * Z) :=
  match data_chunks with
  | [] => Some (fs, err, reduce)
  | p :: next =>
      data_offset ← chunk_data_offset rank_disps all_offsets p;
      match mfu_open_rdonly fs (chunk_name p) with
      | None => Some (fs, true, reduce)
      | Some in_fd =>
          r ← create_chunk_copy fuel fs (Some in_fd) fd bufsize p data_offset
                0 err reduce;
          create_chunk_loop fuel r.1.1 fd bufsize rank_disps all_offsets next
            r.1.2 r.2
      end
  end.

(** "copy data from archive file to destination file" (lines 2755-2800):
    the file system, [DTAR_err], [rc] and [reduce_buf[REDUCE_BYTES]]. *)
Fixpoint extract_chunk_copy (fuel : nat) (fs : filesystem) (fd out_fd : fd_t)
    (bufsize : Z) (p : mfu_file_chunk) (data_offset bytes_copied : Z)
    (err : bool) (rc : mfu_rc) (reduce : Z)
    : option (filesystem * bool * mfu_rc * Z) :=
  match fuel with
  | O => None
  | S fuel' =>
      if bytes_copied <? chunk_length p then
        let remainder := wrap64 (chunk_length p - bytes_copied) in
        let bytes_to_read := if remainder <? bufsize then remainder else bufsize in
        let pos_read :=
          to_off_t (to_off_t (to_off_t data_offset + to_off_t (chunk_offset p))
                    + to_off_t bytes_copied) in
        match mfu_pread fs fd bytes_to_read pos_read with
        | None => Some (fs, err, MFU_FAILURE, reduce)
        | Some got =>
            if Z.of_nat (length got) =? 0 then Some (fs, true, MFU_FAILURE, reduce)
            else
              let pos_write :=
                to_off_t (to_off_t (chunk_offset p) + to_off_t bytes_copied) in
              let '(fs', nwritten) := mfu_pwrite fs out_fd got pos_write in
              if nwritten <? 0 then Some (fs', true, MFU_FAILURE, reduce)
              else
                extract_chunk_copy fuel' fs' fd out_fd bufsize p data_offset
                  (wrap64 (bytes_copied + nwritten)) err rc
                  (wrap64 (reduce + nwritten))
        end
      else Some (fs, err, rc, reduce)
  end.

(** "iterate over items and copy data for each one" (lines 2737-2812). *)
Fixpoint extract_chunk_loop (fuel : nat) (fs : filesystem) (fd : fd_t)
    (bufsize : Z) (rank_disps data_offsets : list Z)
    (data_chunks : list mfu_file_chunk) (err : bool) (rc : mfu_rc) (reduce : Z)
    : option (filesystem * bool * mfu_rc * Z) :=
  match data_chunks, rc with
  | p :: next, MFU_SUCCESS =>
      data_offset ← chunk_data_offset rank_disps data_offsets p;
      match mfu_open_wronly fs (chunk_name p) with
      | None => Some (fs, err, MFU_FAILURE, reduce)
      | Some out_fd =>
          r ← extract_chunk_copy fuel fs fd (Some out_fd) bufsize p data_offset
                0 err rc reduce;
          extract_chunk_loop fuel r.1.1.1 fd bufsize rank_disps data_offsets
            next r.1.1.2 r.1.2 r.2
      end
  | _, _ => Some (fs, err, rc, reduce)
  end.

(** [extract_files_offsets_chunk] (lines 2675-2830) as one rank sees it:
    [peers_open] and [peers_done] are the flags of the other ranks at the
    two [mfu_alltrue], [rank_disps] the gathered list offsets and
    [data_chunks] the chunk list of this rank. *)
Definition extract_files_offsets_chunk (fuel : nat) (fs : filesystem)
    (filename : string) (peers_open peers_done : list bool)
    (rank_disps data_offsets : list Z) (data_chunks : list mfu_file_chunk)
    (opts : mfu_archive_opts_t) (err : bool)
    : option (filesystem * bool * mfu_rc) :=
  let fd := mfu_open_rdonly fs filename in
  let rc := match fd with Some _ => MFU_SUCCESS | None => MFU_FAILURE end in
  if negb (mfu_alltrue (rc_ok rc :: peers_open)) then Some (fs, err, MFU_FAILURE)
  else
    r ← extract_chunk_loop fuel fs fd (buf_size opts) rank_disps data_offsets
          data_chunks err rc 0;
    let '(fs', err', rc', _) := r in
    Some (fs', err',
          if mfu_alltrue (rc_ok rc' :: peers_done) then rc' else MFU_FAILURE).


(** Consecutive chunks of one file, from byte [o] on, of the given
    lengths: the segments a chunk list holds for the file. *)
Fixpoint file_chunks (name : string) (owner idx o : Z) (lens : list Z)
    : list mfu_file_chunk :=
  match lens with
  | [] => []
  | l :: lens' =>
      {| chunk_name := name; chunk_offset := o; chunk_length := l;
         rank_of_owner := owner; index_of_owner := idx |}
      :: file_chunks name owner idx (o + l) lens'
  end.


(** The files of [tiny_fs] with a preallocated archive of 2048 bytes and
    an empty file "a.out" to extract into. *)
Definition chunk_fs : filesystem :=
  <["out.tar" := Reg 436 (zeros 2048)]> (<["a.out" := Reg 420 []]> tiny_fs).


(** The source cache is usable: a cached read descriptor is one of the
    cached name. *)
Definition src_cache_wf (cache : mfu_archive_file_cache_t) : Prop :=
  forall n, cache_name cache = Some n -> cache_read cache = true ->
  exists pos, cache_fd cache = Some {| of_path := n; of_pos := pos |}.

(** The bytes chunk [k] of a file holds, and the NUL bytes that follow
    the last chunk of a file of [S] bytes. *)
Definition chunk_bytes (C k : Z) (src : list Z) : list Z :=
  take (Z.to_nat C) (drop (Z.to_nat (C * k)) src).

Definition chunk_padding (C k S : Z) : list Z :=
  if (k + 1) * C <? S then [] else zeros (Z.to_nat ((512 - S mod 512) mod 512)).

(** ** Metadata through the index (lines 2099-2273)

    What one pass of the loop of [extract_flist_offsets] gets from
    libarchive for the header at the descriptor's position: the results of
    [archive_read_open_fd], [archive_read_next_header] (the end of the
    archive is an error here), [archive_filter_bytes(a, -1)],
    [archive_read_close] and [archive_read_free]; 0 is [ARCHIVE_OK]. *)
Record header_probe := {
  probe_open : Z;
  probe_next : next_header;
  probe_bytes : Z;
  probe_close : Z;
  probe_free : Z
}.

(** The loop of one rank (lines 2143-2229) with [n] passes to go,
    [count + n = entry_count]: the return code, the entries inserted in
    the list and the data offsets stored so far; [None] when [offsets] is
    read out of bounds. *)
Fixpoint flist_offsets_loop (probe : Z -> header_probe) (fd : fd_t)
    (offsets : list Z) (entry_start : Z) (n : nat) (count : Z)
    (flist : list archive_entry) (doffsets : list Z)
    : option (mfu_rc * list archive_entry * list Z) :=
  match n with
  | O => Some (MFU_SUCCESS, flist, doffsets)
  | S n' =>
      let idx := wrap64 (entry_start + count) in
      o ← array_get offsets idx;
      let offset := to_off_t o in
      match mfu_lseek fd offset with
      | None => Some (MFU_FAILURE, flist, doffsets)
      | Some d =>
          let p := probe (of_pos d) in
          if negb (probe_open p =? 0) then Some (MFU_FAILURE, flist, doffsets)
          else
            match probe_next p with
            | NH_ERR _ => Some (MFU_FAILURE, flist, doffsets)
            | NH_OK entry _ =>
                let flist := flist ++ [entry] in
                let header_size := wrap64 (probe_bytes p) in
                let doffsets := doffsets ++ [wrap64 (offset + header_size)] in
                if negb (probe_close p =? 0)
                then Some (MFU_FAILURE, flist, doffsets)
                else if negb (probe_free p =? 0)
                then Some (MFU_FAILURE, flist, doffsets)
                else flist_offsets_loop probe fd offsets entry_start n'
                       (wrap64 (count + 1)) flist doffsets
            end
      end
  end.

(** [extract_flist_offsets] on all ranks; [parts] holds [entry_start] and
    [entry_count] of each rank.  The result is the collective return
    code, the list of every rank and [data_offsets], which
    [MPI_Allgatherv] fills with the ranks' data offsets in rank order,
    each rank sending as many as its list has items. *)
Definition extract_flist_offsets (fs : filesystem) (filename : string)
    (probe : Z -> header_probe) (offsets : list Z) (parts : list (Z * Z))
    : option (mfu_rc * list (list archive_entry) * list Z) :=
  let fd := mfu_open_rdonly fs filename in
  let rc := match fd with Some _ => MFU_SUCCESS | None => MFU_FAILURE end in
  if negb (mfu_alltrue (map (fun _ => rc_ok rc) parts)) then
    Some (MFU_FAILURE, map (fun _ => []) parts, [])
  else
    results ← mapM (fun part : Z * Z =>
                      flist_offsets_loop probe fd offsets part.1
                        (Z.to_nat part.2) 0 [] [])
                 parts;
    let data_offsets :=
      concat (map (fun r : mfu_rc * list archive_entry * list Z =>
                     take (length r.1.2) r.2) results) in
    Some (if mfu_alltrue (map (fun r : mfu_rc * list archive_entry * list Z =>
                                 rc_ok r.1.1) results)
          then MFU_SUCCESS else MFU_FAILURE,
          map (fun r : mfu_rc * list archive_entry * list Z => r.1.2) results,
          data_offsets).



Definition probe_ok (probe : Z -> header_probe) (o : Z) : Prop :=
  probe_open (probe o) = 0
  /\ (exists e pos, probe_next (probe o) = NH_OK e pos)
  /\ probe_close (probe o) = 0 /\ probe_free (probe o) = 0.

(** A probe that reads a one-block header at every offset but 2048,
    where the header is damaged. *)
Definition sample_probe (o : Z) : header_probe :=
  {| probe_open := 0;
     probe_next := if o =? 2048 then NH_ERR (-30) else NH_OK archive_entry_new o;
     probe_bytes := 512;
     probe_close := 0;
     probe_free := 0 |}.

(** * Proofs *)

(** [lia] after division and modulo are replaced by their equations. *)
Ltac dlia := Z.to_euclidean_division_equations; lia.

(** ** Machine integers *)

Lemma wrap64_small z : 0 <= z < 2 ^ 64 -> wrap64 z = z.
Proof. intros Hz. unfold wrap64. apply Z.mod_small. exact Hz. Qed.

Lemma wrap64_range z : 0 <= wrap64 z < 2 ^ 64.
Proof. unfold wrap64. apply Z.mod_pos_bound. lia. Qed.

Lemma to_int_small z : - 2 ^ 31 <= z < 2 ^ 31 -> to_int z = z.
Proof. intros Hz. unfold to_int. rewrite Z.mod_small; lia. Qed.

Lemma to_off_t_small z : - 2 ^ 63 <= z < 2 ^ 63 -> to_off_t z = z.
Proof. intros Hz. unfold to_off_t. rewrite Z.mod_small; lia. Qed.

Lemma Zsum_app l1 l2 : Zsum (l1 ++ l2) = Zsum l1 + Zsum l2.
Proof. unfold Zsum. induction l1 as [|x l1 IH]; simpl; lia. Qed.

Lemma Zsum_nonneg l : Forall (fun x => 0 <= x) l -> 0 <= Zsum l.
Proof. induction 1; simpl; lia. Qed.

Lemma Zsum_map_nonneg {A} (f : A -> Z) l :
  (forall x, 0 <= f x) -> 0 <= Zsum (map f l).
Proof.
  intros Hf. induction l as [|x l IH]; unfold Zsum in *; simpl; [lia|].
  specialize (Hf x). lia.
Qed.

Lemma allreduce_from acc vals :
  0 <= acc -> Forall (fun x => 0 <= x) vals -> acc + Zsum vals < 2 ^ 64 ->
  fold_left (fun a v => wrap64 (a + v)) vals acc = acc + Zsum vals.
Proof.
  intros Hacc Hall. revert acc Hacc.
  induction Hall as [|x l Hx Hl IH]; intros acc Hacc Hlt.
  - unfold Zsum; simpl. lia.
  - pose proof (Zsum_nonneg l Hl) as Hs.
    change (Zsum (x :: l)) with (x + Zsum l) in *. simpl.
    rewrite wrap64_small by lia. rewrite IH; lia.
Qed.

Lemma MPI_Allreduce_sum_exact vals :
  Forall (fun x => 0 <= x) vals -> Zsum vals < 2 ^ 64 ->
  MPI_Allreduce_sum vals = Zsum vals.
Proof.
  intros Hall Hlt. unfold MPI_Allreduce_sum.
  rewrite allreduce_from; auto; lia.
Qed.

(** ** Layout planner *)

Section LayoutProofs.
Context `{Codec}.

Lemma encode_header_length fs it cwd bufsize opts :
  0 <= bufsize ->
  0 <= Z.of_nat (length (encode_header fs it cwd bufsize opts).2) <= bufsize.
Proof.
  intros Hb. unfold encode_header.
  destruct (if preserve opts then _ else _) as [rc e].
  destruct (archive_write_header_pax e) as [hdr|]; simpl; [|lia].
  destruct (Z.leb_spec (Z.of_nat (length hdr)) bufsize); simpl; lia.
Qed.

Lemma fsize_padded_spec S :
  0 <= S <= 2 ^ 64 - 512 ->
  fsize_padded S = (S + 511) / 512 * 512
  /\ S <= fsize_padded S /\ fsize_padded S - S < 512.
Proof.
  intros HS. unfold fsize_padded.
  assert (Hq : 0 <= S / 512 * 512 <= S) by dlia.
  rewrite (wrap64_small (S / 512)) by dlia.
  rewrite (wrap64_small (S / 512 * 512)) by lia.
  destruct (Z.ltb_spec (S / 512 * 512) S).
  - rewrite wrap64_small by dlia. dlia.
  - dlia.
Qed.

Lemma layout_entry_nonneg fs cwd opts it :
  0 <= entry_size (layout_entry fs cwd opts it).
Proof.
  unfold layout_entry. destruct (file_type it); simpl;
    try lia; try apply wrap64_range.
Qed.

Lemma layout_loop_total fs cwd opts flist offset dbytes :
  0 <= offset ->
  offset + Zsum (map (fun it => entry_size (layout_entry fs cwd opts it)) flist)
    < 2 ^ 64 ->
  local_total (layout_loop fs cwd opts flist offset dbytes)
  = offset + Zsum (map (fun it => entry_size (layout_entry fs cwd opts it)) flist).
Proof.
  revert offset dbytes. induction flist as [|it rest IH]; intros offset dbytes Ho Hlt.
  - simpl. lia.
  - simpl in *. pose proof (layout_entry_nonneg fs cwd opts it) as Hn.
    assert (0 <= Zsum (map (fun it => entry_size (layout_entry fs cwd opts it)) rest)).
    { apply Zsum_map_nonneg. intros x. apply layout_entry_nonneg. }
    unfold Zsum in *. rewrite IH; rewrite ?wrap64_small; lia.
Qed.

(** C2: for a regular file of size S the planner's padded content size is
    ceil(S / 512) * 512, at least S and less than S + 512, and 0 for a
    directory or a symlink; the entry size is the header size plus the
    padded content size.  S is an [off_t] file size. *)
Theorem C2_content_padded fs cwd opts it :
  0 <= file_size it < 2 ^ 63 ->
  let le := layout_entry fs cwd opts it in
  (file_type it = MFU_TYPE_FILE ->
     content_padded le = (file_size it + 511) / 512 * 512
     /\ file_size it <= content_padded le
     /\ content_padded le - file_size it < 512
     /\ entry_size le = header_size le + content_padded le)
  /\ (file_type it = MFU_TYPE_DIR \/ file_type it = MFU_TYPE_LINK ->
       content_padded le = 0
       /\ entry_size le = header_size le + content_padded le).
Proof.
  intros HS le. subst le. unfold layout_entry. split.
  - intros ->. simpl.
    destruct (fsize_padded_spec (file_size it)) as (Heq & Hge & Hlt); [lia|].
    pose proof (encode_header_length fs it cwd header_bufsize opts) as Hh.
    unfold header_bufsize in *. repeat split; try assumption.
    apply wrap64_small. lia.
  - intros [-> | ->]; simpl; split; lia.
Qed.

(** ** Archive writer: preallocation and trailer *)

Lemma write_at_end buf pos data :
  length data = (pos + length buf)%nat ->
  write_at buf pos data = take pos data ++ buf.
Proof.
  intros Hlen. unfold write_at.
  replace (pos + length buf - length data)%nat with 0%nat by lia.
  unfold zeros. simpl. rewrite app_nil_r.
  rewrite drop_ge by lia. by rewrite app_nil_r.
Qed.

Lemma mfu_ftruncate_reg (fs : filesystem) path pos m d len :
  fs !! path = Some (Reg m d) -> 0 <= len ->
  mfu_ftruncate fs (Some {| of_path := path; of_pos := pos |}) len
  = <[path := Reg m (take (Z.to_nat len)
                       (d ++ zeros (Z.to_nat len - length d)))]> fs.
Proof.
  intros Hfs Hlen. unfold mfu_ftruncate. simpl. rewrite Hfs.
  destruct (Z.ltb_spec len 0); [lia|done].
Qed.

Lemma create_truncate_length (fs : filesystem) path pos m d A :
  fs !! path = Some (Reg m d) -> 0 <= A -> A + 1024 < 2 ^ 63 ->
  exists d1,
    create_truncate 0 fs (Some {| of_path := path; of_pos := pos |}) A !! path
    = Some (Reg m d1)
    /\ Z.of_nat (length d1) = A + 1024.
Proof.
  intros Hfs HA Hlt. unfold create_truncate.
  replace (0 =? 0) with true by reflexivity.
  replace (A + 2 * 512) with (A + 1024) by lia. cbv zeta.
  rewrite (wrap64_small (A + 1024)) by lia.
  rewrite to_off_t_small by lia.
  erewrite (mfu_ftruncate_reg fs) by (eauto; lia).
  erewrite mfu_ftruncate_reg by (try apply lookup_insert_eq; lia).
  unfold posix_fallocate. simpl. rewrite lookup_insert_eq.
  rewrite lookup_insert_eq. eexists. split; [reflexivity|].
  unfold zeros. simpl.
  rewrite length_app, length_take, !length_replicate. simpl. lia.
Qed.

Lemma create_trailer_zero_blocks (fs : filesystem) path pos m d A :
  fs !! path = Some (Reg m d) -> 0 <= A -> A + 1024 < 2 ^ 63 ->
  Z.of_nat (length d) = A + 1024 ->
  exists d2,
    create_trailer 0 fs false (Some {| of_path := path; of_pos := pos |}) A
    = (<[path := Reg m d2]> fs, false)
    /\ Z.of_nat (length d2) = A + 1024
    /\ drop (Z.to_nat A) d2 = zeros 1024
    /\ take (Z.to_nat A) d2 = take (Z.to_nat A) d.
Proof.
  intros Hfs HA Hlt Hlen. unfold create_trailer, mfu_pwrite.
  replace (0 =? 0) with true by reflexivity. cbv beta iota zeta.
  change (of_path {| of_path := path; of_pos := pos |}) with path.
  rewrite Hfs. rewrite to_off_t_small by lia.
  destruct (Z.ltb_spec A 0); [lia|].
  assert (Hz : length (zeros 1024) = 1024%nat) by apply length_replicate.
  rewrite Hz.
  replace (Z.of_nat 1024 =? 1024) with true by reflexivity.
  eexists. split; [reflexivity|].
  rewrite write_at_end by (rewrite Hz; lia).
  assert (Ht : length (take (Z.to_nat A) d) = Z.to_nat A)
    by (rewrite length_take; lia).
  repeat split.
  - rewrite length_app, Ht, Hz. lia.
  - rewrite drop_app_length'; [done|by rewrite Ht].
  - rewrite take_app_length'; [done|by rewrite Ht].
Qed.

Lemma local_totals_exact fs cwd opts lists :
  total_entry_size fs cwd opts lists < 2 ^ 64 ->
  map (fun l => local_total (create_layout fs cwd opts l)) lists
  = map (fun l =>
           Zsum (map (fun it => entry_size (layout_entry fs cwd opts it)) l))
      lists
  /\ 0 <= total_entry_size fs cwd opts lists.
Proof.
  unfold total_entry_size, create_layout.
  set (f := fun it => entry_size (layout_entry fs cwd opts it)).
  induction lists as [|l lists IH]; intros Hlt.
  - split; [reflexivity|]. unfold Zsum. simpl. lia.
  - change (Zsum (map (fun l0 => Zsum (map f l0)) (l :: lists)))
      with (Zsum (map f l) + Zsum (map (fun l0 => Zsum (map f l0)) lists)) in *.
    assert (Hl : 0 <= Zsum (map f l))
      by (apply Zsum_map_nonneg; intros; apply layout_entry_nonneg).
    destruct IH as [IH Hr].
    { assert (0 <= Zsum (map (fun l0 => Zsum (map f l0)) lists)); [|lia].
      apply Zsum_map_nonneg. intros l0. apply Zsum_map_nonneg.
      intros; apply layout_entry_nonneg. }
    split; [|lia]. simpl. rewrite IH. f_equal.
    rewrite layout_loop_total; fold f; lia.
Qed.

Lemma create_archive_size_exact fs cwd opts lists :
  total_entry_size fs cwd opts lists < 2 ^ 64 ->
  create_archive_size fs cwd opts lists = total_entry_size fs cwd opts lists.
Proof.
  intros Hlt. destruct (local_totals_exact fs cwd opts lists Hlt) as [Heq Hge].
  unfold create_archive_size. rewrite Heq.
  apply MPI_Allreduce_sum_exact; [|exact Hlt].
  clear. induction lists as [|l lists IH]; simpl; constructor; [|exact IH].
  apply Zsum_map_nonneg. intros; apply layout_entry_nonneg.
Qed.

(** C1: the archive size computed by the create path is the sum of
    [entry_size] over all entries of all ranks; rank 0 truncates and
    preallocates the archive file to that size plus 1024 bytes and writes
    1024 zero bytes at offset [archive_size], which ends exactly at the
    preallocated size; the other ranks do neither. *)
Theorem C1_archive_total_size fs cwd opts lists :
  total_entry_size fs cwd opts lists + 1024 < 2 ^ 63 ->
  let archive_size := create_archive_size fs cwd opts lists in
  let total := total_entry_size fs cwd opts lists in
  archive_size = total
  /\ forall (afs : filesystem) path pos m d,
      afs !! path = Some (Reg m d) ->
      let fd := Some {| of_path := path; of_pos := pos |} in
      (exists d1,
          create_truncate 0 afs fd archive_size !! path = Some (Reg m d1)
          /\ Z.of_nat (length d1) = total + 1024)
      /\ (Z.of_nat (length d) = archive_size + 1024 ->
          exists d2,
            create_trailer 0 afs false fd archive_size
            = (<[path := Reg m d2]> afs, false)
            /\ Z.of_nat (length d2) = total + 1024
            /\ drop (Z.to_nat archive_size) d2 = zeros 1024
            /\ take (Z.to_nat archive_size) d2
               = take (Z.to_nat archive_size) d)
      /\ (forall r err, r <> 0 ->
            create_truncate r afs fd archive_size = afs
            /\ create_trailer r afs err fd archive_size = (afs, err)).
Proof.
  intros Hlt archive_size total.
  assert (HA : archive_size = total)
    by (apply create_archive_size_exact; fold total; lia).
  assert (Hge : 0 <= total)
    by (apply (local_totals_exact fs cwd opts lists); fold total; lia).
  split; [exact HA|].
  intros afs path pos m d Hafs fd. subst fd. rewrite HA.
  split; [|split].
  - eapply create_truncate_length; eauto; lia.
  - intros Hlen. apply create_trailer_zero_blocks; auto; lia.
  - intros r err Hr. apply Z.eqb_neq in Hr.
    unfold create_truncate, create_trailer. by rewrite Hr.
Qed.

End LayoutProofs.

Lemma C2_content_padded_witness :
  content_padded
    (layout_entry (H := sample_codec) ∅ "/" sample_opts
       (sample_item "a" MFU_TYPE_FILE 13)) = (13 + 511) / 512 * 512.
Proof.
  refine (proj1 (proj1 (C2_content_padded (H := sample_codec) ∅ "/" sample_opts
                          (sample_item "a" MFU_TYPE_FILE 13) _) _)).
  - simpl. lia.
  - reflexivity.
Defined.

Lemma C1_archive_total_size_witness :
  create_archive_size (H := sample_codec) ∅ "/" sample_opts
    [[sample_item "a" MFU_TYPE_FILE 13]; [sample_item "b" MFU_TYPE_FILE 0]]
  = 1536.
Proof.
  refine (proj1 (C1_archive_total_size (H := sample_codec) ∅ "/" sample_opts
                   [[sample_item "a" MFU_TYPE_FILE 13];
                    [sample_item "b" MFU_TYPE_FILE 0]] _)).
  vm_compute. reflexivity.
Defined.

(** ** Entry partitioning of the extractor *)

Lemma entry_partition_exact E R r :
  0 <= E < 2 ^ 64 -> 1 <= R < 2 ^ 64 -> 0 <= r < R ->
  entry_partition E R r
  = (partition_bound E R r, if r <? E mod R then E / R + 1 else E / R).
Proof.
  intros HE [HR HR'] Hr. unfold entry_partition, partition_bound.
  pose proof (Z.div_mod E R ltac:(lia)) as Hdm.
  pose proof (Z.mod_pos_bound E R ltac:(lia)) as Hm.
  assert (Hq : 0 <= E / R) by (apply Z.div_pos; lia).
  set (q := E / R) in *. set (m := E mod R) in *.
  assert (HqR : 0 <= q * R <= E) by nia.
  rewrite (wrap64_small (q * R)) by lia.
  replace (E - q * R) with m by lia.
  rewrite (wrap64_small m) by lia.
  destruct (Z.ltb_spec r m) as [Hlt | Hge].
  - assert (q + 1 < 2 ^ 64) by nia.
    rewrite (wrap64_small (q + 1)) by lia.
    rewrite (wrap64_small (r * (q + 1))) by nia. reflexivity.
  - f_equal.
    assert (Hmq : wrap64 (m * wrap64 (q + 1)) = m * (q + 1)).
    { destruct (Z.eq_dec m 0) as [Hm0 | Hm0].
      - rewrite Hm0, !Z.mul_0_l. reflexivity.
      - assert (q + 1 < 2 ^ 64) by nia.
        rewrite (wrap64_small (q + 1)) by lia. apply wrap64_small. nia. }
    rewrite Hmq. rewrite (wrap64_small (r - m)) by lia.
    rewrite (wrap64_small ((r - m) * q)) by nia.
    apply wrap64_small. nia.
Qed.

Lemma partition_bound_step E R k :
  1 <= R -> 0 <= k < R ->
  partition_bound E R (k + 1)
  = partition_bound E R k + (if k <? E mod R then E / R + 1 else E / R).
Proof.
  intros HR Hk. unfold partition_bound.
  set (q := E / R). set (m := E mod R).
  destruct (Z.ltb_spec k m), (Z.ltb_spec (k + 1) m); lia.
Qed.

Lemma partition_bound_last E R :
  1 <= R -> partition_bound E R R = E.
Proof.
  intros HR. unfold partition_bound.
  pose proof (Z.div_mod E R ltac:(lia)) as Hdm.
  pose proof (Z.mod_pos_bound E R ltac:(lia)) as Hm.
  destruct (Z.ltb_spec R (E mod R)); lia.
Qed.

Lemma partition_bound_0 E R : 1 <= R -> partition_bound E R 0 = 0.
Proof.
  intros HR. unfold partition_bound.
  pose proof (Z.mod_pos_bound E R ltac:(lia)) as Hm.
  destruct (Z.ltb_spec 0 (E mod R)); lia.
Qed.

Lemma partition_ranges_prefix E R (k : nat) :
  0 <= E < 2 ^ 64 -> 1 <= R < 2 ^ 64 -> Z.of_nat k <= R ->
  flat_map (fun r => seqZ (entry_start E R r) (entry_count E R r))
    (seqZ 0 (Z.of_nat k))
  = seqZ 0 (partition_bound E R (Z.of_nat k)).
Proof.
  intros HE [HR HR']. induction k as [|k IH]; intros Hk.
  - change (Z.of_nat 0) with 0. rewrite partition_bound_0 by lia. reflexivity.
  - rewrite seqZ_S, flat_map_app, IH by lia. simpl.
    rewrite app_nil_r, Z.add_0_l.
    unfold entry_start, entry_count.
    rewrite entry_partition_exact by lia. simpl.
    replace (Z.of_nat (S k)) with (Z.of_nat k + 1) by lia.
    rewrite partition_bound_step by lia.
    assert (0 <= E / R) by (apply Z.div_pos; lia).
    assert (0 <= partition_bound E R (Z.of_nat k)).
    { unfold partition_bound.
      pose proof (Z.mod_pos_bound E R ltac:(lia)) as Hm.
      destruct (Z.ltb_spec (Z.of_nat k) (E mod R)); nia. }
    rewrite seqZ_app by (try destruct (_ <? _); lia).
    rewrite Z.add_0_l. reflexivity.
Qed.

(** C3: with E entries and R ranks, each of the first E mod R ranks owns
    ceil(E/R) entries and every other rank floor(E/R); the ranges
    [entry_start, entry_start + entry_count) start at 0, each one begins
    where the previous rank's ends, the last one ends at E, and listed in
    rank order they enumerate 0, 1, ..., E - 1 exactly once. *)
Theorem C3_entry_partition E R :
  0 <= E < 2 ^ 64 -> 1 <= R <= INT_MAX ->
  (forall r, 0 <= r < R ->
     entry_count E R r = if r <? E mod R then (E + R - 1) / R else E / R)
  /\ entry_start E R 0 = 0
  /\ (forall r, 0 <= r -> r + 1 < R ->
        entry_start E R (r + 1) = entry_start E R r + entry_count E R r)
  /\ entry_start E R (R - 1) + entry_count E R (R - 1) = E
  /\ flat_map (fun r => seqZ (entry_start E R r) (entry_count E R r))
       (seqZ 0 R)
     = seqZ 0 E.
Proof.
  intros HE [HR HR']. unfold INT_MAX in HR'. unfold entry_start, entry_count.
  split; [|split; [|split; [|split]]].
  - intros r Hr. rewrite entry_partition_exact by lia. simpl.
    destruct (Z.ltb_spec r (E mod R)) as [Hlt|]; [|reflexivity].
    pose proof (Z.div_mod E R ltac:(lia)) as Hdm.
    pose proof (Z.mod_pos_bound E R ltac:(lia)) as Hm.
    apply (Z.div_unique _ _ _ (E mod R - 1)); lia.
  - rewrite entry_partition_exact by lia. simpl.
    apply partition_bound_0; lia.
  - intros r Hr0 Hr1. rewrite !entry_partition_exact by lia. simpl.
    apply partition_bound_step; lia.
  - rewrite entry_partition_exact by lia. simpl.
    rewrite <- partition_bound_step by lia.
    replace (R - 1 + 1) with R by lia. apply partition_bound_last; lia.
  - pose proof (partition_ranges_prefix E R (Z.to_nat R) HE) as Hp.
    rewrite Z2Nat.id in Hp by lia. unfold entry_start, entry_count in Hp.
    rewrite Hp by lia. rewrite partition_bound_last by lia. reflexivity.
Qed.

Lemma C3_entry_partition_witness :
  flat_map (fun r => seqZ (entry_start 10 4 r) (entry_count 10 4 r)) (seqZ 0 4)
  = seqZ 0 10.
Proof.
  refine (proj2 (proj2 (proj2 (proj2 (C3_entry_partition 10 4 _ _))))).
  - lia.
  - unfold INT_MAX. lia.
Defined.

(** ** Work items: printing and scanning decimal numbers *)

Lemma digit_char_spec d :
  0 <= d < 10 ->
  is_digit (digit_char d) = true /\ digit_val (digit_char d) = d.
Proof.
  intros Hd.
  assert (Hc : d = 0 \/ d = 1 \/ d = 2 \/ d = 3 \/ d = 4 \/ d = 5 \/ d = 6
               \/ d = 7 \/ d = 8 \/ d = 9) by lia.
  repeat (destruct Hc as [-> | Hc]; [split; reflexivity|]).
  subst d. split; reflexivity.
Qed.

Lemma is_digit_token_char c : is_digit c = true -> token_char c.
Proof.
  intros Hc. unfold token_char, is_delim, is_nul.
  split; apply bool_decide_eq_false; intros ->; vm_compute in Hc; discriminate.
Qed.

Lemma is_digit_not_sign c :
  is_digit c = true -> is_space c = false /\ c <> minus /\ c <> plus.
Proof.
  intros Hc. split; [|split].
  - unfold is_digit in Hc. unfold is_space.
    apply andb_true_iff in Hc as [H1 H2].
    apply Nat.leb_le in H1. apply Nat.leb_le in H2.
    apply orb_false_iff. split.
    + apply Nat.eqb_neq. lia.
    + apply andb_false_iff. right. apply Nat.leb_gt. lia.
  - intros ->. vm_compute in Hc. discriminate.
  - intros ->. vm_compute in Hc. discriminate.
Qed.

Lemma minus_token_char : token_char minus /\ is_space minus = false.
Proof. repeat split. Qed.

Lemma print_digits_all_digits fuel n acc :
  0 <= n -> all_digits acc -> all_digits (print_digits fuel n acc).
Proof.
  revert n acc. induction fuel as [|f IH]; intros n acc Hn Hacc; simpl.
  - exact Hacc.
  - assert (Hd : all_digits (digit_char (n mod 10) :: acc)).
    { constructor; [|exact Hacc]. apply digit_char_spec. dlia. }
    destruct (n / 10 =? 0); [exact Hd|]. apply IH; [dlia|exact Hd].
Qed.

Lemma print_digits_nonempty fuel n acc :
  print_digits (S fuel) n acc <> [].
Proof.
  revert n acc. induction fuel as [|f IH]; intros n acc.
  - simpl. destruct (n / 10 =? 0); discriminate.
  - change (print_digits (S (S f)) n acc)
      with (if n / 10 =? 0 then digit_char (n mod 10) :: acc
            else print_digits (S f) (n / 10) (digit_char (n mod 10) :: acc)).
    destruct (n / 10 =? 0); [discriminate|apply IH].
Qed.

Lemma print_digits_value fuel n acc :
  0 <= n < 10 ^ Z.of_nat fuel ->
  dec_value (print_digits fuel n acc) 0 = dec_value acc n.
Proof.
  revert n acc. induction fuel as [|f IH]; intros n acc Hn.
  - simpl in *. assert (n = 0) as -> by lia. reflexivity.
  - rewrite Nat2Z.inj_succ, Z.pow_succ_r in Hn by lia.
    assert (Hd : digit_val (digit_char (n mod 10)) = n mod 10)
      by (apply digit_char_spec; dlia).
    simpl. destruct (Z.eqb_spec (n / 10) 0) as [H0 | H0].
    + unfold dec_value. simpl. rewrite Hd. f_equal. dlia.
    + rewrite IH by dlia. unfold dec_value. simpl. rewrite Hd. f_equal. dlia.
Qed.

Lemma scan_digits_all l v : all_digits l -> scan_digits l v = dec_value l v.
Proof.
  intros Hl. revert v. induction Hl as [|c l Hc Hl IH]; intros v; simpl.
  - reflexivity.
  - rewrite Hc. apply IH.
Qed.

Lemma scan_integer_digits l :
  all_digits l -> l <> [] -> scan_integer l = Some (false, dec_value l 0).
Proof.
  intros Hl Hne. destruct Hl as [|c l Hc Hl]; [done|].
  destruct (is_digit_not_sign c Hc) as (Hsp & Hm & Hp).
  unfold scan_integer. simpl. rewrite Hsp.
  repeat (case_decide; [done|]).
  rewrite Hc. f_equal. f_equal.
  apply (scan_digits_all (c :: l)). constructor; assumption.
Qed.

Lemma sscanf_u64_print n :
  0 <= n < 2 ^ 64 -> sscanf_u64 (print_u64 n) = Some n.
Proof.
  intros Hn. unfold sscanf_u64, print_u64.
  rewrite scan_integer_digits.
  - rewrite print_digits_value by (simpl; lia). unfold dec_value. simpl.
    f_equal. lia.
  - apply print_digits_all_digits; [lia|constructor].
  - apply print_digits_nonempty.
Qed.

Lemma sscanf_int_print n :
  - 2 ^ 31 <= n < 2 ^ 31 -> sscanf_int (print_int n) = Some n.
Proof.
  intros Hn. unfold sscanf_int, print_int.
  destruct (Z.ltb_spec n 0) as [Hneg | Hpos].
  - assert (Hd : all_digits (print_digits 10 (- n) []))
      by (apply print_digits_all_digits; [lia|constructor]).
    pose proof (print_digits_nonempty 9 (- n) []) as Hne.
    destruct (print_digits 10 (- n) []) as [|c l] eqn:Hp; [done|].
    inversion Hd as [|? ? Hc Hl]; subst.
    unfold scan_integer.
    change (skip_spaces (minus :: c :: l)) with (minus :: c :: l).
    cbv beta iota. case_decide; [|done].
    rewrite Hc. rewrite scan_digits_all by exact Hd.
    rewrite <- Hp, print_digits_value by (simpl; lia).
    unfold dec_value. simpl. f_equal. rewrite to_int_small; lia.
  - rewrite scan_integer_digits.
    + rewrite print_digits_value by (simpl; lia). unfold dec_value. simpl.
      f_equal. apply to_int_small. lia.
    + apply print_digits_all_digits; [lia|constructor].
    + apply print_digits_nonempty.
Qed.

Lemma print_u64_token n :
  0 <= n -> Forall token_char (print_u64 n) /\ print_u64 n <> [].
Proof.
  intros Hn. split; [|apply print_digits_nonempty].
  eapply Forall_impl; [apply print_digits_all_digits; [lia|constructor]|].
  intros c. apply is_digit_token_char.
Qed.

Lemma print_int_token n :
  Forall token_char (print_int n) /\ print_int n <> [].
Proof.
  unfold print_int. destruct (Z.ltb_spec n 0).
  - split; [|discriminate]. constructor; [apply minus_token_char|].
    eapply Forall_impl; [apply print_digits_all_digits; [lia|constructor]|].
    intros c. apply is_digit_token_char.
  - split; [|apply print_digits_nonempty].
    eapply Forall_impl; [apply print_digits_all_digits; [lia|constructor]|].
    intros c. apply is_digit_token_char.
Qed.

(** ** Work items: strtok and the decoder *)

Lemma skip_delims_token t rest :
  Forall token_char t -> t <> [] -> skip_delims (t ++ rest) = t ++ rest.
Proof.
  intros Ht Hne. destruct Ht as [|c t [Hc _] Ht]; [done|].
  simpl. by rewrite Hc.
Qed.

Lemma token_span_app t d rest :
  Forall token_char t -> is_delim d || is_nul d = true ->
  token_span (t ++ d :: rest) = (t, d :: rest).
Proof.
  intros Ht Hd. induction Ht as [|c t [Hc1 Hc2] Ht IH]; simpl.
  - by rewrite Hd.
  - by rewrite Hc1, Hc2, IH.
Qed.

Lemma strtok_token t rest :
  Forall token_char t -> t <> [] ->
  strtok (t ++ colon :: rest)
  = Some {| tok := t; tok_end := rest; save := rest |}.
Proof.
  intros Ht Hne. unfold strtok. rewrite skip_delims_token by assumption.
  destruct t as [|c t]; [done|].
  pose proof (Forall_inv Ht) as [_ Hc].
  change ((c :: t) ++ colon :: rest) with (c :: (t ++ colon :: rest)).
  cbv beta iota. rewrite Hc.
  change (c :: (t ++ colon :: rest)) with ((c :: t) ++ colon :: rest).
  rewrite token_span_app by (assumption || reflexivity).
  reflexivity.
Qed.

Lemma cstr_app operand junk :
  Forall (fun c => c <> NUL) operand -> cstr (operand ++ NUL :: junk) = operand.
Proof.
  intros Hop. induction Hop as [|c l Hc Hl IH]; simpl.
  - reflexivity.
  - unfold is_nul at 1. rewrite bool_decide_eq_false_2 by exact Hc.
    by rewrite IH.
Qed.

Section WorkItemProofs.
Variable CIRCLE_MAX_STRING_LEN : Z.
Hypothesis max_fits_int : CIRCLE_MAX_STRING_LEN <= 2 ^ 31.

Lemma decode_encode code operand fsize chunk_idx offset s junk :
  0 <= fsize < 2 ^ 64 -> 0 <= chunk_idx < 2 ^ 64 -> 0 <= offset < 2 ^ 64 ->
  - 2 ^ 31 <= code < 2 ^ 31 ->
  Forall (fun c => c <> NUL) operand ->
  DTAR_encode_operation CIRCLE_MAX_STRING_LEN code operand fsize chunk_idx offset
  = Some s ->
  DTAR_decode_operation (s ++ NUL :: junk)
  = Some {| op_file_size := fsize; op_chunk_index := chunk_idx;
            op_offset := offset; op_code := code; op_operand := operand |}.
Proof.
  intros Hf Hc Ho Hcode Hop. unfold DTAR_encode_operation.
  destruct (_ >=? _) eqn:Hlen; [discriminate|].
  rewrite Z.geb_leb in Hlen. apply Z.leb_gt in Hlen.
  intros [= <-].
  assert (Hl : Z.of_nat (length operand) < 2 ^ 31).
  { revert Hlen. rewrite !length_app. simpl. rewrite !length_app. simpl.
    rewrite !length_app. simpl. rewrite !length_app. simpl.
    rewrite !length_app. simpl. lia. }
  rewrite (to_int_small (Z.of_nat (length operand))) by lia.
  destruct (print_u64_token fsize) as [Ht1 Hn1]; [lia|].
  destruct (print_u64_token chunk_idx) as [Ht2 Hn2]; [lia|].
  destruct (print_u64_token offset) as [Ht3 Hn3]; [lia|].
  destruct (print_int_token code) as [Ht4 Hn4].
  destruct (print_int_token (Z.of_nat (length operand))) as [Ht5 Hn5].
  unfold DTAR_decode_operation.
  repeat rewrite <- app_assoc. repeat rewrite <- app_comm_cons.
  repeat rewrite <- app_assoc.
  rewrite strtok_token by assumption. cbn [mbind option_bind tok save tok_end].
  rewrite sscanf_u64_print by assumption. cbn [mbind option_bind].
  repeat rewrite <- app_comm_cons. repeat rewrite <- app_assoc.
  rewrite strtok_token by assumption. cbn [mbind option_bind tok save tok_end].
  rewrite sscanf_u64_print by assumption. cbn [mbind option_bind].
  repeat rewrite <- app_comm_cons. repeat rewrite <- app_assoc.
  rewrite strtok_token by assumption. cbn [mbind option_bind tok save tok_end].
  rewrite sscanf_u64_print by assumption. cbn [mbind option_bind].
  repeat rewrite <- app_comm_cons. repeat rewrite <- app_assoc.
  rewrite strtok_token by assumption. cbn [mbind option_bind tok save tok_end].
  rewrite sscanf_int_print by assumption. cbn [mbind option_bind].
  repeat rewrite <- app_comm_cons.
  rewrite strtok_token by assumption. cbn [mbind option_bind tok save tok_end].
  rewrite sscanf_int_print by lia. cbn [mbind option_bind].
  destruct (Z.ltb_spec (Z.of_nat (length operand)) 0); [lia|].
  rewrite length_app. simpl.
  destruct (Z.leb_spec (Z.of_nat (length operand + S (length junk)))
              (Z.of_nat (length operand))); [lia|].
  simpl. rewrite Nat2Z.id.
  rewrite insert_app_r_alt by lia. rewrite Nat.sub_diag. simpl.
  by rewrite cstr_app.
Qed.

(** C10: a work item that fits the maximum string length round-trips:
    decoding the buffer that holds the string written by
    [DTAR_encode_operation] (followed by its terminating NUL and whatever
    the rest of the buffer holds) gives back the file size, chunk index,
    archive offset, operation code and operand. *)
Theorem C10_work_item_roundtrip code operand fsize chunk_idx offset s junk :
  0 <= fsize < 2 ^ 64 -> 0 <= chunk_idx < 2 ^ 64 -> 0 <= offset < 2 ^ 64 ->
  - 2 ^ 31 <= code < 2 ^ 31 ->
  Forall (fun c => c <> NUL) operand ->
  DTAR_encode_operation CIRCLE_MAX_STRING_LEN code operand fsize chunk_idx offset
  = Some s ->
  exists op,
    DTAR_decode_operation (s ++ NUL :: junk) = Some op
    /\ op_file_size op = fsize /\ op_chunk_index op = chunk_idx
    /\ op_offset op = offset /\ op_code op = code /\ op_operand op = operand.
Proof.
  intros Hf Hc Ho Hcode Hop Henc. eexists. split.
  - exact (decode_encode code operand fsize chunk_idx offset s junk
             Hf Hc Ho Hcode Hop Henc).
  - repeat split.
Qed.

End WorkItemProofs.

Example encode_example :
  DTAR_encode_operation 4096 COPY_DATA (list_ascii_of_string "/tmp/a:b")
    13 0 512
  = Some (list_ascii_of_string "13:0:512:0:8:/tmp/a:b").
Proof. reflexivity. Qed.

Lemma C10_work_item_roundtrip_witness :
  exists op,
    DTAR_decode_operation
      (list_ascii_of_string "13:0:512:0:8:/tmp/a:b" ++ NUL :: [])
    = Some op
    /\ op_file_size op = 13 /\ op_chunk_index op = 0 /\ op_offset op = 512
    /\ op_code op = COPY_DATA
    /\ op_operand op = list_ascii_of_string "/tmp/a:b".
Proof.
  apply (C10_work_item_roundtrip 4096); try (unfold COPY_DATA; lia).
  - repeat (constructor; [intros Hx; vm_compute in Hx; discriminate Hx|]).
    constructor.
  - reflexivity.
Defined.

(** ** The dynamic copy engine on one file *)

Section CopyProofs.
Variable CIRCLE_MAX_STRING_LEN : Z.
Variable DCOPY_DEF_PERMS_FILE : Z.
Hypothesis max_fits_int : CIRCLE_MAX_STRING_LEN <= 2 ^ 31.

(** A file of S bytes gets ceil(S / C) work items, and one when S = 0. *)
Lemma enqueue_file_count name S doffset C ops :
  0 < C < 2 ^ 64 -> 0 <= S < 2 ^ 64 ->
  enqueue_file CIRCLE_MAX_STRING_LEN name S doffset C = Some ops ->
  Z.of_nat (length ops) = Z.max 1 ((S + C - 1) / C).
Proof.
  intros HC HS. unfold enqueue_file.
  destruct (Z.eqb_spec C 0); [lia|]. intros [= <-].
  rewrite length_app, length_map, length_seqZ.
  assert (Hq : 0 <= S / C) by (apply Z.div_pos; lia).
  pose proof (Z.div_mod S C ltac:(lia)) as Hdm.
  pose proof (Z.mod_pos_bound S C ltac:(lia)) as Hm.
  assert (HqC : 0 <= S / C * C <= S) by nia.
  rewrite (wrap64_small (S / C * C)) by lia.
  destruct (Z.ltb_spec (S / C * C) S) as [Hlt | Hge]; simpl.
  - assert ((S + C - 1) / C = S / C + 1) as ->;
      [|lia].
    symmetry. apply (Z.div_unique _ _ _ (S mod C - 1)); lia.
  - assert (Hmod : S mod C = 0) by lia.
    assert ((S + C - 1) / C = S / C) as ->.
    { symmetry. apply (Z.div_unique _ _ _ (C - 1)); lia. }
    destruct (Z.eqb_spec (S / C) 0); simpl; lia.
Qed.

Lemma string_of_list_ascii_id (s : string) :
  string_of_list_ascii (list_ascii_of_string s) = s.
Proof. apply string_of_list_ascii_of_string. Qed.

Lemma copy_loop_eof fuel (fs : filesystem) path pos out_fd bufsize C m :
  0 < C < 2 ^ 64 -> fs !! path = Some (Reg m []) ->
  copy_loop (S fuel) fs (Some {| of_path := path; of_pos := pos |}) out_fd
    bufsize C 0 false
  = (fs, Some {| of_path := path; of_pos := pos + 0 |}, out_fd, 0, false).
Proof.
  intros HC Hfs. simpl. destruct (Z.ltb_spec 0 C); [|lia]. simpl.
  unfold mfu_read. simpl. rewrite Hfs. rewrite drop_nil, take_nil. reflexivity.
Qed.

(** C4, on the code as it is: a zero-byte regular file gets exactly one
    work item; processing that item writes no byte to the archive, but the
    item does set the rank's error flag: with [file_size = 0] the index of
    the last chunk wraps to 2^64 - 1, chunk 0 is not taken for the last
    chunk, and the "read all bytes" check expects [chunk_size] bytes. *)
Theorem C4_zero_byte_file_sets_error
    (name : string) C doffset opts st m wfd s junk :
  0 < C < 2 ^ 64 -> 0 <= doffset < 2 ^ 63 ->
  chunk_size opts = C ->
  Forall (fun c => c <> NUL) (list_ascii_of_string name) ->
  dtar_fs st !! name = Some (Reg m []) -> may_read m = true ->
  cache_name (mfu_archive_src_cache st) = None ->
  writer_fd (DTAR_writer st) = Some wfd ->
  DTAR_err st = false ->
  enqueue_file CIRCLE_MAX_STRING_LEN name 0 doffset C = Some [Some s] ->
  exists st',
    DTAR_perform_copy DCOPY_DEF_PERMS_FILE st opts
      (s ++ NUL :: junk) = Some st'
    /\ dtar_fs st' = dtar_fs st
    /\ reduce_bytes st' = wrap64 (reduce_bytes st)
    /\ DTAR_err st' = true.
Proof.
  intros HC Hd Hopts Hname Hfs Hread Hcache Hw Herr. unfold enqueue_file.
  destruct (Z.eqb_spec C 0); [lia|].
  rewrite Z.div_0_l by lia. simpl. intros [= Henc].
  unfold DTAR_perform_copy.
  rewrite (decode_encode CIRCLE_MAX_STRING_LEN max_fits_int COPY_DATA
             (list_ascii_of_string name) 0 0 doffset s junk)
    by (assumption || (unfold COPY_DATA; lia)).
  cbn [mbind option_bind]. eexists. split; [reflexivity|].
  unfold perform_copy_op. cbn [op_operand op_chunk_index op_offset op_file_size].
  rewrite string_of_list_ascii_id.
  unfold mfu_archive_open_file. rewrite Hcache. cbv beta iota zeta.
  unfold mfu_archive_close_file. rewrite Hcache.
  unfold mfu_open_rdonly. rewrite Hfs, Hread. cbv beta iota zeta.
  cbn [cache_fd cache_name cache_read].
  rewrite Hopts, Hw, Herr, Z.mul_0_r.
  replace (wrap64 0) with 0 by reflexivity.
  rewrite Z.add_0_r. rewrite (wrap64_small doffset) by lia.
  unfold mfu_lseek. rewrite (to_off_t_small 0) by lia.
  rewrite (to_off_t_small doffset) by lia.
  replace (0 <? 0) with false by reflexivity.
  destruct (Z.ltb_spec doffset 0); [lia|]. cbv beta iota zeta.
  cbn [of_path].
  erewrite copy_loop_eof by eassumption.
  rewrite Z.div_0_l, Z.mul_0_r by lia.
  replace (wrap64 0) with 0 by reflexivity.
  replace (wrap64 (0 - 0)) with 0 by reflexivity.
  replace (wrap64 (0 - 1)) with (2 ^ 64 - 1) by reflexivity.
  replace (0 =? 0) with true by reflexivity.
  replace (0 =? 2 ^ 64 - 1) with false by reflexivity.
  rewrite !Z.add_0_l, Z.add_0_r, (wrap64_small C) by lia.
  replace (wrap64 0) with 0 by reflexivity.
  destruct (Z.ltb_spec 0 C); [|lia].
  repeat split.
Qed.

End CopyProofs.

Lemma C4_zero_byte_file_sets_error_witness :
  exists st',
    DTAR_perform_copy 384 sample_dtar_state sample_opts
      (list_ascii_of_string "0:0:512:0:1:b" ++ NUL :: []) = Some st'
    /\ dtar_fs st' = dtar_fs sample_dtar_state
    /\ reduce_bytes st' = wrap64 (reduce_bytes sample_dtar_state)
    /\ DTAR_err st' = true.
Proof.
  apply (C4_zero_byte_file_sets_error 4096 384 ltac:(lia) "b" 1048576 512
           sample_opts sample_dtar_state 420
           {| of_path := "out.tar"; of_pos := 0 |});
    try reflexivity; try lia.
  repeat (constructor; [intros Hx; vm_compute in Hx; discriminate Hx|]).
  constructor.
Defined.

(** ** Header encoding of symlinks *)

Section HeaderProofs.
Context `{Codec}.

(** C6, as amended: with the preserve option off, header encoding fails
    for every symlink whose target is [PATH_MAX] bytes or longer:
    [encode_header] returns failure, [write_header] sets [DTAR_err],
    returns failure and writes nothing to the archive, so no header with
    a truncated target is produced. *)
Theorem C6_symlink_target_too_long fs it cwd bufsize opts target err fd offset :
  preserve opts = false ->
  file_type it = MFU_TYPE_LINK ->
  fs !! file_name it = Some (Lnk target) ->
  PATH_MAX <= Z.of_nat (length (list_ascii_of_string target)) ->
  (encode_header fs it cwd bufsize opts).1 = MFU_FAILURE
  /\ write_header fs err it cwd bufsize opts fd offset = (fs, true, MFU_FAILURE).
Proof.
  intros Hp Ht Hfs Hlen.
  assert (He : (encode_header fs it cwd bufsize opts).1 = MFU_FAILURE).
  { unfold encode_header. rewrite Hp, Ht.
    destruct (decide (MFU_TYPE_LINK = MFU_TYPE_LINK)); [|done].
    unfold mfu_readlink. rewrite Hfs.
    rewrite length_take.
    replace (PATH_MAX + 1 - 1) with PATH_MAX by lia.
    destruct (Z.ltb_spec (Z.of_nat (Z.to_nat PATH_MAX
                                      `min` length (list_ascii_of_string target)))
                PATH_MAX) as [Hlt|_]; [unfold PATH_MAX in *; lia|].
    destruct (archive_write_header_pax _) as [hdr|]; [|reflexivity].
    destruct (_ <=? _); reflexivity. }
  split; [exact He|]. unfold write_header.
  destruct (encode_header fs it cwd bufsize opts) as [rc buf].
  simpl in He. by rewrite He.
Qed.

End HeaderProofs.

Lemma C6_symlink_target_too_long_witness :
  (encode_header (H := sample_codec) long_link_fs
     (sample_item "l" MFU_TYPE_LINK 0) "/" header_bufsize sample_opts).1
  = MFU_FAILURE
  /\ write_header (H := sample_codec) long_link_fs false
       (sample_item "l" MFU_TYPE_LINK 0) "/" header_bufsize sample_opts
       (Some {| of_path := "out.tar"; of_pos := 0 |}) 0
     = (long_link_fs, true, MFU_FAILURE).
Proof.
  apply (C6_symlink_target_too_long (H := sample_codec) long_link_fs
           (sample_item "l" MFU_TYPE_LINK 0) "/" header_bufsize sample_opts
           long_target).
  - reflexivity.
  - reflexivity.
  - reflexivity.
  - vm_compute. discriminate.
Defined.

(** C6 as stated fails on the preserve path: the link target is read by
    the codec, the [PATH_MAX] check is not applied, and the header of a
    symlink whose target has 5000 bytes is encoded and written. *)
Lemma C6_counterexample :
  long_link_fs !! "l" = Some (Lnk long_target)
  /\ PATH_MAX < Z.of_nat (length (list_ascii_of_string long_target))
  /\ (encode_header (H := disk_codec) long_link_fs
        (sample_item "l" MFU_TYPE_LINK 0) "/" header_bufsize preserve_opts).1
     = MFU_SUCCESS
  /\ (write_header (H := disk_codec) long_link_fs false
        (sample_item "l" MFU_TYPE_LINK 0) "/" header_bufsize preserve_opts
        (Some {| of_path := "out.tar"; of_pos := 0 |}) 0).2
     = MFU_SUCCESS
  /\ (write_header (H := disk_codec) long_link_fs false
        (sample_item "l" MFU_TYPE_LINK 0) "/" header_bufsize preserve_opts
        (Some {| of_path := "out.tar"; of_pos := 0 |}) 0).1.2
     = false.
Proof. vm_compute. repeat split. Qed.

(** ** Entry extraction: scanning the archive *)

Lemma read_entry_index_absent (fs : filesystem) filename :
  fs !! index_name filename = None -> read_entry_index fs filename = None.
Proof.
  intros Hfs. unfold read_entry_index, mfu_stat. by rewrite Hfs.
Qed.

Lemma index_loop_error (pre : list (archive_entry * Z)) r rest offs :
  (index_loop (map (fun x => NH_OK x.1 x.2) pre ++ NH_ERR r :: rest)
     MFU_SUCCESS offs).1 = MFU_FAILURE.
Proof.
  revert offs. induction pre as [|[e pos] pre IH]; intros offs; simpl.
  - reflexivity.
  - apply IH.
Qed.

Lemma extract_flist_loop_error (pre : list (archive_entry * Z)) r rest
    ranks mfu_rank count flist :
  extract_flist_loop (map (fun x => NH_OK x.1 x.2) pre ++ NH_ERR r :: rest)
    ranks mfu_rank count flist = Exited r.
Proof.
  revert count flist. induction pre as [|[e pos] pre IH]; intros count flist; simpl.
  - reflexivity.
  - apply IH.
Qed.

(** C5, on the code as it is: when reading a header fails in
    [extract_flist] (the archive opens, some headers are read, the next
    read returns an error code r), the function calls exit(r): it does not
    return MFU_FAILURE and never reaches its final [mfu_alltrue]; when
    the extract operation gets there (no index file, and the scan of
    [index_entries] failed) it ends in that exit. *)
Theorem C5_header_read_failure_exits env (fs : filesystem) filename ranks
    mfu_rank opts (pre : list (archive_entry * Z)) r rest :
  fs !! index_name filename = None ->
  index_entries (env_scan_reader env) = None ->
  env_reader env
  = {| reader_open := 0;
       reader_headers := map (fun x => NH_OK x.1 x.2) pre ++ NH_ERR r :: rest |} ->
  extract_flist (env_reader env) (Z.of_nat ranks) mfu_rank (env_peers env)
  = Exited r
  /\ mfu_flist_archive_extract env fs filename ranks mfu_rank opts = Exited r.
Proof.
  intros Hfs Hi Hrd.
  assert (He : extract_flist (env_reader env) (Z.of_nat ranks) mfu_rank
                 (env_peers env) = Exited r).
  { unfold extract_flist. rewrite Hrd. simpl.
    by rewrite extract_flist_loop_error. }
  split; [exact He|].
  unfold mfu_flist_archive_extract.
  rewrite read_entry_index_absent by exact Hfs.
  rewrite Hi. cbv beta iota zeta. by rewrite He.
Qed.

Lemma C5_header_read_failure_exits_witness :
  extract_flist bad_reader 4 0 [true; true; true] = Exited (-30)
  /\ mfu_flist_archive_extract (sample_env bad_reader bad_reader) ∅ "out.tar"
       4 0 sample_opts = Exited (-30).
Proof.
  apply (C5_header_read_failure_exits (sample_env bad_reader bad_reader) ∅
           "out.tar" 4 0 sample_opts [] (-30) []); reflexivity.
Defined.

(** The sibling [extract_flist_offsets], [extract_files] and
    [index_entries] set [rc = MFU_FAILURE] on the same error: here is
    [index_entries] on the same headers, also after some good ones. *)
Lemma index_entries_error (pre : list (archive_entry * Z)) r rest :
  index_entries
    {| reader_open := 0;
       reader_headers := map (fun x => NH_OK x.1 x.2) pre ++ NH_ERR r :: rest |}
  = None.
Proof.
  unfold index_entries. simpl.
  pose proof (index_loop_error pre r rest []) as Hl.
  destruct (index_loop _ _ _) as [rc offs]. simpl in Hl. by rewrite Hl.
Qed.

(** ** Index file *)

Lemma mfu_pack_uint64_length v : length (mfu_pack_uint64 v) = 8%nat.
Proof. reflexivity. Qed.

Lemma unpack_pack v rest :
  0 <= v < 2 ^ 64 -> mfu_unpack_uint64 (mfu_pack_uint64 v ++ rest) = v.
Proof.
  intros Hv. unfold mfu_unpack_uint64.
  rewrite take_app_length' by reflexivity.
  unfold mfu_pack_uint64. cbn [map fold_left].
  change (8 * 7) with 56. change (8 * 6) with 48. change (8 * 5) with 40.
  change (8 * 4) with 32. change (8 * 3) with 24. change (8 * 2) with 16.
  change (8 * 1) with 8. change (8 * 0) with 0.
  change (2 ^ 0) with 1. rewrite Z.div_1_r.
  dlia.
Qed.

Lemma flat_map_pack_length l :
  length (flat_map mfu_pack_uint64 l) = (8 * length l)%nat.
Proof.
  induction l as [|v l IH]; [reflexivity|].
  change (flat_map mfu_pack_uint64 (v :: l))
    with (mfu_pack_uint64 v ++ flat_map mfu_pack_uint64 l).
  rewrite length_app, IH, mfu_pack_uint64_length. simpl. lia.
Qed.

Lemma unpack_loop_pack l :
  Forall (fun v => 0 <= v < 2 ^ 64) l ->
  unpack_loop (length l) (flat_map mfu_pack_uint64 l) = l.
Proof.
  induction 1 as [|v l Hv Hl IH]; [reflexivity|].
  change (flat_map mfu_pack_uint64 (v :: l))
    with (mfu_pack_uint64 v ++ flat_map mfu_pack_uint64 l).
  cbn [length unpack_loop]. rewrite unpack_pack by exact Hv.
  rewrite drop_app_length' by reflexivity. by rewrite IH.
Qed.

Lemma scan_disps pre counts :
  Forall (fun x => 0 <= x) pre -> Forall (fun x => 0 <= x) counts ->
  Zsum pre + Zsum counts < 2 ^ 64 ->
  imap (fun r c => wrap64 (MPI_Scan_sum (pre ++ counts) (length pre + r) - c))
    counts
  = prefix_from (Zsum pre) counts.
Proof.
  intros Hpre Hcs. revert pre Hpre.
  induction Hcs as [|c cs Hc Hcs IH]; intros pre Hpre Hlt; [reflexivity|].
  change (Zsum (c :: cs)) with (c + Zsum cs) in Hlt.
  pose proof (Zsum_nonneg cs Hcs) as Hs.
  pose proof (Zsum_nonneg pre Hpre) as Hp.
  rewrite imap_cons. cbn [prefix_from]. f_equal.
  - unfold MPI_Scan_sum. rewrite Nat.add_0_r.
    replace (S (length pre)) with (length pre + 1)%nat by lia.
    rewrite take_app_add. change (take 1 (c :: cs)) with [c].
    rewrite MPI_Allreduce_sum_exact.
    + rewrite Zsum_app. change (Zsum [c]) with (c + 0).
      rewrite wrap64_small; lia.
    + apply Forall_app. split; [exact Hpre|]. by constructor.
    + rewrite Zsum_app. change (Zsum [c]) with (c + 0). lia.
  - specialize (IH (pre ++ [c])).
    rewrite Zsum_app in IH. change (Zsum [c]) with (c + 0) in IH.
    rewrite Z.add_0_r in IH. rewrite <- IH.
    + apply imap_ext. intros r x _. simpl.
      rewrite <- app_assoc. simpl. rewrite length_app. simpl.
      do 3 f_equal. lia.
    + apply Forall_app. split; [exact Hpre|]. by constructor.
    + lia.
Qed.

Lemma gatherv_blocks (sends : list (list Z)) (filled rest : list Z) :
  length rest = length (concat sends) ->
  fold_left
    (fun buf x => list_inserts (Z.to_nat x.2) (take (Z.to_nat x.1.2) x.1.1) buf)
    (zip (zip sends (map (fun l => Z.of_nat (length l)) sends))
       (prefix_from (Z.of_nat (length filled))
          (map (fun l => Z.of_nat (length l)) sends)))
    (filled ++ rest)
  = filled ++ concat sends.
Proof.
  revert filled rest. induction sends as [|s sends IH]; intros filled rest Hlen.
  - simpl in *. destruct rest; [reflexivity|discriminate].
  - cbn [map prefix_from zip zip_with fold_left fst snd concat] in *.
    rewrite length_app in Hlen.
    rewrite !Nat2Z.id. rewrite take_ge by lia.
    assert (Hins : list_inserts (length filled) s (filled ++ rest)
                   = (filled ++ s) ++ drop (length s) rest).
    { rewrite <- (take_drop (length s) rest) at 1.
      rewrite <- (Nat.add_0_r (length filled)).
      rewrite list_inserts_app_r.
      rewrite list_inserts_0_r by (rewrite length_take; lia).
      by rewrite app_assoc. }
    rewrite Hins.
    replace (Z.of_nat (length filled) + Z.of_nat (length s))
      with (Z.of_nat (length (filled ++ s)))
      by (rewrite length_app; lia).
    rewrite IH.
    + by rewrite <- app_assoc.
    + rewrite length_drop. lia.
Qed.

Lemma Zsum_lengths (offs : list (list Z)) :
  Zsum (map (fun l => Z.of_nat (length l)) offs)
  = Z.of_nat (length (concat offs)).
Proof.
  induction offs as [|l offs IH]; [reflexivity|].
  cbn [map concat]. rewrite length_app.
  change (Zsum (Z.of_nat (length l) :: map (fun l0 => Z.of_nat (length l0)) offs))
    with (Z.of_nat (length l) + Zsum (map (fun l0 => Z.of_nat (length l0)) offs)).
  rewrite IH. lia.
Qed.

Lemma prefix_from_bound b cs :
  0 <= b -> Forall (fun x => 0 <= x) cs -> b + Zsum cs < 2 ^ 31 ->
  Forall (fun x => - 2 ^ 31 <= x < 2 ^ 31) (prefix_from b cs).
Proof.
  intros Hb Hcs. revert b Hb.
  induction Hcs as [|c cs Hc Hcs IH]; intros b Hb Hlt; [constructor|].
  change (Zsum (c :: cs)) with (c + Zsum cs) in Hlt.
  pose proof (Zsum_nonneg cs Hcs) as Hs.
  cbn [prefix_from]. constructor; [lia|]. apply IH; lia.
Qed.

Lemma map_to_int_small l :
  Forall (fun x => - 2 ^ 31 <= x < 2 ^ 31) l -> map to_int l = l.
Proof.
  induction 1 as [|x l Hx Hl IH]; [reflexivity|].
  cbn [map]. by rewrite IH, to_int_small.
Qed.

Lemma counts_small cs :
  Forall (fun x => 0 <= x) cs -> Zsum cs < 2 ^ 31 ->
  Forall (fun x => - 2 ^ 31 <= x < 2 ^ 31) cs.
Proof.
  induction 1 as [|c cs Hc Hcs IH]; intros Hlt; [constructor|].
  change (Zsum (c :: cs)) with (c + Zsum cs) in Hlt.
  pose proof (Zsum_nonneg cs Hcs).
  constructor; [lia|]. apply IH. lia.
Qed.

Lemma gather_offsets_concat (offs : list (list Z)) :
  Z.of_nat (length (concat offs)) <= INT_MAX ->
  gather_offsets offs = (Z.of_nat (length (concat offs)), concat offs).
Proof.
  unfold INT_MAX. intros Hlen. unfold gather_offsets.
  set (counts := map (fun l => Z.of_nat (length l)) offs).
  assert (Hnn : Forall (fun x => 0 <= x) counts).
  { subst counts. clear. induction offs; constructor; [lia|assumption]. }
  assert (Hsum : Zsum counts = Z.of_nat (length (concat offs)))
    by apply Zsum_lengths.
  rewrite MPI_Allreduce_sum_exact by (assumption || lia).
  rewrite Hsum. f_equal.
  pose proof (scan_disps [] counts (Forall_nil_2 _) Hnn) as Hd.
  cbn [app length Nat.add] in Hd. rewrite Hd by (unfold Zsum at 1; simpl; lia).
  change (Zsum []) with 0.
  assert (Hsmall : Forall (fun x => - 2 ^ 31 <= x < 2 ^ 31) counts).
  { apply counts_small; [assumption|lia]. }
  rewrite (map_to_int_small counts) by exact Hsmall.
  rewrite map_to_int_small by (apply prefix_from_bound; [lia|assumption|lia]).
  unfold MPI_Gatherv.
  pose proof (gatherv_blocks offs [] (zeros (length (concat offs)))) as Hg.
  cbn [app length] in Hg. rewrite Nat2Z.id. apply Hg.
  apply length_replicate.
Qed.

Lemma write_at_empty buf : write_at buf 0 [] = buf.
Proof.
  unfold write_at. cbn [app take Nat.add Nat.sub length].
  rewrite Nat.sub_0_r. rewrite drop_ge by (unfold zeros; by rewrite length_replicate).
  by rewrite app_nil_r.
Qed.

Lemma write_index_file_rank0 (fs : filesystem) name mode l :
  index_creatable fs name mode ->
  Z.of_nat (length l) <= INT_MAX ->
  write_index_file 0 fs name (Z.of_nat (length l)) l
  = (<[name := Reg mode (flat_map mfu_pack_uint64 l)]> fs, true).
Proof.
  unfold INT_MAX. intros Hc Hlen. unfold write_index_file.
  change (0 =? 0)%nat with true. cbv beta iota.
  rewrite Nat2Z.id, take_ge by lia.
  assert (Hopen : mfu_open_creat fs name true 432
                  = (<[name := Reg mode []]> fs,
                     Some {| of_path := name; of_pos := 0 |})).
  { unfold mfu_open_creat.
    destruct Hc as [[Hn ->] | (d & Hd & Hw)]; [by rewrite Hn|].
    by rewrite Hd, Hw. }
  rewrite Hopen. unfold mfu_write, mfu_pwrite. cbn [of_path of_pos].
  rewrite lookup_insert_eq. change (0 <? 0) with false. cbv beta iota.
  change (Z.to_nat 0) with 0%nat. rewrite write_at_empty.
  rewrite insert_insert_eq.
  rewrite flat_map_pack_length.
  destruct (Z.ltb_spec (Z.of_nat (8 * length l)) 0); [lia|].
  rewrite wrap64_small, to_off_t_small by lia.
  f_equal. apply Z.eqb_eq. lia.
Qed.

Lemma write_index_ranks_others ranks (fs : filesystem) name total all_offsets :
  Forall (fun r => r <> 0%nat) ranks ->
  write_index_ranks ranks fs name total all_offsets
  = (fs, replicate (length ranks) true).
Proof.
  induction 1 as [|r ranks Hr Hrs IH]; [reflexivity|].
  cbn [write_index_ranks]. unfold write_index_file at 1.
  apply Nat.eqb_neq in Hr. rewrite Hr. by rewrite IH.
Qed.

Lemma mfu_alltrue_replicate n : mfu_alltrue (replicate n true) = true.
Proof. induction n; [reflexivity|exact IHn]. Qed.

Lemma write_entry_index_result (fs : filesystem) file offs mode :
  offs <> [] ->
  Z.of_nat (length (concat offs)) <= INT_MAX ->
  index_creatable fs (index_name file) mode ->
  write_entry_index fs file offs
  = (<[index_name file := Reg mode (flat_map mfu_pack_uint64 (concat offs))]> fs,
     MFU_SUCCESS).
Proof.
  intros Hne Hlen Hc. unfold write_entry_index.
  rewrite gather_offsets_concat by exact Hlen.
  destruct offs as [|o offs]; [done|].
  cbn [length seq write_index_ranks].
  rewrite (write_index_file_rank0 fs (index_name file) mode) by assumption.
  rewrite write_index_ranks_others.
  - change (mfu_alltrue (true :: replicate (length (seq 1 (length offs))) true))
      with (mfu_alltrue (replicate (length (seq 1 (length offs))) true)).
    by rewrite mfu_alltrue_replicate.
  - apply Forall_forall. intros r Hr. apply list_elem_of_In, in_seq in Hr. lia.
Qed.

(** C7: the index file written for the offsets held by the ranks is
    [<archive>.idx]; it holds, in rank order and hence in entry order,
    the 8-byte big-endian encoding of every entry's offset and nothing
    else, so its length is 8 * total_entries; it is created with mode
    0660 when it did not exist, only rank 0 writes it, and no other file
    changes. *)
Theorem C7_index_file_contents (fs : filesystem) file offs mode :
  offs <> [] ->
  Z.of_nat (length (concat offs)) <= INT_MAX ->
  index_creatable fs (index_name file) mode ->
  let total_entries := length (concat offs) in
  let fs' := (write_entry_index fs file offs).1 in
  (write_entry_index fs file offs).2 = MFU_SUCCESS
  /\ index_name file = String.append file ".idx"
  /\ fs' !! index_name file
     = Some (Reg mode (flat_map mfu_pack_uint64 (concat offs)))
  /\ length (flat_map mfu_pack_uint64 (concat offs)) = (8 * total_entries)%nat
  /\ (forall i v, concat offs !! i = Some v ->
        take 8 (drop (8 * i) (flat_map mfu_pack_uint64 (concat offs)))
        = mfu_pack_uint64 v)
  /\ (fs !! index_name file = None -> mode = 432)
  /\ (forall p, p <> index_name file -> fs' !! p = fs !! p)
  /\ (forall r total all_offsets, r <> 0%nat ->
        write_index_file r fs (index_name file) total all_offsets = (fs, true)).
Proof.
  intros Hne Hlen Hc total_entries fs'. subst fs'.
  rewrite (write_entry_index_result fs file offs mode) by assumption.
  cbn [fst snd]. split; [reflexivity|]. split; [reflexivity|].
  split; [apply lookup_insert_eq|]. split; [apply flat_map_pack_length|].
  split; [|split; [|split]].
  - generalize (concat offs). intros l i. revert l.
    induction i as [|i IH]; intros [|x l] v Hv; try discriminate.
    + injection Hv as ->. reflexivity.
    + change (flat_map mfu_pack_uint64 (x :: l))
        with (mfu_pack_uint64 x ++ flat_map mfu_pack_uint64 l).
      replace (8 * S i)%nat with (length (mfu_pack_uint64 x) + 8 * i)%nat
        by (rewrite mfu_pack_uint64_length; lia).
      rewrite drop_app_add. apply IH. exact Hv.
  - intros Hn. destruct Hc as [[_ ->] | (d & Hd & _)]; [reflexivity|congruence].
  - intros p Hp. by rewrite lookup_insert_ne.
  - intros r total all_offsets Hr. unfold write_index_file.
    apply Nat.eqb_neq in Hr. by rewrite Hr.
Qed.

(** C8: writing the index with [write_entry_index] and reading it back
    with [read_entry_index] gives the number of entries and the offsets
    that were written. *)
Theorem C8_index_roundtrip (fs : filesystem) file offs mode :
  offs <> [] ->
  Z.of_nat (length (concat offs)) <= INT_MAX ->
  Forall (fun v => 0 <= v < 2 ^ 64) (concat offs) ->
  index_creatable fs (index_name file) mode ->
  may_read mode = true ->
  read_entry_index (write_entry_index fs file offs).1 file
  = Some (Z.of_nat (length (concat offs)), concat offs).
Proof.
  unfold INT_MAX. intros Hne Hlen Hrange Hc Hr.
  rewrite (write_entry_index_result fs file offs mode) by assumption.
  cbn [fst]. unfold read_entry_index, mfu_stat, mfu_open_rdonly, mfu_read.
  cbn [of_path of_pos]. rewrite !lookup_insert_eq, Hr.
  rewrite flat_map_pack_length.
  replace (Z.of_nat (8 * length (concat offs)) / 8)
    with (Z.of_nat (length (concat offs))) by dlia.
  rewrite wrap64_small by lia.
  cbn [of_path of_pos]. rewrite lookup_insert_eq.
  change (Z.to_nat 0) with 0%nat. rewrite drop_0.
  assert (Hl8 := flat_map_pack_length (concat offs)).
  rewrite take_ge by lia.
  rewrite flat_map_pack_length.
  replace (Z.of_nat (8 * length (concat offs)) =? Z.of_nat (length (concat offs)) * 8)
    with true by (symmetry; apply Z.eqb_eq; lia).
  rewrite Nat2Z.id. by rewrite unpack_loop_pack.
Qed.

Lemma C7_index_file_contents_witness :
  (write_entry_index ∅ "out.tar" [[0; 1024]; [1536]]).1 !! "out.tar.idx"
  = Some (Reg 432 [0; 0; 0; 0; 0; 0; 0; 0;  0; 0; 0; 0; 0; 0; 4; 0;
                   0; 0; 0; 0; 0; 0; 6; 0]).
Proof.
  refine (proj1 (proj2 (proj2
            (C7_index_file_contents ∅ "out.tar" [[0; 1024]; [1536]] 432 _ _ _)))).
  - discriminate.
  - vm_compute. discriminate.
  - left. split; reflexivity.
Defined.

Lemma C8_index_roundtrip_witness :
  read_entry_index (write_entry_index ∅ "out.tar" [[0; 1024]; [1536]]).1
    "out.tar"
  = Some (3, [0; 1024; 1536]).
Proof.
  refine (C8_index_roundtrip ∅ "out.tar" [[0; 1024]; [1536]] 432 _ _ _ _ _).
  - discriminate.
  - vm_compute. discriminate.
  - repeat constructor; lia.
  - left. split; reflexivity.
  - reflexivity.
Defined.

(** ** Extraction without an index file *)

(** C9: when [<archive>.idx] does not exist, [read_entry_index] returns
    failure (it returns; nothing exits or aborts) and the extract path
    calls [index_entries] next.  When the scan recovers the offsets, they
    are the ones extraction uses, the return code is the one the same
    extraction gives when an index file holding those offsets is present,
    and it is success when the later phases succeed.  When the scan fails
    too, extraction goes on without offsets through [extract_flist] and
    [extract_files]. *)
Theorem C9_missing_index_falls_back env (fs : filesystem) filename ranks
    mfu_rank opts :
  fs !! index_name filename = None ->
  read_entry_index fs filename = None
  /\ (forall offs,
        index_entries (env_scan_reader env) = Some offs ->
        exists res,
          mfu_flist_archive_extract env fs filename ranks mfu_rank opts
          = Returned res
          /\ x_have_index res = false /\ x_have_offsets res = true
          /\ x_entries res = Z.of_nat (length offs) /\ x_offsets res = offs
          /\ take 2 (x_trace res) = [P_read_entry_index; P_index_entries]
          /\ (later_phases_succeed env opts -> x_rc res = MFU_SUCCESS)
          /\ (forall fs' : filesystem,
                read_entry_index fs' filename
                = Some (Z.of_nat (length offs), offs) ->
                exists res',
                  mfu_flist_archive_extract env fs' filename ranks mfu_rank opts
                  = Returned res'
                  /\ x_have_index res' = true
                  /\ x_offsets res' = offs /\ x_rc res' = x_rc res))
  /\ (index_entries (env_scan_reader env) = None ->
      forall flist,
        extract_flist (env_reader env) (Z.of_nat ranks) mfu_rank (env_peers env)
        = Returned (MFU_SUCCESS, flist) ->
        exists res,
          mfu_flist_archive_extract env fs filename ranks mfu_rank opts
          = Returned res
          /\ x_have_index res = false /\ x_have_offsets res = false
          /\ x_trace res
             = [P_read_entry_index; P_index_entries; P_extract_flist;
                P_mkdir; P_extract_files; P_metadata_apply_dirs]
          /\ x_rc res = env_extract_files env).
Proof.
  intros Hfs. pose proof (read_entry_index_absent fs filename Hfs) as Hread.
  split; [exact Hread|]. split.
  - intros offs Hscan. unfold mfu_flist_archive_extract at 1.
    rewrite Hread, Hscan. cbv beta iota zeta.
    unfold later_phases_succeed.
    destruct (env_extract_flist_offsets env) eqn:Hfo;
      destruct (extract_libarchive opts) eqn:Hlib;
      cbv beta iota zeta; cbn [andb negb orb];
      (eexists; split; [reflexivity|]);
      cbn [x_have_index x_have_offsets x_entries x_offsets x_trace x_rc];
      repeat (split; [reflexivity|]);
      (split; [|intros fs' Hread'; unfold mfu_flist_archive_extract;
                rewrite Hread'; cbv beta iota zeta; rewrite Hfo, ?Hlib;
                cbv beta iota zeta; cbn [andb negb orb];
                eexists; split; [reflexivity|]; repeat split]).
    + intros [_ ->]. reflexivity.
    + intros [_ [-> ->]]. reflexivity.
    + intros [Hl _]. discriminate.
    + intros [Hl _]. discriminate.
  - intros Hscan flist Hflist. unfold mfu_flist_archive_extract.
    rewrite Hread, Hscan. cbv beta iota zeta. rewrite Hflist.
    cbv beta iota zeta. cbn [andb negb orb].
    eexists. split; [reflexivity|].
    cbn [x_have_index x_have_offsets x_trace x_rc].
    repeat (split; [reflexivity|]).
    destruct (env_extract_files env); reflexivity.
Qed.

Lemma C9_missing_index_falls_back_witness :
  read_entry_index ∅ "out.tar" = None
  /\ exists res,
      mfu_flist_archive_extract (sample_env tiny_reader tiny_reader) ∅
        "out.tar" 4 0 sample_opts = Returned res
      /\ x_offsets res = [0; 1024] /\ x_rc res = MFU_SUCCESS.
Proof.
  destruct (C9_missing_index_falls_back (sample_env tiny_reader tiny_reader)
              ∅ "out.tar"
              4 0 sample_opts) as (Hread & Hscan & _); [reflexivity|].
  split; [exact Hread|].
  destruct (Hscan [0; 1024] eq_refl)
    as (res & Hres & _ & _ & _ & Hoffs & _ & Hrc & _).
  exists res. split; [exact Hres|]. split; [exact Hoffs|].
  apply Hrc. repeat split.
Defined.

(** Extraction of the two-entry archive by four ranks without an index
    file succeeds and leaves the index behind for the next run. *)
Example extract_without_index :
  match mfu_flist_archive_extract (sample_env tiny_reader tiny_reader) ∅
          "out.tar" 4 0 sample_opts with
  | Returned res =>
      x_rc res = MFU_SUCCESS
      /\ read_entry_index (x_fs res) "out.tar" = Some (2, [0; 1024])
  | Exited _ => False
  end.
Proof. vm_compute. split; reflexivity. Qed.

(** A compressed archive: the tar-only scan of [index_entries] fails on
    its first header, the filtered reader of [extract_flist] reads both
    entries; extraction goes the scan path and succeeds, without offsets
    and without writing an index. *)
Example extract_compressed_archive :
  match mfu_flist_archive_extract (sample_env bad_reader tiny_reader) ∅
          "out.tar.gz" 4 0 sample_opts with
  | Returned res =>
      x_rc res = MFU_SUCCESS /\ x_have_offsets res = false
      /\ read_entry_index (x_fs res) "out.tar.gz" = None
  | Exited _ => False
  end.
Proof. vm_compute. repeat split. Qed.

(** ** The scenarios of the spec on the single-rank libcircle path *)

(** One file of 13 bytes: the archive has header, one padded block and the
    two zero blocks; the index holds the offset 0. *)
Example create_one_file :
  match create_libcircle_single (H := sample_codec) 4096 384 tiny_fs
          [sample_item "a" MFU_TYPE_FILE 13] "out.tar" "/" sample_opts with
  | Some (fs, rc) =>
      rc = MFU_SUCCESS
      /\ (exists d, fs !! "out.tar" = Some (Reg 436 d)
                    /\ length d = 2048%nat
                    /\ take 13 (drop 512 d)
                       = [104; 101; 108; 108; 111; 32; 119; 111; 114; 108;
                          100; 33; 10]
                    /\ drop 1024 d = zeros 1024)
      /\ read_entry_index fs "out.tar" = Some (1, [0])
  | None => False
  end.
Proof.
  vm_compute. split; [reflexivity|]. split; [|reflexivity].
  eexists. repeat split.
Qed.

(** Scenario 1, "a" and the empty "b": the bytes and the index are the
    expected ones (size hdr(a) + 512 + hdr(b) + 0 + 1024, offsets 0 and
    hdr(a) + 512), but the work item of "b" has set [DTAR_err] and the
    create returns failure. *)
Example create_tiny_archive :
  match create_libcircle_single (H := sample_codec) 4096 384 tiny_fs
          tiny_list "out.tar" "/" sample_opts with
  | Some (fs, rc) =>
      rc = MFU_FAILURE
      /\ (exists d, fs !! "out.tar" = Some (Reg 436 d)
                    /\ length d = 2560%nat
                    /\ drop 1536 d = zeros 1024)
      /\ read_entry_index fs "out.tar" = Some (2, [0; 1024])
  | None => False
  end.
Proof.
  vm_compute. split; [reflexivity|]. split; [|reflexivity].
  eexists. repeat split.
Qed.

(** ** Positional writes *)

Lemma length_zeros n : length (zeros n) = n.
Proof. apply length_replicate. Qed.

Lemma write_at_length buf pos data :
  length (write_at buf pos data) = (length data `max` (pos + length buf))%nat.
Proof.
  unfold write_at. rewrite !length_app, length_take, length_drop, !length_app,
    length_zeros. lia.
Qed.

Lemma write_at_lookup buf pos data i :
  write_at buf pos data !! i
  = if decide (i < pos)%nat then Some (default 0 (data !! i))
    else if decide (i < pos + length buf)%nat then buf !! (i - pos)%nat
    else data !! i.
Proof.
  unfold write_at.
  set (base := data ++ zeros (pos + length buf - length data)).
  assert (Hbase : length base = (length data `max` (pos + length buf))%nat).
  { subst base. rewrite length_app, length_zeros. lia. }
  assert (Hb : forall j, base !! j
                = if decide (j < length data)%nat then data !! j
                  else if decide (j < pos + length buf)%nat then Some 0
                  else None).
  { intros j. subst base. destruct (decide (j < length data)%nat).
    - by rewrite lookup_app_l.
    - rewrite lookup_app_r by lia. destruct (decide (j < pos + length buf)%nat).
      + apply lookup_replicate_2. lia.
      + apply lookup_replicate_None. lia. }
  destruct (decide (i < pos)%nat) as [Hi|Hi].
  - rewrite lookup_app_l by (rewrite length_take; lia).
    rewrite lookup_take_lt by lia. rewrite Hb.
    destruct (decide (i < length data)%nat) as [Hd|Hd].
    + destruct (lookup_lt_is_Some_2 data i Hd) as [x Hx]. by rewrite Hx.
    + rewrite decide_True by lia.
      by rewrite (lookup_ge_None_2 data i) by lia.
  - rewrite lookup_app_r by (rewrite length_take; lia).
    rewrite length_take, Hbase.
    replace (i - pos `min` (length data `max` (pos + length buf)))%nat
      with (i - pos)%nat by lia.
    destruct (decide (i < pos + length buf)%nat) as [Hj|Hj].
    + by rewrite lookup_app_l by lia.
    + rewrite lookup_app_r by lia. rewrite lookup_drop.
      replace (pos + length buf + (i - pos - length buf))%nat with i by lia.
      rewrite Hb. rewrite (decide_False (P := (i < pos + length buf)%nat)) by lia.
      destruct (decide (i < length data)%nat) as [Hd|Hd]; [reflexivity|].
      symmetry. apply lookup_ge_None_2. lia.
Qed.

Lemma write_at_write_at b1 b2 pos data :
  write_at b2 (pos + length b1) (write_at b1 pos data)
  = write_at (b1 ++ b2) pos data.
Proof.
  apply list_eq. intros i. rewrite !write_at_lookup, length_app.
  destruct (decide (i < pos)%nat) as [H1|H1].
  - by rewrite decide_True by lia.
  - destruct (decide (i < pos + length b1)%nat) as [H2|H2].
    + rewrite decide_True. 2:{ lia. } rewrite lookup_app_l by lia.
      destruct (lookup_lt_is_Some_2 b1 (i - pos)%nat) as [x Hx]; [lia|].
      by rewrite Hx.
    + destruct (decide (i < pos + length b1 + length b2)%nat) as [H3|H3].
      * rewrite decide_True by lia. rewrite lookup_app_r by lia.
        f_equal. lia.
      * by rewrite decide_False by lia.
Qed.

Lemma write_at_read buf pos data :
  take (length buf) (drop pos (write_at buf pos data)) = buf.
Proof.
  apply list_eq. intros i. rewrite lookup_take, lookup_drop, write_at_lookup.
  destruct (decide (i < length buf)%nat) as [Hi|Hi].
  - rewrite decide_False by lia. rewrite decide_True by lia. f_equal. lia.
  - symmetry. apply lookup_ge_None_2. lia.
Qed.

Lemma write_at_after buf pos data :
  drop (pos + length buf) (write_at buf pos data)
  = drop (pos + length buf) data.
Proof.
  apply list_eq. intros i. rewrite !lookup_drop, write_at_lookup.
  rewrite decide_False by lia. by rewrite decide_False by lia.
Qed.

Lemma write_at_before buf pos data :
  (pos <= length data)%nat ->
  take pos (write_at buf pos data) = take pos data.
Proof.
  intros Hp. apply list_eq. intros i. rewrite !lookup_take, write_at_lookup.
  destruct (decide (i < pos)%nat) as [Hi|Hi]; [|reflexivity].
  destruct (lookup_lt_is_Some_2 data i) as [x Hx]; [lia|]. by rewrite Hx.
Qed.

(** ** The static chunk engine *)

Lemma wrap64_add_l a b : wrap64 (wrap64 a + b) = wrap64 (a + b).
Proof. unfold wrap64. by rewrite Zplus_mod_idemp_l. Qed.

Lemma length_take_drop {A} (l : list A) n k :
  (k + n <= length l)%nat -> length (take n (drop k l)) = n.
Proof. intros H. rewrite length_take, length_drop. lia. Qed.

Section ChunkCreate.
Variables (sname aname : string) (ms ma : Z) (src : list Z).
Variables (p : mfu_file_chunk) (D bufsize ipos apos : Z) (err : bool).
Hypothesis names_differ : sname <> aname.
Hypothesis bufsize_pos : 0 < bufsize.
Hypothesis offset_nonneg : 0 <= chunk_offset p.
Hypothesis data_offset_nonneg : 0 <= D.
Hypothesis in_off_t : D + chunk_offset p + chunk_length p < 2 ^ 63.

Let in_fd : fd_t := Some {| of_path := sname; of_pos := ipos |}.
Let fd : fd_t := Some {| of_path := aname; of_pos := apos |}.

Lemma create_chunk_copy_run fuel : forall bc (fs : filesystem) cur reduce,
  chunk_offset p + chunk_length p <= Z.of_nat (length src) ->
  fs !! sname = Some (Reg ms src) -> fs !! aname = Some (Reg ma cur) ->
  0 <= bc < chunk_length p ->
  (Z.to_nat (chunk_length p - bc) < fuel)%nat ->
  create_chunk_copy fuel fs in_fd fd bufsize p D bc err reduce
  = Some (<[aname :=
             Reg ma (write_at
                       (take (Z.to_nat (chunk_length p - bc))
                          (drop (Z.to_nat (chunk_offset p + bc)) src))
                       (Z.to_nat (D + chunk_offset p + bc)) cur)]> fs,
          err, wrap64 (reduce + (chunk_length p - bc))).
Proof.
  induction fuel as [|f IH]; intros bc fs cur reduce Hsrc Hs Ha Hbc Hfuel; [lia|].
  cbn [create_chunk_copy].
  destruct (Z.ltb_spec bc (chunk_length p)) as [_|]; [|lia].
  rewrite (wrap64_small (chunk_length p - bc)) by lia.
  set (n := if chunk_length p - bc <? bufsize then chunk_length p - bc
            else bufsize).
  assert (Hn : 1 <= n <= chunk_length p - bc).
  { subst n. destruct (Z.ltb_spec (chunk_length p - bc) bufsize); lia. }
  rewrite (to_off_t_small (chunk_offset p)), (to_off_t_small bc) by lia.
  rewrite (to_off_t_small (chunk_offset p + bc)), (to_off_t_small D) by lia.
  rewrite (to_off_t_small (D + (chunk_offset p + bc))) by lia.
  unfold mfu_pread, mfu_pwrite, in_fd, fd. cbn [of_path]. rewrite Hs, Ha.
  destruct (Z.ltb_spec (chunk_offset p + bc) 0) as [|_]; [lia|].
  destruct (Z.ltb_spec (D + (chunk_offset p + bc)) 0) as [|_]; [lia|].
  set (got := take (Z.to_nat n) (drop (Z.to_nat (chunk_offset p + bc)) src)).
  assert (Hgot : length got = Z.to_nat n).
  { subst got. apply length_take_drop. lia. }
  rewrite Hgot.
  destruct (Z.ltb_spec (Z.of_nat (Z.to_nat n)) 0) as [|_]; [lia|].
  rewrite Z2Nat.id by lia. rewrite (wrap64_small (bc + n)) by lia.
  destruct (Z.eq_dec (bc + n) (chunk_length p)) as [Hend|Hmore].
  - destruct f as [|f]; [lia|]. cbn [create_chunk_copy].
    destruct (Z.ltb_spec (bc + n) (chunk_length p)) as [|_]; [lia|].
    replace (chunk_length p - bc) with n by lia.
    replace (D + chunk_offset p + bc) with (D + (chunk_offset p + bc)) by lia.
    reflexivity.
  - fold in_fd fd. rewrite (IH (bc + n) _
      (write_at got (Z.to_nat (D + (chunk_offset p + bc))) cur)).
    + rewrite insert_insert_eq. rewrite wrap64_add_l. do 3 f_equal.
      * f_equal.
        replace (Z.to_nat (D + chunk_offset p + (bc + n)))
          with (Z.to_nat (D + (chunk_offset p + bc)) + length got)%nat by lia.
        rewrite write_at_write_at.
        replace (D + chunk_offset p + bc) with (D + (chunk_offset p + bc)) by lia.
        f_equal. subst got.
        replace (Z.to_nat (chunk_offset p + (bc + n)))
          with (Z.to_nat (chunk_offset p + bc) + Z.to_nat n)%nat by lia.
        rewrite <- drop_drop, take_take_drop. do 2 f_equal. lia.
      * lia.
    + exact Hsrc.
    + by rewrite lookup_insert_ne.
    + apply lookup_insert_eq.
    + lia.
    + lia.
Qed.

End ChunkCreate.

Section ChunkExtract.
Variables (aname oname : string) (ma mo : Z) (arch : list Z).
Variables (p : mfu_file_chunk) (D bufsize apos opos : Z) (err : bool)
          (rc : mfu_rc).
Hypothesis names_differ : aname <> oname.
Hypothesis offset_nonneg : 0 <= chunk_offset p.
Hypothesis data_offset_nonneg : 0 <= D.
Hypothesis in_off_t : D + chunk_offset p + chunk_length p < 2 ^ 63.

Let fd : fd_t := Some {| of_path := aname; of_pos := apos |}.
Let out_fd : fd_t := Some {| of_path := oname; of_pos := opos |}.

Lemma extract_chunk_copy_run fuel : forall bc (fs : filesystem) cur reduce,
  0 < bufsize ->
  D + chunk_offset p + chunk_length p <= Z.of_nat (length arch) ->
  fs !! aname = Some (Reg ma arch) -> fs !! oname = Some (Reg mo cur) ->
  0 <= bc < chunk_length p ->
  (Z.to_nat (chunk_length p - bc) < fuel)%nat ->
  extract_chunk_copy fuel fs fd out_fd bufsize p D bc err rc reduce
  = Some (<[oname :=
             Reg mo (write_at
                       (take (Z.to_nat (chunk_length p - bc))
                          (drop (Z.to_nat (D + chunk_offset p + bc)) arch))
                       (Z.to_nat (chunk_offset p + bc)) cur)]> fs,
          err, rc, wrap64 (reduce + (chunk_length p - bc))).
Proof.
  induction fuel as [|f IH]; intros bc fs cur reduce Hbuf Harch Ha Ho Hbc Hfuel;
    [lia|].
  cbn [extract_chunk_copy].
  destruct (Z.ltb_spec bc (chunk_length p)) as [_|]; [|lia].
  rewrite (wrap64_small (chunk_length p - bc)) by lia.
  set (n := if chunk_length p - bc <? bufsize then chunk_length p - bc
            else bufsize).
  assert (Hn : 1 <= n <= chunk_length p - bc).
  { subst n. destruct (Z.ltb_spec (chunk_length p - bc) bufsize); lia. }
  rewrite (to_off_t_small (chunk_offset p)), (to_off_t_small bc) by lia.
  rewrite (to_off_t_small D), (to_off_t_small (chunk_offset p + bc)) by lia.
  rewrite (to_off_t_small (D + chunk_offset p)) by lia.
  rewrite (to_off_t_small (D + chunk_offset p + bc)) by lia.
  unfold mfu_pread, mfu_pwrite, fd, out_fd. cbn [of_path]. rewrite Ha, Ho.
  destruct (Z.ltb_spec (D + chunk_offset p + bc) 0) as [|_]; [lia|].
  destruct (Z.ltb_spec (chunk_offset p + bc) 0) as [|_]; [lia|].
  set (got := take (Z.to_nat n) (drop (Z.to_nat (D + chunk_offset p + bc)) arch)).
  assert (Hgot : length got = Z.to_nat n).
  { subst got. apply length_take_drop. lia. }
  rewrite Hgot.
  destruct (Z.eqb_spec (Z.of_nat (Z.to_nat n)) 0) as [|_]; [lia|].
  destruct (Z.ltb_spec (Z.of_nat (Z.to_nat n)) 0) as [|_]; [lia|].
  rewrite Z2Nat.id by lia. rewrite (wrap64_small (bc + n)) by lia.
  destruct (Z.eq_dec (bc + n) (chunk_length p)) as [Hend|Hmore].
  - destruct f as [|f]; [lia|]. cbn [extract_chunk_copy].
    destruct (Z.ltb_spec (bc + n) (chunk_length p)) as [|_]; [lia|].
    replace (chunk_length p - bc) with n by lia.
    reflexivity.
  - fold fd out_fd. rewrite (IH (bc + n) _
      (write_at got (Z.to_nat (chunk_offset p + bc)) cur)).
    + rewrite insert_insert_eq. rewrite wrap64_add_l. do 2 f_equal.
      * do 3 f_equal.
        replace (Z.to_nat (chunk_offset p + (bc + n)))
          with (Z.to_nat (chunk_offset p + bc) + length got)%nat by lia.
        rewrite write_at_write_at.
        f_equal. subst got.
        replace (Z.to_nat (D + chunk_offset p + (bc + n)))
          with (Z.to_nat (D + chunk_offset p + bc) + Z.to_nat n)%nat by lia.
        rewrite <- drop_drop, take_take_drop. do 2 f_equal. lia.
      * f_equal. lia.
    + exact Hbuf.
    + exact Harch.
    + by rewrite lookup_insert_ne.
    + apply lookup_insert_eq.
    + lia.
    + lia.
Qed.

Lemma extract_chunk_copy_short fuel : forall bc (fs : filesystem) cur reduce,
  Z.of_nat (length arch) < D + chunk_offset p + chunk_length p ->
  fs !! aname = Some (Reg ma arch) -> fs !! oname = Some (Reg mo cur) ->
  0 <= bc < chunk_length p ->
  (Z.to_nat (chunk_length p - bc) < fuel)%nat ->
  exists fs' reduce',
    extract_chunk_copy fuel fs fd out_fd bufsize p D bc err rc reduce
    = Some (fs', true, MFU_FAILURE, reduce')
    /\ forall path, path <> oname -> fs' !! path = fs !! path.
Proof.
  induction fuel as [|f IH]; intros bc fs cur reduce Harch Ha Ho Hbc Hfuel;
    [lia|].
  cbn [extract_chunk_copy].
  destruct (Z.ltb_spec bc (chunk_length p)) as [_|]; [|lia].
  rewrite (wrap64_small (chunk_length p - bc)) by lia.
  set (n := if chunk_length p - bc <? bufsize then chunk_length p - bc
            else bufsize).
  rewrite (to_off_t_small (chunk_offset p)), (to_off_t_small bc) by lia.
  rewrite (to_off_t_small D), (to_off_t_small (chunk_offset p + bc)) by lia.
  rewrite (to_off_t_small (D + chunk_offset p)) by lia.
  rewrite (to_off_t_small (D + chunk_offset p + bc)) by lia.
  unfold mfu_pread, mfu_pwrite, fd, out_fd. cbn [of_path]. rewrite Ha, Ho.
  destruct (Z.ltb_spec (D + chunk_offset p + bc) 0) as [|_]; [lia|].
  destruct (Z.ltb_spec (chunk_offset p + bc) 0) as [|_]; [lia|].
  set (got := take (Z.to_nat n) (drop (Z.to_nat (D + chunk_offset p + bc)) arch)).
  assert (Hgot : (length got <= length arch - Z.to_nat (D + chunk_offset p + bc))%nat).
  { subst got. rewrite length_take, length_drop. lia. }
  destruct (Z.eqb_spec (Z.of_nat (length got)) 0) as [Hz|Hnz].
  - exists fs, reduce. split; [reflexivity|]. intros; reflexivity.
  - destruct (Z.ltb_spec (Z.of_nat (length got)) 0) as [|_]; [lia|].
    rewrite (wrap64_small (bc + Z.of_nat (length got))) by lia.
    fold fd out_fd.
    destruct (IH (bc + Z.of_nat (length got))
                (<[oname := Reg mo (write_at got (Z.to_nat (chunk_offset p + bc)) cur)]> fs)
                (write_at got (Z.to_nat (chunk_offset p + bc)) cur)
                (wrap64 (reduce + Z.of_nat (length got))))
      as (fs' & reduce' & Hrun & Hframe).
    + exact Harch.
    + by rewrite lookup_insert_ne.
    + apply lookup_insert_eq.
    + lia.
    + lia.
    + exists fs', reduce'. split; [exact Hrun|].
      intros path Hp. rewrite Hframe by exact Hp. by rewrite lookup_insert_ne.
Qed.

End ChunkExtract.

Section ChunkCreateShort.
Variables (sname aname : string) (ms ma : Z) (src : list Z).
Variables (p : mfu_file_chunk) (D bufsize ipos apos : Z) (err : bool).
Hypothesis names_differ : sname <> aname.
Hypothesis offset_nonneg : 0 <= chunk_offset p.
Hypothesis data_offset_nonneg : 0 <= D.
Hypothesis in_off_t : D + chunk_offset p + chunk_length p < 2 ^ 63.
Hypothesis short : Z.of_nat (length src) < chunk_offset p + chunk_length p.

Lemma create_chunk_copy_short fuel : forall bc (fs : filesystem) cur reduce,
  fs !! sname = Some (Reg ms src) -> fs !! aname = Some (Reg ma cur) ->
  0 <= bc < chunk_length p ->
  chunk_offset p + bc <= Z.max (chunk_offset p) (Z.of_nat (length src)) ->
  create_chunk_copy fuel fs (Some {| of_path := sname; of_pos := ipos |})
    (Some {| of_path := aname; of_pos := apos |}) bufsize p D bc err reduce
  = None.
Proof.
  induction fuel as [|f IH]; intros bc fs cur reduce Hs Ha Hbc Hinv;
    [reflexivity|].
  cbn [create_chunk_copy].
  destruct (Z.ltb_spec bc (chunk_length p)) as [_|]; [|lia].
  rewrite (wrap64_small (chunk_length p - bc)) by lia.
  set (n := if chunk_length p - bc <? bufsize then chunk_length p - bc
            else bufsize).
  rewrite (to_off_t_small (chunk_offset p)), (to_off_t_small bc) by lia.
  rewrite (to_off_t_small (chunk_offset p + bc)), (to_off_t_small D) by lia.
  rewrite (to_off_t_small (D + (chunk_offset p + bc))) by lia.
  unfold mfu_pread, mfu_pwrite. cbn [of_path]. rewrite Hs, Ha.
  destruct (Z.ltb_spec (chunk_offset p + bc) 0) as [|_]; [lia|].
  destruct (Z.ltb_spec (D + (chunk_offset p + bc)) 0) as [|_]; [lia|].
  set (got := take (Z.to_nat n) (drop (Z.to_nat (chunk_offset p + bc)) src)).
  assert (Hgot : (length got <= length src - Z.to_nat (chunk_offset p + bc))%nat).
  { subst got. rewrite length_take, length_drop. lia. }
  destruct (Z.ltb_spec (Z.of_nat (length got)) 0) as [|_]; [lia|].
  rewrite (wrap64_small (bc + Z.of_nat (length got))) by lia.
  apply (IH _ _ (write_at got (Z.to_nat (D + (chunk_offset p + bc))) cur)).
  - by rewrite lookup_insert_ne.
  - apply lookup_insert_eq.
  - lia.
  - lia.
Qed.

End ChunkCreateShort.

Lemma chunk_data_offset_lookup rank_disps all_offsets p disp D :
  array_get rank_disps (to_int (rank_of_owner p)) = Some disp ->
  array_get all_offsets (wrap64 (disp + index_of_owner p)) = Some D ->
  chunk_data_offset rank_disps all_offsets p = Some D.
Proof. intros H1 H2. unfold chunk_data_offset. rewrite H1. exact H2. Qed.

Lemma create_chunk_loop_file (sname aname : string) ms ma src owner idx disp D
    bufsize apos rank_disps all_offsets err fuel :
  sname <> aname -> 0 < bufsize -> 0 <= D -> may_read ms = true ->
  array_get rank_disps (to_int owner) = Some disp ->
  array_get all_offsets (wrap64 (disp + idx)) = Some D ->
  forall lens o (fs : filesystem) cur reduce,
    lens <> [] -> Forall (fun l => 0 < l /\ (Z.to_nat l < fuel)%nat) lens ->
    0 <= o -> o + Zsum lens <= Z.of_nat (length src) ->
    D + o + Zsum lens < 2 ^ 63 ->
    fs !! sname = Some (Reg ms src) -> fs !! aname = Some (Reg ma cur) ->
    create_chunk_loop fuel fs (Some {| of_path := aname; of_pos := apos |})
      bufsize rank_disps all_offsets (file_chunks sname owner idx o lens)
      err reduce
    = Some (<[aname :=
               Reg ma (write_at (take (Z.to_nat (Zsum lens))
                                   (drop (Z.to_nat o) src))
                         (Z.to_nat (D + o)) cur)]> fs,
            err, wrap64 (reduce + Zsum lens)).
Proof.
  intros Hne Hbuf HD Hr Hdisp Hoff.
  induction lens as [|l lens IH]; intros o fs cur reduce Hnil Hall Ho Hsrc Hmax
    Hs Ha; [done|].
  apply Forall_cons in Hall as [[Hl Hfuel] Hall].
  change (Zsum (l :: lens)) with (l + Zsum lens) in *.
  assert (Hsum : 0 <= Zsum lens).
  { apply Zsum_nonneg. eapply Forall_impl; [exact Hall|]. simpl. lia. }
  cbn [file_chunks create_chunk_loop].
  set (p := {| chunk_name := sname; chunk_offset := o; chunk_length := l;
               rank_of_owner := owner; index_of_owner := idx |}).
  rewrite (chunk_data_offset_lookup rank_disps all_offsets p disp D)
    by assumption.
  cbn [mbind option_bind chunk_name p]. unfold mfu_open_rdonly.
  rewrite Hs, Hr.
  rewrite (create_chunk_copy_run sname aname ms ma src p D bufsize 0 apos err)
    with (cur := cur); cbn [chunk_offset chunk_length p]; try assumption; try lia.
  cbn [mbind option_bind fst snd]. rewrite !Z.sub_0_r, !Z.add_0_r.
  destruct lens as [|l2 lens].
  - cbn [file_chunks create_chunk_loop]. change (Zsum []) with 0.
    by rewrite !Z.add_0_r.
  - rewrite (IH (o + l) _ (write_at (take (Z.to_nat l) (drop (Z.to_nat o) src))
                             (Z.to_nat (D + o)) cur)).
    + rewrite insert_insert_eq, wrap64_add_l. do 2 f_equal.
      * do 3 f_equal.
        replace (Z.to_nat (D + (o + l)))
          with (Z.to_nat (D + o)
                + length (take (Z.to_nat l) (drop (Z.to_nat o) src)))%nat
          by (rewrite length_take_drop; lia).
        rewrite write_at_write_at. f_equal.
        replace (Z.to_nat (o + l)) with (Z.to_nat o + Z.to_nat l)%nat by lia.
        rewrite <- drop_drop, take_take_drop. f_equal. lia.
      * f_equal. lia.
    + done.
    + exact Hall.
    + lia.
    + lia.
    + lia.
    + by rewrite lookup_insert_ne.
    + apply lookup_insert_eq.
Qed.

Lemma extract_chunk_loop_file (aname oname : string) ma mo arch owner idx disp D
    bufsize apos rank_disps data_offsets err fuel :
  aname <> oname -> 0 < bufsize -> 0 <= D -> may_write mo = true ->
  array_get rank_disps (to_int owner) = Some disp ->
  array_get data_offsets (wrap64 (disp + idx)) = Some D ->
  forall lens o (fs : filesystem) cur reduce,
    lens <> [] -> Forall (fun l => 0 < l /\ (Z.to_nat l < fuel)%nat) lens ->
    0 <= o -> D + o + Zsum lens <= Z.of_nat (length arch) ->
    D + o + Zsum lens < 2 ^ 63 ->
    fs !! aname = Some (Reg ma arch) -> fs !! oname = Some (Reg mo cur) ->
    extract_chunk_loop fuel fs (Some {| of_path := aname; of_pos := apos |})
      bufsize rank_disps data_offsets (file_chunks oname owner idx o lens)
      err MFU_SUCCESS reduce
    = Some (<[oname :=
               Reg mo (write_at (take (Z.to_nat (Zsum lens))
                                   (drop (Z.to_nat (D + o)) arch))
                         (Z.to_nat o) cur)]> fs,
            err, MFU_SUCCESS, wrap64 (reduce + Zsum lens)).
Proof.
  intros Hne Hbuf HD Hw Hdisp Hoff.
  induction lens as [|l lens IH]; intros o fs cur reduce Hnil Hall Ho Harch Hmax
    Ha Hout; [done|].
  apply Forall_cons in Hall as [[Hl Hfuel] Hall].
  change (Zsum (l :: lens)) with (l + Zsum lens) in *.
  assert (Hsum : 0 <= Zsum lens).
  { apply Zsum_nonneg. eapply Forall_impl; [exact Hall|]. simpl. lia. }
  cbn [file_chunks extract_chunk_loop].
  set (p := {| chunk_name := oname; chunk_offset := o; chunk_length := l;
               rank_of_owner := owner; index_of_owner := idx |}).
  rewrite (chunk_data_offset_lookup rank_disps data_offsets p disp D)
    by assumption.
  cbn [mbind option_bind chunk_name p]. unfold mfu_open_wronly.
  rewrite Hout, Hw.
  rewrite (extract_chunk_copy_run aname oname ma mo arch p D bufsize apos 0 err
             MFU_SUCCESS)
    with (cur := cur); cbn [chunk_offset chunk_length p]; try assumption; try lia.
  cbn [mbind option_bind fst snd]. rewrite !Z.sub_0_r, !Z.add_0_r.
  destruct lens as [|l2 lens].
  - cbn [file_chunks extract_chunk_loop]. change (Zsum []) with 0.
    by rewrite !Z.add_0_r.
  - rewrite (IH (o + l) _ (write_at (take (Z.to_nat l)
                                       (drop (Z.to_nat (D + o)) arch))
                             (Z.to_nat o) cur)).
    + rewrite insert_insert_eq, wrap64_add_l. do 2 f_equal.
      * do 4 f_equal.
        replace (Z.to_nat (o + l))
          with (Z.to_nat o
                + length (take (Z.to_nat l) (drop (Z.to_nat (D + o)) arch)))%nat
          by (rewrite length_take_drop; lia).
        rewrite write_at_write_at. f_equal.
        replace (Z.to_nat (D + (o + l)))
          with (Z.to_nat (D + o) + Z.to_nat l)%nat by lia.
        rewrite <- drop_drop, take_take_drop. f_equal. lia.
      * f_equal. lia.
    + done.
    + exact Hall.
    + lia.
    + lia.
    + lia.
    + by rewrite lookup_insert_ne.
    + apply lookup_insert_eq.
Qed.

(** ** The dynamic copy engine *)

Section CopyLoop.
Variables (sname aname : string) (ms ma : Z) (src : list Z).
Variables (bufsize C : Z).
Hypothesis names_differ : sname <> aname.
Hypothesis bufsize_pos : 0 < bufsize.
Hypothesis chunk_pos : 0 < C < 2 ^ 63.

Lemma copy_loop_done fuel (fs : filesystem) ipos opos t :
  fs !! sname = Some (Reg ms src) ->
  0 <= ipos -> t = C \/ Z.of_nat (length src) <= ipos ->
  copy_loop fuel fs (Some {| of_path := sname; of_pos := ipos |})
    (Some {| of_path := aname; of_pos := opos |}) bufsize C t false
  = (fs, Some {| of_path := sname; of_pos := ipos |},
     Some {| of_path := aname; of_pos := opos |}, t, false).
Proof.
  intros Hs Hi Hdone. destruct fuel as [|f]; [reflexivity|].
  cbn [copy_loop]. destruct (Z.ltb_spec t C) as [Hlt|Hge]; [|reflexivity].
  cbn [andb negb]. destruct Hdone as [->|Hend]; [lia|].
  unfold mfu_read. cbn [of_path of_pos]. rewrite Hs.
  rewrite drop_ge by lia. rewrite take_nil. cbn [length].
  change (Z.of_nat 0 =? 0) with true. cbv beta iota.
  change (Z.of_nat 0) with 0. by rewrite Z.add_0_r.
Qed.

Lemma copy_loop_run fuel : forall t (fs : filesystem) cur ipos opos,
  fs !! sname = Some (Reg ms src) -> fs !! aname = Some (Reg ma cur) ->
  0 <= t -> 0 <= ipos -> 0 <= opos ->
  let n := Z.min (C - t) (Z.of_nat (length src) - ipos) in
  0 < n -> (Z.to_nat n <= fuel)%nat ->
  copy_loop fuel fs (Some {| of_path := sname; of_pos := ipos |})
    (Some {| of_path := aname; of_pos := opos |}) bufsize C t false
  = (<[aname := Reg ma (write_at (take (Z.to_nat n) (drop (Z.to_nat ipos) src))
                          (Z.to_nat opos) cur)]> fs,
     Some {| of_path := sname; of_pos := ipos + n |},
     Some {| of_path := aname; of_pos := opos + n |}, t + n, false).
Proof.
  induction fuel as [|f IH]; intros t fs cur ipos opos Hs Ha Ht Hi Ho n Hn
    Hfuel; [lia|].
  cbn [copy_loop]. destruct (Z.ltb_spec t C) as [_|]; [|lia].
  cbn [andb negb]. rewrite (wrap64_small (C - t)) by lia.
  set (m := if C - t <? bufsize then C - t else bufsize).
  assert (Hm : 1 <= m <= C - t).
  { subst m. destruct (Z.ltb_spec (C - t) bufsize); lia. }
  unfold mfu_read. cbn [of_path of_pos]. rewrite Hs.
  set (got := take (Z.to_nat m) (drop (Z.to_nat ipos) src)).
  assert (Hgot : Z.of_nat (length got) = Z.min m (Z.of_nat (length src) - ipos)).
  { subst got. rewrite length_take, length_drop. lia. }
  destruct (Z.eqb_spec (Z.of_nat (length got)) 0) as [|_]; [lia|].
  unfold mfu_write, mfu_pwrite. cbn [of_path of_pos]. rewrite Ha.
  destruct (Z.ltb_spec opos 0) as [|_]; [lia|].
  destruct (Z.ltb_spec (Z.of_nat (length got)) 0) as [|_]; [lia|].
  rewrite Z.eqb_refl. rewrite (wrap64_small (t + Z.of_nat (length got))) by lia.
  set (g := Z.of_nat (length got)) in *.
  destruct (Z.eq_dec g n) as [Hend|Hmore].
  - rewrite copy_loop_done.
    + rewrite Hend.
      assert (Htk : got = take (Z.to_nat n) (drop (Z.to_nat ipos) src)).
      { subst got. assert (Hl := length_drop src (Z.to_nat ipos)).
        destruct (decide (Z.to_nat m <= length (drop (Z.to_nat ipos) src))%nat).
        - f_equal. subst n. lia.
        - rewrite !take_ge by (subst n; lia). reflexivity. }
      by rewrite Htk.
    + by rewrite lookup_insert_ne.
    + lia.
    + subst n. lia.
  - assert (Hg : g = m) by lia.
    rewrite (IH (t + g) _ (write_at got (Z.to_nat opos) cur)).
    + rewrite insert_insert_eq.
      replace (Z.min (C - (t + g)) (Z.of_nat (length src) - (ipos + g)))
        with (n - g) by (subst n; lia).
      replace (ipos + g + (n - g)) with (ipos + n) by lia.
      replace (opos + g + (n - g)) with (opos + n) by lia.
      replace (t + g + (n - g)) with (t + n) by lia.
      assert (Hdata :
        write_at (take (Z.to_nat (n - g)) (drop (Z.to_nat (ipos + g)) src))
          (Z.to_nat (opos + g)) (write_at got (Z.to_nat opos) cur)
        = write_at (take (Z.to_nat n) (drop (Z.to_nat ipos) src))
            (Z.to_nat opos) cur).
      { replace (Z.to_nat (opos + g)) with (Z.to_nat opos + length got)%nat
          by lia.
        rewrite write_at_write_at. f_equal. subst got.
        replace (Z.to_nat (ipos + g)) with (Z.to_nat ipos + Z.to_nat m)%nat
          by lia.
        rewrite <- drop_drop, take_take_drop. f_equal. subst n. lia. }
      by rewrite Hdata.
    + by rewrite lookup_insert_ne.
    + apply lookup_insert_eq.
    + lia.
    + lia.
    + lia.
    + subst n. lia.
    + subst n. lia.
Qed.

End CopyLoop.

Section PerformCopy.
Variable DCOPY_DEF_PERMS_FILE : Z.

Lemma mfu_archive_open_src (fs : filesystem) sname ms src cache :
  fs !! sname = Some (Reg ms src) -> may_read ms = true ->
  src_cache_wf cache ->
  exists cache' pos,
    mfu_archive_open_file DCOPY_DEF_PERMS_FILE fs sname true cache
    = (fs, cache', true)
    /\ cache_name cache' = Some sname /\ cache_read cache' = true
    /\ cache_fd cache' = Some {| of_path := sname; of_pos := pos |}.
Proof.
  intros Hs Hr Hwf. unfold mfu_archive_open_file.
  destruct (cache_name cache) as [n|] eqn:Hn.
  - destruct (bool_decide (n = sname)) eqn:Hname;
      destruct (bool_decide (cache_read cache = true)) eqn:Hread; cbn [andb].
    + apply bool_decide_eq_true in Hname, Hread. subst n.
      destruct (Hwf sname Hn Hread) as [pos Hfd].
      exists cache, pos. by repeat split.
    + unfold mfu_open_rdonly. rewrite Hs, Hr. eexists _, 0. by repeat split.
    + unfold mfu_open_rdonly. rewrite Hs, Hr. eexists _, 0. by repeat split.
    + unfold mfu_open_rdonly. rewrite Hs, Hr. eexists _, 0. by repeat split.
  - unfold mfu_open_rdonly. rewrite Hs, Hr. eexists _, 0. by repeat split.
Qed.

Lemma last_chunk_index C S k :
  0 < C < 2 ^ 63 -> 0 < S < 2 ^ 63 -> 0 <= k -> C * k < S ->
  let num_chunks := S / C in
  let rem := wrap64 (S - wrap64 (C * num_chunks)) in
  let last_chunk := if rem =? 0 then wrap64 (num_chunks - 1) else num_chunks in
  (k =? last_chunk) = negb ((k + 1) * C <? S).
Proof.
  intros HC HS Hk Hlt num_chunks rem last_chunk.
  pose proof (Z.div_mod S C ltac:(lia)) as Hdm.
  pose proof (Z.mod_pos_bound S C ltac:(lia)) as Hm.
  assert (Hq : 0 <= S / C) by (apply Z.div_pos; lia).
  fold num_chunks in Hdm, Hq.
  assert (Hrem : rem = S mod C).
  { subst rem. rewrite (wrap64_small (C * num_chunks)) by nia.
    rewrite wrap64_small by nia. lia. }
  subst last_chunk. rewrite Hrem. clearbody num_chunks.
  destruct (Z.eqb_spec (S mod C) 0) as [Hz|Hnz].
  - assert (1 <= num_chunks) by nia.
    rewrite wrap64_small by lia.
    destruct (Z.eqb_spec k (num_chunks - 1)), (Z.ltb_spec ((k + 1) * C) S);
      cbn [negb]; try reflexivity; nia.
  - destruct (Z.eqb_spec k num_chunks), (Z.ltb_spec ((k + 1) * C) S);
      cbn [negb]; try reflexivity; nia.
Qed.

Lemma perform_copy_op_chunk st opts op (sname aname : string) ms ma src arch
    apos C k :
  let fsz := Z.of_nat (length src) in
  let doffset := op_offset op in
  chunk_size opts = C -> 0 < C < 2 ^ 63 -> 0 < io_bufsize (DTAR_writer st) ->
  op_file_size op = fsz -> op_chunk_index op = k ->
  string_of_list_ascii (op_operand op) = sname ->
  0 <= k -> C * k < fsz -> 0 <= doffset -> doffset + fsz + 512 < 2 ^ 63 ->
  sname <> aname ->
  dtar_fs st !! sname = Some (Reg ms src) -> may_read ms = true ->
  dtar_fs st !! aname = Some (Reg ma arch) ->
  src_cache_wf (mfu_archive_src_cache st) ->
  writer_fd (DTAR_writer st) = Some {| of_path := aname; of_pos := apos |} ->
  DTAR_err st = false ->
  let st' := perform_copy_op DCOPY_DEF_PERMS_FILE st opts op in
  DTAR_err st' = false
  /\ dtar_fs st'
     = <[aname :=
           Reg ma (write_at (chunk_bytes C k src ++ chunk_padding C k fsz)
                     (Z.to_nat (doffset + C * k)) arch)]> (dtar_fs st)
  /\ reduce_bytes st'
     = wrap64 (reduce_bytes st + Z.of_nat (length (chunk_bytes C k src)))
  /\ src_cache_wf (mfu_archive_src_cache st')
  /\ (exists pos,
        writer_fd (DTAR_writer st') = Some {| of_path := aname; of_pos := pos |})
  /\ io_bufsize (DTAR_writer st') = io_bufsize (DTAR_writer st).
Proof.
  intros fsz doffset Hopts HC Hbuf Hsize Hidx Hname Hk Hlt Hd Hmax Hne Hs Hr Ha
    Hwf Hw Herr st'.
  assert (HS : 0 < fsz < 2 ^ 63) by nia.
  subst st'. unfold perform_copy_op.
  destruct (mfu_archive_open_src (dtar_fs st) sname ms src
              (mfu_archive_src_cache st) Hs Hr Hwf)
    as (cache' & ipos & Hopen & Hcn & Hcr & Hcf).
  rewrite Hname, Hopen. cbv beta iota zeta.
  rewrite Hcf, Herr, Hw, Hopts, Hidx, Hsize. fold doffset.
  rewrite (wrap64_small (C * k)) by nia.
  rewrite (wrap64_small (doffset + C * k)) by nia.
  unfold mfu_lseek. rewrite !to_off_t_small by nia.
  destruct (Z.ltb_spec (C * k) 0) as [|_]; [nia|].
  destruct (Z.ltb_spec (doffset + C * k) 0) as [|_]; [nia|].
  cbv beta iota zeta. cbn [of_path].
  set (n := Z.min (C - 0) (Z.of_nat (length src) - C * k)).
  assert (Hn : 0 < n <= C) by (subst n; fold fsz; lia).
  rewrite (copy_loop_run sname aname ms ma src (io_bufsize (DTAR_writer st)) C
             Hne Hbuf HC (Datatypes.S (Z.to_nat C)) 0 (dtar_fs st) arch (C * k) (doffset + C * k) Hs Ha
             ltac:(lia) ltac:(nia) ltac:(nia) ltac:(fold n; lia)
             ltac:(fold n; lia)).
  fold n. cbv beta iota zeta.
  assert (Hbytes : take (Z.to_nat n) (drop (Z.to_nat (C * k)) src)
                   = chunk_bytes C k src).
  { unfold chunk_bytes. assert (Hl := length_drop src (Z.to_nat (C * k))).
    destruct (decide (Z.to_nat C <= length (drop (Z.to_nat (C * k)) src))%nat).
    - f_equal. subst n. fold fsz. lia.
    - rewrite !take_ge by (subst n; fold fsz; lia). reflexivity. }
  assert (Hblen : Z.of_nat (length (chunk_bytes C k src)) = n).
  { rewrite <- Hbytes, length_take, length_drop. subst n. fold fsz. lia. }
  rewrite Hbytes.
  rewrite (last_chunk_index C fsz k HC HS Hk Hlt).
  rewrite Z.add_0_l. rewrite (wrap64_small (C * k + n)) by nia.
  unfold chunk_padding.
  destruct (Z.ltb_spec ((k + 1) * C) fsz) as [Hmore|Hlast]; cbn [negb].
  - assert (n = C) by (subst n; fold fsz; nia).
    rewrite (wrap64_small (C * k + C)) by nia.
    destruct (Z.ltb_spec (C * k + n) (C * k + C)) as [|_]; [lia|].
    cbn [DTAR_err dtar_fs reduce_bytes mfu_archive_src_cache DTAR_writer
         writer_fd io_bufsize cache_name cache_read cache_fd].
    rewrite app_nil_r, Hblen.
    split; [reflexivity|]. split; [reflexivity|]. split; [reflexivity|].
    split; [|split; [by eexists|reflexivity]].
    intros n0 Hn0 _. cbn [cache_name cache_fd] in *.
    rewrite Hcn in Hn0. injection Hn0 as <-. by eexists.
  - assert (Hnl : C * k + n = fsz) by (subst n; fold fsz; nia).
    destruct (Z.ltb_spec (C * k + n) fsz) as [|_]; [lia|].
    pose proof (Z.mod_pos_bound fsz 512 ltac:(lia)) as Hm.
    rewrite (to_int_small (fsz mod 512)) by lia.
    destruct (Z.ltb_spec 0 (512 - fsz mod 512)) as [_|]; [|lia].
    cbn [andb].
    destruct (Z.eqb_spec (512 - fsz mod 512) 512) as [Hz|Hnz]; cbn [negb].
    + cbn [DTAR_err dtar_fs reduce_bytes mfu_archive_src_cache DTAR_writer
           writer_fd io_bufsize cache_name cache_read cache_fd].
      replace ((512 - fsz mod 512) mod 512) with 0
        by (rewrite Hz; reflexivity).
      change (zeros (Z.to_nat 0)) with (@nil Z). rewrite app_nil_r, Hblen.
      split; [reflexivity|]. split; [reflexivity|]. split; [reflexivity|].
      split; [|split; [by eexists|reflexivity]].
      intros n0 Hn0 _. cbn [cache_name cache_fd] in *.
      rewrite Hcn in Hn0. injection Hn0 as <-. by eexists.
    + rewrite (Z.mod_small (512 - fsz mod 512) 512) by lia.
      unfold mfu_write, mfu_pwrite. cbn [of_path of_pos].
      rewrite lookup_insert_eq.
      destruct (Z.ltb_spec (doffset + C * k + n) 0) as [|_]; [lia|].
      rewrite length_zeros, insert_insert_eq.
      destruct (Z.ltb_spec (Z.of_nat (Z.to_nat (512 - fsz mod 512))) 0) as [|_];
        [lia|].
      replace (Z.of_nat (Z.to_nat (512 - fsz mod 512)) =? 512 - fsz mod 512)
        with true by (symmetry; apply Z.eqb_eq; lia).
      cbn [DTAR_err dtar_fs reduce_bytes mfu_archive_src_cache DTAR_writer
           writer_fd io_bufsize cache_name cache_read cache_fd].
      rewrite Hblen.
      split; [reflexivity|]. split; [|split; [reflexivity|]].
      * do 2 f_equal.
        replace (Z.to_nat (doffset + C * k + n))
          with (Z.to_nat (doffset + C * k) + length (chunk_bytes C k src))%nat
          by lia.
        apply write_at_write_at.
      * split; [|split; [by eexists|reflexivity]].
        intros n0 Hn0 _. cbn [cache_name cache_fd] in *.
        rewrite Hcn in Hn0. injection Hn0 as <-. by eexists.
Qed.

End PerformCopy.

Section DynamicFile.
Variable CIRCLE_MAX_STRING_LEN : Z.
Variable DCOPY_DEF_PERMS_FILE : Z.
Hypothesis max_fits_int : CIRCLE_MAX_STRING_LEN <= 2 ^ 31.
Variables (name aname : string) (ms ma : Z) (src : list Z).
Variables (opts : mfu_archive_opts_t) (C doffset B : Z).
Hypothesis chunk_size_C : chunk_size opts = C.
Hypothesis chunk_pos : 0 < C < 2 ^ 63.
Hypothesis bufsize_pos : 0 < B.
Hypothesis doffset_range :
  0 <= doffset /\ doffset + Z.of_nat (length src) + 512 < 2 ^ 63.
Hypothesis names_differ : name <> aname.
Hypothesis name_no_nul : Forall (fun c => c <> NUL) (list_ascii_of_string name).
Hypothesis source_readable : may_read ms = true.

Let fsz := Z.of_nat (length src).
Let enc k :=
  DTAR_encode_operation CIRCLE_MAX_STRING_LEN COPY_DATA
    (list_ascii_of_string name) fsz k doffset.

(** The state a work item of the file can run in. *)
Let ready (st : dtar_state) (arch : list Z) : Prop :=
  dtar_fs st !! name = Some (Reg ms src)
  /\ dtar_fs st !! aname = Some (Reg ma arch)
  /\ src_cache_wf (mfu_archive_src_cache st)
  /\ (exists apos,
        writer_fd (DTAR_writer st) = Some {| of_path := aname; of_pos := apos |})
  /\ io_bufsize (DTAR_writer st) = B
  /\ DTAR_err st = false.

Lemma DTAR_perform_copy_chunk st arch k s junk :
  ready st arch -> 0 <= k -> C * k < fsz -> enc k = Some s ->
  exists st',
    DTAR_perform_copy DCOPY_DEF_PERMS_FILE st opts (s ++ NUL :: junk) = Some st'
    /\ ready st'
         (write_at (chunk_bytes C k src ++ chunk_padding C k fsz)
            (Z.to_nat (doffset + C * k)) arch)
    /\ dtar_fs st'
       = <[aname :=
             Reg ma (write_at (chunk_bytes C k src ++ chunk_padding C k fsz)
                       (Z.to_nat (doffset + C * k)) arch)]> (dtar_fs st)
    /\ reduce_bytes st'
       = wrap64 (reduce_bytes st + Z.of_nat (length (chunk_bytes C k src))).
Proof.
  intros (Hs & Ha & Hwf & [apos Hw] & Hb & Herr) Hk Hlt Henc.
  unfold DTAR_perform_copy. unfold enc in Henc.
  rewrite (decode_encode CIRCLE_MAX_STRING_LEN max_fits_int COPY_DATA
             (list_ascii_of_string name) fsz k doffset s junk)
    by (assumption || (unfold COPY_DATA; lia) || (unfold fsz in *; nia)).
  cbn [mbind option_bind]. eexists. split; [reflexivity|].
  pose proof (perform_copy_op_chunk DCOPY_DEF_PERMS_FILE st opts
    {| op_file_size := fsz; op_chunk_index := k; op_offset := doffset;
       op_code := COPY_DATA; op_operand := list_ascii_of_string name |}
    name aname ms ma src arch apos C k) as Hrun.
  cbn [op_file_size op_chunk_index op_offset op_operand] in Hrun.
  destruct Hrun as (H1 & H2 & H3 & H4 & H5 & H6); try assumption;
    try reflexivity; try apply string_of_list_ascii_id; try lia;
    try (apply doffset_range).
  split; [|by split].
  unfold ready. rewrite H2, H6.
  split; [by rewrite lookup_insert_ne|]. split; [apply lookup_insert_eq|].
  by repeat split.
Qed.

Lemma drain_queue_chunks (queue : list (list ascii)) : forall k0 st arch,
  queue <> [] ->
  Forall2 (fun k s => enc k = Some s) (seqZ k0 (Z.of_nat (length queue))) queue ->
  0 <= k0 -> C * (k0 + Z.of_nat (length queue) - 1) < fsz ->
  ready st arch ->
  exists st',
    drain_queue DCOPY_DEF_PERMS_FILE st opts queue = Some st'
    /\ DTAR_err st' = false
    /\ dtar_fs st'
       = <[aname :=
             Reg ma
               (write_at
                  (take (Z.to_nat (Z.of_nat (length queue) * C))
                     (drop (Z.to_nat (C * k0)) src)
                   ++ chunk_padding C (k0 + Z.of_nat (length queue) - 1) fsz)
                  (Z.to_nat (doffset + C * k0)) arch)]> (dtar_fs st)
    /\ reduce_bytes st'
       = wrap64 (reduce_bytes st
                 + Z.of_nat (length
                     (take (Z.to_nat (Z.of_nat (length queue) * C))
                        (drop (Z.to_nat (C * k0)) src)))).
Proof.
  induction queue as [|s rest IH]; intros k0 st arch Hnil Hall Hk Hlt Hready;
    [done|].
  cbn [length] in *.
  rewrite seqZ_cons in Hall by lia.
  apply Forall2_cons in Hall as [Henc Hall].
  replace (Z.pred (Z.of_nat (S (length rest)))) with (Z.of_nat (length rest))
    in Hall by lia.
  replace (Z.succ k0) with (k0 + 1) in Hall by lia.
  destruct (DTAR_perform_copy_chunk st arch k0 s [] Hready Hk ltac:(nia) Henc)
    as (st1 & Hrun & Hready1 & Hfs1 & Hred1).
  cbn [drain_queue]. rewrite Hrun. cbn [mbind option_bind].
  destruct rest as [|s2 rest].
  - cbn [drain_queue length]. exists st1.
    split; [reflexivity|]. split; [apply Hready1|].
    change (Z.of_nat 1 * C) with (1 * C). rewrite Z.mul_1_l.
    replace (k0 + Z.of_nat 1 - 1) with k0 by lia.
    split; [exact Hfs1|exact Hred1].
  - assert (Hmore : (k0 + 1) * C < fsz) by (cbn [length] in Hlt; nia).
    assert (Hpad : chunk_padding C k0 fsz = []).
    { unfold chunk_padding. destruct (Z.ltb_spec ((k0 + 1) * C) fsz); [done|lia]. }
    assert (Hlen : length (chunk_bytes C k0 src) = Z.to_nat C).
    { unfold chunk_bytes. apply length_take_drop. unfold fsz in Hmore. nia. }
    rewrite Hpad, app_nil_r in Hready1, Hfs1.
    destruct (IH (k0 + 1) st1 _ ltac:(done) Hall ltac:(lia) ltac:(nia) Hready1)
      as (st' & Hrun' & Herr' & Hfs' & Hred').
    exists st'. split; [exact Hrun'|]. split; [exact Herr'|].
    set (m := length (s2 :: rest)) in *.
    assert (Hbytes :
      chunk_bytes C k0 src
      ++ take (Z.to_nat (Z.of_nat m * C)) (drop (Z.to_nat (C * (k0 + 1))) src)
      = take (Z.to_nat (Z.of_nat (S m) * C)) (drop (Z.to_nat (C * k0)) src)).
    { unfold chunk_bytes.
      replace (Z.to_nat (C * (k0 + 1)))
        with (Z.to_nat (C * k0) + Z.to_nat C)%nat by nia.
      rewrite <- drop_drop, take_take_drop. f_equal. nia. }
    split.
    + rewrite Hfs', Hfs1, insert_insert_eq. do 2 f_equal.
      replace (Z.to_nat (doffset + C * (k0 + 1)))
        with (Z.to_nat (doffset + C * k0) + length (chunk_bytes C k0 src))%nat
        by (rewrite Hlen; destruct doffset_range; nia).
      rewrite write_at_write_at, app_assoc, Hbytes.
      do 3 f_equal. lia.
    + rewrite Hred', Hred1, wrap64_add_l. f_equal.
      rewrite <- Hbytes, length_app. lia.
Qed.

End DynamicFile.

(** ** The queue of one file, and the truncation *)

Section DynamicFileQueue.
Variable CIRCLE_MAX_STRING_LEN : Z.
Variable DCOPY_DEF_PERMS_FILE : Z.
Hypothesis max_fits_int : CIRCLE_MAX_STRING_LEN <= 2 ^ 31.

(** The work items of one non-empty regular file, processed in enqueue
    order, leave its content and padding at its data offset. *)
Lemma drain_queue_file (name aname : string) st opts ms ma src
    arch apos C doffset ops queue :
  let fsz := Z.of_nat (length src) in
  chunk_size opts = C -> 0 < C < 2 ^ 63 -> 0 < io_bufsize (DTAR_writer st) ->
  0 < fsz -> 0 <= doffset -> doffset + fsz + 512 < 2 ^ 63 ->
  name <> aname ->
  Forall (fun c => c <> NUL) (list_ascii_of_string name) ->
  dtar_fs st !! name = Some (Reg ms src) -> may_read ms = true ->
  dtar_fs st !! aname = Some (Reg ma arch) ->
  src_cache_wf (mfu_archive_src_cache st) ->
  writer_fd (DTAR_writer st) = Some {| of_path := aname; of_pos := apos |} ->
  DTAR_err st = false ->
  enqueue_file CIRCLE_MAX_STRING_LEN name fsz doffset C = Some ops ->
  mapM id ops = Some queue ->
  exists st',
    drain_queue DCOPY_DEF_PERMS_FILE st opts queue = Some st'
    /\ DTAR_err st' = false
    /\ dtar_fs st'
       = <[aname :=
             Reg ma (write_at
                       (src ++ zeros (Z.to_nat ((512 - fsz mod 512) mod 512)))
                       (Z.to_nat doffset) arch)]> (dtar_fs st)
    /\ reduce_bytes st' = wrap64 (reduce_bytes st + fsz).
Proof.
  intros fsz Hopts HC Hbuf Hpos Hd Hmax Hne Hnul Hs Hr Ha Hwf Hw Herr Henq Hq.
  unfold enqueue_file in Henq.
  destruct (Z.eqb_spec C 0); [lia|]. cbv zeta in Henq. injection Henq as <-.
  set (enc := fun k => DTAR_encode_operation CIRCLE_MAX_STRING_LEN COPY_DATA
                         (list_ascii_of_string name) fsz k doffset) in *.
  pose proof (Z.div_mod fsz C ltac:(lia)) as Hdm.
  pose proof (Z.mod_pos_bound fsz C ltac:(lia)) as Hm.
  assert (Hqn : 0 <= fsz / C) by (apply Z.div_pos; lia).
  set (nch := if fsz mod C =? 0 then fsz / C else fsz / C + 1).
  assert (Hnch : 1 <= nch /\ C * (nch - 1) < fsz /\ fsz <= nch * C).
  { subst nch. destruct (Z.eqb_spec (fsz mod C) 0); nia. }
  assert (Hops :
    map enc (seqZ 0 (fsz / C))
    ++ (if (wrap64 (fsz / C * C) <? fsz) || (fsz / C =? 0)
        then [enc (fsz / C)] else [])
    = map enc (seqZ 0 nch)).
  { rewrite (wrap64_small (fsz / C * C)) by nia. subst nch.
    destruct (Z.eqb_spec (fsz mod C) 0) as [Hz|Hnz].
    - destruct (Z.ltb_spec (fsz / C * C) fsz); [nia|].
      destruct (Z.eqb_spec (fsz / C) 0); [nia|]. apply app_nil_r.
    - destruct (Z.ltb_spec (fsz / C * C) fsz); [|nia]. cbn [orb].
      rewrite seqZ_app by lia. by rewrite map_app. }
  assert (Hq' : mapM id (map enc (seqZ 0 nch)) = Some queue)
    by (rewrite <- Hops; exact Hq).
  clear Hq. rename Hq' into Hq. apply mapM_Some_1 in Hq.
  apply Forall2_fmap_l in Hq.
  assert (Hlen : Z.of_nat (length queue) = nch).
  { apply Forall2_length in Hq. rewrite length_seqZ in Hq. lia. }
  destruct (drain_queue_chunks CIRCLE_MAX_STRING_LEN DCOPY_DEF_PERMS_FILE
              max_fits_int name aname ms ma src opts C doffset
              (io_bufsize (DTAR_writer st)) Hopts HC Hbuf (conj Hd Hmax) Hne Hnul
              Hr queue 0 st arch)
    as (st' & Hrun & Herr' & Hfs' & Hred').
  - intros ->. cbn [length] in Hlen. lia.
  - rewrite Hlen. exact Hq.
  - lia.
  - rewrite Hlen. fold fsz. lia.
  - repeat split; try assumption. by eexists.
  - exists st'. split; [exact Hrun|]. split; [exact Herr'|].
    rewrite Hlen, Z.mul_0_r in Hfs', Hred'. rewrite Z.add_0_r in Hfs'.
    change (Z.to_nat 0) with 0%nat in Hfs', Hred'. rewrite drop_0 in Hfs', Hred'.
    rewrite take_ge in Hfs', Hred' by (fold fsz in Hnch; lia).
    split; [|exact Hred'].
    rewrite Hfs'. do 4 f_equal. unfold chunk_padding. fold fsz.
    destruct (Z.ltb_spec ((0 + nch - 1 + 1) * C) fsz); [lia|reflexivity].
Qed.

End DynamicFileQueue.

(** Rank 0's truncation leaves [archive_size + 1024] zero bytes. *)
Lemma create_truncate_zeros (fs : filesystem) path pos m d A :
  fs !! path = Some (Reg m d) -> 0 <= A -> A + 1024 < 2 ^ 63 ->
  create_truncate 0 fs (Some {| of_path := path; of_pos := pos |}) A
  = <[path := Reg m (zeros (Z.to_nat (A + 1024)))]> fs.
Proof.
  intros Hd HA Hmax. unfold create_truncate.
  replace (0 =? 0) with true by reflexivity. cbv beta iota zeta.
  change (2 * 512) with 1024.
  rewrite wrap64_small, to_off_t_small by lia.
  rewrite (mfu_ftruncate_reg fs path pos m d 0 Hd) by lia.
  change (Z.to_nat 0) with 0%nat. rewrite take_0.
  rewrite (mfu_ftruncate_reg _ path pos m [] (A + 1024))
    by (apply lookup_insert_eq || lia).
  rewrite insert_insert_eq. cbn [app length]. rewrite Nat.sub_0_r.
  rewrite take_ge by (rewrite length_zeros; lia).
  unfold posix_fallocate. cbn [of_path]. rewrite lookup_insert_eq.
  rewrite insert_insert_eq. rewrite length_zeros, Nat.sub_diag.
  unfold zeros at 2. cbn [replicate]. by rewrite app_nil_r.
Qed.

(** X1: the static engine copies a file into the archive.  When the chunks
    of this rank for one source file are consecutive segments of lengths
    [lens] starting at byte [o], the source holds them, the item's data
    offset is [D] and the buffer size is positive, the loop ends (with
    enough fuel for the longest segment) and the archive then holds the
    bytes [o, o + sum lens) of the source at [D + o]; the bytes after
    that range and the bytes before it are as they were, [DTAR_err] is
    unchanged and the byte counter grew by the number of bytes copied. *)
Theorem chunk_create_copies_file (fs : filesystem) (sname aname : string)
    ms ma src arch owner idx disp D bufsize apos rank_disps all_offsets err
    reduce fuel lens o :
  sname <> aname -> 0 < bufsize -> 0 <= D -> may_read ms = true ->
  array_get rank_disps (to_int owner) = Some disp ->
  array_get all_offsets (wrap64 (disp + idx)) = Some D ->
  lens <> [] -> Forall (fun l => 0 < l /\ (Z.to_nat l < fuel)%nat) lens ->
  0 <= o -> o + Zsum lens <= Z.of_nat (length src) ->
  D + o + Zsum lens < 2 ^ 63 ->
  fs !! sname = Some (Reg ms src) -> fs !! aname = Some (Reg ma arch) ->
  exists arch',
    create_chunk_loop fuel fs (Some {| of_path := aname; of_pos := apos |})
      bufsize rank_disps all_offsets (file_chunks sname owner idx o lens)
      err reduce
    = Some (<[aname := Reg ma arch']> fs, err, wrap64 (reduce + Zsum lens))
    /\ take (Z.to_nat (Zsum lens)) (drop (Z.to_nat (D + o)) arch')
       = take (Z.to_nat (Zsum lens)) (drop (Z.to_nat o) src)
    /\ drop (Z.to_nat (D + o + Zsum lens)) arch'
       = drop (Z.to_nat (D + o + Zsum lens)) arch
    /\ (D + o <= Z.of_nat (length arch) ->
        take (Z.to_nat (D + o)) arch' = take (Z.to_nat (D + o)) arch).
Proof.
  intros Hne Hbuf HD Hr Hdisp Hoff Hnil Hall Ho Hsrc Hmax Hs Ha.
  assert (Hsum : 0 <= Zsum lens).
  { apply Zsum_nonneg. eapply Forall_impl; [exact Hall|]. simpl. lia. }
  set (bytes := take (Z.to_nat (Zsum lens)) (drop (Z.to_nat o) src)).
  assert (Hlen : length bytes = Z.to_nat (Zsum lens)).
  { subst bytes. apply length_take_drop. lia. }
  exists (write_at bytes (Z.to_nat (D + o)) arch).
  split; [|split; [|split]].
  - eapply create_chunk_loop_file; eassumption.
  - rewrite <- Hlen at 1. apply write_at_read.
  - replace (Z.to_nat (D + o + Zsum lens))
      with (Z.to_nat (D + o) + length bytes)%nat by lia.
    apply write_at_after.
  - intros Hin. apply write_at_before. lia.
Qed.

Lemma chunk_create_copies_file_witness :
  exists arch',
    create_chunk_loop 9 chunk_fs (Some {| of_path := "out.tar"; of_pos := 0 |})
      3 [0] [512] (file_chunks "a" 0 0 0 [8; 5]) false 0
    = Some (<["out.tar" := Reg 436 arch']> chunk_fs, false, wrap64 (0 + Zsum [8; 5]))
    /\ take (Z.to_nat (Zsum [8; 5])) (drop (Z.to_nat (512 + 0)) arch')
       = take (Z.to_nat (Zsum [8; 5])) (drop (Z.to_nat 0)
           [104; 101; 108; 108; 111; 32; 119; 111; 114; 108; 100; 33; 10])
    /\ drop (Z.to_nat (512 + 0 + Zsum [8; 5])) arch'
       = drop (Z.to_nat (512 + 0 + Zsum [8; 5])) (zeros 2048)
    /\ (512 + 0 <= Z.of_nat (length (zeros 2048)) ->
        take (Z.to_nat (512 + 0)) arch' = take (Z.to_nat (512 + 0)) (zeros 2048)).
Proof.
  apply (chunk_create_copies_file chunk_fs "a" "out.tar" 420 436
           [104; 101; 108; 108; 111; 32; 119; 111; 114; 108; 100; 33; 10]
           (zeros 2048) 0 0 0 512 3 0 [0] [512] false 0 9%nat [8; 5] 0);
    try reflexivity; try lia; try discriminate.
  repeat constructor; lia.
Defined.

(** X2: the static engine never finishes a chunk whose source file is
    shorter than the chunk says.  The read at the end of the file returns
    0 bytes, the write of 0 bytes succeeds, [bytes_copied] no longer grows
    and "while (bytes_copied < length)" stays true: whatever the fuel, the
    loop is still running ([None]), with no error raised. *)
Theorem chunk_create_short_source_never_ends (fs : filesystem)
    (sname aname : string) ms ma src arch p D bufsize ipos apos err reduce :
  sname <> aname -> 0 <= chunk_offset p -> 0 < chunk_length p -> 0 <= D ->
  D + chunk_offset p + chunk_length p < 2 ^ 63 ->
  Z.of_nat (length src) < chunk_offset p + chunk_length p ->
  fs !! sname = Some (Reg ms src) -> fs !! aname = Some (Reg ma arch) ->
  forall fuel,
    create_chunk_copy fuel fs (Some {| of_path := sname; of_pos := ipos |})
      (Some {| of_path := aname; of_pos := apos |}) bufsize p D 0 err reduce
    = None.
Proof.
  intros Hne Ho Hl HD Hmax Hshort Hs Ha fuel.
  eapply create_chunk_copy_short; try eassumption; lia.
Qed.

Lemma chunk_create_short_source_never_ends_witness :
  create_chunk_copy 1000 chunk_fs (Some {| of_path := "a"; of_pos := 0 |})
    (Some {| of_path := "out.tar"; of_pos := 0 |}) 1048576
    {| chunk_name := "a"; chunk_offset := 0; chunk_length := 14;
       rank_of_owner := 0; index_of_owner := 0 |} 512 0 false 0
  = None.
Proof.
  apply (chunk_create_short_source_never_ends chunk_fs "a" "out.tar" 420 436
           [104; 101; 108; 108; 111; 32; 119; 111; 114; 108; 100; 33; 10]
           (zeros 2048));
    try reflexivity; try (cbn; lia); try discriminate.
Defined.

(** X3: the static engine extracts a file from the archive.  When the
    chunks of this rank for one destination file are consecutive segments
    of lengths [lens] starting at byte [o], the archive holds the data
    region up to [D + o + sum lens], the destination exists and is
    writable and the buffer size is positive, the loop ends with
    [MFU_SUCCESS] and the destination then holds the archive bytes
    [D + o, D + o + sum lens) at [o]; a destination that was no longer
    than [o + sum lens] ends exactly there. *)
Theorem chunk_extract_copies_file (fs : filesystem) (aname oname : string)
    ma mo arch dst owner idx disp D bufsize apos rank_disps data_offsets err
    reduce fuel lens o :
  aname <> oname -> 0 < bufsize -> 0 <= D -> may_write mo = true ->
  array_get rank_disps (to_int owner) = Some disp ->
  array_get data_offsets (wrap64 (disp + idx)) = Some D ->
  lens <> [] -> Forall (fun l => 0 < l /\ (Z.to_nat l < fuel)%nat) lens ->
  0 <= o -> D + o + Zsum lens <= Z.of_nat (length arch) ->
  D + o + Zsum lens < 2 ^ 63 ->
  fs !! aname = Some (Reg ma arch) -> fs !! oname = Some (Reg mo dst) ->
  exists dst',
    extract_chunk_loop fuel fs (Some {| of_path := aname; of_pos := apos |})
      bufsize rank_disps data_offsets (file_chunks oname owner idx o lens)
      err MFU_SUCCESS reduce
    = Some (<[oname := Reg mo dst']> fs, err, MFU_SUCCESS,
            wrap64 (reduce + Zsum lens))
    /\ take (Z.to_nat (Zsum lens)) (drop (Z.to_nat o) dst')
       = take (Z.to_nat (Zsum lens)) (drop (Z.to_nat (D + o)) arch)
    /\ (Z.of_nat (length dst) <= o + Zsum lens ->
        Z.of_nat (length dst') = o + Zsum lens).
Proof.
  intros Hne Hbuf HD Hw Hdisp Hoff Hnil Hall Ho Harch Hmax Ha Hout.
  assert (Hsum : 0 <= Zsum lens).
  { apply Zsum_nonneg. eapply Forall_impl; [exact Hall|]. simpl. lia. }
  set (bytes := take (Z.to_nat (Zsum lens)) (drop (Z.to_nat (D + o)) arch)).
  assert (Hlen : length bytes = Z.to_nat (Zsum lens)).
  { subst bytes. apply length_take_drop. lia. }
  exists (write_at bytes (Z.to_nat o) dst).
  split; [|split].
  - eapply extract_chunk_loop_file; eassumption.
  - rewrite <- Hlen at 1. apply write_at_read.
  - intros Hd. rewrite write_at_length. lia.
Qed.

Lemma chunk_extract_copies_file_witness :
  exists dst',
    extract_chunk_loop 9 chunk_fs (Some {| of_path := "out.tar"; of_pos := 0 |})
      3 [0] [512] (file_chunks "a.out" 0 0 0 [8; 5]) false MFU_SUCCESS 0
    = Some (<["a.out" := Reg 420 dst']> chunk_fs, false, MFU_SUCCESS,
            wrap64 (0 + Zsum [8; 5]))
    /\ take (Z.to_nat (Zsum [8; 5])) (drop (Z.to_nat 0) dst')
       = take (Z.to_nat (Zsum [8; 5])) (drop (Z.to_nat (512 + 0)) (zeros 2048))
    /\ (Z.of_nat (length (@nil Z)) <= 0 + Zsum [8; 5] ->
        Z.of_nat (length dst') = 0 + Zsum [8; 5]).
Proof.
  apply (chunk_extract_copies_file chunk_fs "out.tar" "a.out" 436 420
           (zeros 2048) [] 0 0 0 512 3 0 [0] [512] false 0 9%nat [8; 5] 0);
    try reflexivity; try lia; try discriminate.
  repeat constructor; lia.
Defined.

(** X4: the static extractor stops with an error at the end of a
    truncated archive.  When the archive is shorter than the data region
    of a chunk, the inner loop ends (a read of 0 bytes is "Unexpected end
    of archive file"), with [DTAR_err] set and [rc = MFU_FAILURE]; only
    the destination file may have changed. *)
Theorem chunk_extract_short_archive_fails (fs : filesystem)
    (aname oname : string) ma mo arch dst p D bufsize apos opos err rc reduce
    fuel :
  aname <> oname -> 0 <= chunk_offset p -> 0 < chunk_length p -> 0 <= D ->
  D + chunk_offset p + chunk_length p < 2 ^ 63 ->
  Z.of_nat (length arch) < D + chunk_offset p + chunk_length p ->
  fs !! aname = Some (Reg ma arch) -> fs !! oname = Some (Reg mo dst) ->
  (Z.to_nat (chunk_length p) < fuel)%nat ->
  exists fs' reduce',
    extract_chunk_copy fuel fs (Some {| of_path := aname; of_pos := apos |})
      (Some {| of_path := oname; of_pos := opos |}) bufsize p D 0 err rc reduce
    = Some (fs', true, MFU_FAILURE, reduce')
    /\ forall path, path <> oname -> fs' !! path = fs !! path.
Proof.
  intros Hne Ho Hl HD Hmax Hshort Ha Hout Hfuel.
  eapply extract_chunk_copy_short; try eassumption; [lia|].
  rewrite Z.sub_0_r. exact Hfuel.
Qed.

Lemma chunk_extract_short_archive_fails_witness :
  exists fs' reduce',
    extract_chunk_copy 14 chunk_fs (Some {| of_path := "out.tar"; of_pos := 0 |})
      (Some {| of_path := "a.out"; of_pos := 0 |}) 4
      {| chunk_name := "a.out"; chunk_offset := 0; chunk_length := 13;
         rank_of_owner := 0; index_of_owner := 0 |} 2040 0 false MFU_SUCCESS 0
    = Some (fs', true, MFU_FAILURE, reduce')
    /\ forall path, path <> "a.out" -> fs' !! path = chunk_fs !! path.
Proof.
  apply (chunk_extract_short_archive_fails chunk_fs "out.tar" "a.out" 436 420
           (zeros 2048) []);
    try reflexivity; try (cbn; lia); try discriminate.
Defined.

(** X5: archive, then extract, with the static engines: the extracted
    file is the source file.  The chunks of the source are copied into the
    archive at the item's data offset [D]; the chunks of the destination
    (of possibly other lengths [lens2], the same total) are then copied
    out of the archive found at the same data offset.  A destination that
    was not longer than the source (it is created empty) ends with exactly
    the bytes of the source. *)
Theorem chunk_archive_extract_roundtrip (fs : filesystem)
    (sname aname oname : string) ms ma mo src arch dst owner idx disp D
    owner2 idx2 disp2 bufsize bufsize2 apos apos2 rank_disps all_offsets
    rank_disps2 data_offsets fuel lens lens2 :
  sname <> aname -> aname <> oname ->
  0 < bufsize -> 0 < bufsize2 -> 0 <= D ->
  may_read ms = true -> may_write mo = true ->
  array_get rank_disps (to_int owner) = Some disp ->
  array_get all_offsets (wrap64 (disp + idx)) = Some D ->
  array_get rank_disps2 (to_int owner2) = Some disp2 ->
  array_get data_offsets (wrap64 (disp2 + idx2)) = Some D ->
  lens <> [] -> Forall (fun l => 0 < l /\ (Z.to_nat l < fuel)%nat) lens ->
  lens2 <> [] -> Forall (fun l => 0 < l /\ (Z.to_nat l < fuel)%nat) lens2 ->
  Zsum lens = Z.of_nat (length src) -> Zsum lens2 = Z.of_nat (length src) ->
  D + Z.of_nat (length src) < 2 ^ 63 ->
  fs !! sname = Some (Reg ms src) -> fs !! aname = Some (Reg ma arch) ->
  fs !! oname = Some (Reg mo dst) -> (length dst <= length src)%nat ->
  exists fs1 fs2 n1 n2,
    create_chunk_loop fuel fs (Some {| of_path := aname; of_pos := apos |})
      bufsize rank_disps all_offsets (file_chunks sname owner idx 0 lens)
      false 0
    = Some (fs1, false, n1)
    /\ extract_chunk_loop fuel fs1
         (Some {| of_path := aname; of_pos := apos2 |}) bufsize2 rank_disps2
         data_offsets (file_chunks oname owner2 idx2 0 lens2)
         false MFU_SUCCESS 0
       = Some (fs2, false, MFU_SUCCESS, n2)
    /\ fs2 !! oname = Some (Reg mo src)
    /\ n1 = Z.of_nat (length src) /\ n2 = Z.of_nat (length src).
Proof.
  intros Hsa Hao Hb1 Hb2 HD Hr Hw Hd1 Ho1 Hd2 Ho2 Hn1 Hall1 Hn2 Hall2
    Hs1 Hs2 Hmax Hs Ha Hout Hdst.
  set (arch1 := write_at (take (Z.to_nat (Zsum lens)) (drop (Z.to_nat 0) src))
                  (Z.to_nat (D + 0)) arch).
  set (fs1 := <[aname := Reg ma arch1]> fs).
  assert (Htake : take (Z.to_nat (Zsum lens)) (drop (Z.to_nat 0) src) = src).
  { change (Z.to_nat 0) with 0%nat. rewrite drop_0, take_ge by lia. reflexivity. }
  assert (Hrun1 := create_chunk_loop_file sname aname ms ma src owner idx disp D
            bufsize apos rank_disps all_offsets false fuel Hsa Hb1 HD Hr Hd1 Ho1
            lens 0 fs arch 0 Hn1 Hall1 ltac:(lia) ltac:(lia) ltac:(lia) Hs Ha).
  fold arch1 fs1 in Hrun1.
  assert (Hlen1 : Z.of_nat (length arch1) >= D + Z.of_nat (length src)).
  { subst arch1. rewrite write_at_length, Htake. lia. }
  assert (Ha1 : fs1 !! aname = Some (Reg ma arch1)) by apply lookup_insert_eq.
  assert (Hout1 : fs1 !! oname = Some (Reg mo dst)).
  { subst fs1. by rewrite lookup_insert_ne. }
  assert (Hrun2 := extract_chunk_loop_file aname oname ma mo arch1 owner2 idx2
            disp2 D bufsize2 apos2 rank_disps2 data_offsets false fuel Hao Hb2 HD
            Hw Hd2 Ho2 lens2 0 fs1 dst 0 Hn2 Hall2 ltac:(lia) ltac:(lia)
            ltac:(lia) Ha1 Hout1).
  eexists fs1, _, _, _. split; [exact Hrun1|]. split; [exact Hrun2|].
  split; [|split].
  - rewrite lookup_insert_eq. do 2 f_equal.
    assert (Hback : take (Z.to_nat (Zsum lens2)) (drop (Z.to_nat (D + 0)) arch1)
                    = src).
    { subst arch1. rewrite Htake. rewrite Hs2, Nat2Z.id. apply write_at_read. }
    rewrite Hback. change (Z.to_nat 0) with 0%nat.
    unfold write_at. cbn [take app Nat.add].
    rewrite drop_ge; [apply app_nil_r|].
    rewrite length_app, length_zeros. lia.
  - rewrite Hs1, Z.add_0_l. apply wrap64_small. lia.
  - rewrite Hs2, Z.add_0_l. apply wrap64_small. lia.
Qed.

Lemma chunk_archive_extract_roundtrip_witness :
  exists fs1 fs2 n1 n2,
    create_chunk_loop 9 chunk_fs (Some {| of_path := "out.tar"; of_pos := 0 |})
      3 [0] [512] (file_chunks "a" 0 0 0 [8; 5]) false 0
    = Some (fs1, false, n1)
    /\ extract_chunk_loop 9 fs1 (Some {| of_path := "out.tar"; of_pos := 0 |})
         4 [0] [512] (file_chunks "a.out" 0 0 0 [6; 7]) false MFU_SUCCESS 0
       = Some (fs2, false, MFU_SUCCESS, n2)
    /\ fs2 !! "a.out"
       = Some (Reg 420 [104; 101; 108; 108; 111; 32; 119; 111; 114; 108;
                        100; 33; 10])
    /\ n1 = Z.of_nat 13 /\ n2 = Z.of_nat 13.
Proof.
  apply (chunk_archive_extract_roundtrip chunk_fs "a" "out.tar" "a.out"
           420 436 420
           [104; 101; 108; 108; 111; 32; 119; 111; 114; 108; 100; 33; 10]
           (zeros 2048) [] 0 0 0 512 0 0 0 3 4 0 0 [0] [512] [0] [512] 9%nat
           [8; 5] [6; 7]);
    try reflexivity; try (cbn; lia); try discriminate;
    repeat constructor; lia.
Defined.

(** ** Preallocation and layout *)

(** X6: the truncation step of rank 0 discards whatever the archive file
    held: afterwards the file consists of [archive_size + 1024] zero
    bytes, so every byte the later phases do not write (the padding the
    static engine never writes, included) reads as NUL. *)
Theorem create_truncate_zero_fills (fs : filesystem) path pos m d A :
  fs !! path = Some (Reg m d) -> 0 <= A -> A + 1024 < 2 ^ 63 ->
  create_truncate 0 fs (Some {| of_path := path; of_pos := pos |}) A
  = <[path := Reg m (zeros (Z.to_nat (A + 1024)))]> fs.
Proof. apply create_truncate_zeros. Qed.

Lemma create_truncate_zero_fills_witness :
  create_truncate 0 tiny_fs (Some {| of_path := "a"; of_pos := 0 |}) 1536
  = <["a" := Reg 420 (zeros (Z.to_nat (1536 + 1024)))]> tiny_fs.
Proof.
  apply (create_truncate_zero_fills tiny_fs "a" 0 420
           [104; 101; 108; 108; 111; 32; 119; 111; 114; 108; 100; 33; 10]);
    [reflexivity | lia | lia].
Defined.

Lemma prefix_from_app b l1 l2 :
  prefix_from b (l1 ++ l2) = prefix_from b l1 ++ prefix_from (b + Zsum l1) l2.
Proof.
  revert b. induction l1 as [|x l1 IH]; intros b.
  - cbn [app prefix_from]. change (Zsum []) with 0. by rewrite Z.add_0_r.
  - cbn [app prefix_from]. rewrite IH.
    change (Zsum (x :: l1)) with (x + Zsum l1). do 3 f_equal. lia.
Qed.

Lemma prefix_from_shift b g cs :
  0 <= b -> 0 <= g -> Forall (fun x => 0 <= x) cs -> b + g + Zsum cs < 2 ^ 64 ->
  map (fun o => wrap64 (o + g)) (prefix_from b cs) = prefix_from (b + g) cs.
Proof.
  intros Hb Hg Hcs. revert b Hb.
  induction Hcs as [|c cs Hc Hcs IH]; intros b Hb Hlt; [reflexivity|].
  change (Zsum (c :: cs)) with (c + Zsum cs) in Hlt.
  pose proof (Zsum_nonneg cs Hcs).
  cbn [prefix_from map]. rewrite wrap64_small by lia. f_equal.
  rewrite IH by lia. f_equal. lia.
Qed.

Section OffsetProofs.
Context `{Codec}.

Lemma layout_loop_offsets fs cwd opts flist offset dbytes :
  0 <= offset ->
  offset + Zsum (map (fun it => entry_size (layout_entry fs cwd opts it)) flist)
    < 2 ^ 64 ->
  offsets (layout_loop fs cwd opts flist offset dbytes)
  = prefix_from offset
      (map (fun it => entry_size (layout_entry fs cwd opts it)) flist).
Proof.
  revert offset dbytes. induction flist as [|it flist IH];
    intros offset dbytes Ho Hlt; [reflexivity|].
  cbn [map] in Hlt.
  change (Zsum (?x :: ?l)) with (x + Zsum l) in Hlt.
  pose proof (layout_entry_nonneg fs cwd opts it).
  pose proof (Zsum_map_nonneg
                (fun it => entry_size (layout_entry fs cwd opts it)) flist
                (layout_entry_nonneg fs cwd opts)).
  cbn [layout_loop offsets map prefix_from]. f_equal.
  rewrite IH; rewrite wrap64_small by lia; [reflexivity|lia|lia].
Qed.

Lemma global_offsets_from (fs : filesystem) cwd opts post : forall pre,
  total_entry_size fs cwd opts (pre ++ post) < 2 ^ 64 ->
  concat (map (create_global_offsets fs cwd opts (pre ++ post))
            (seq (length pre) (length post)))
  = prefix_from (total_entry_size fs cwd opts pre)
      (map (fun it => entry_size (layout_entry fs cwd opts it)) (concat post)).
Proof.
  induction post as [|l post IH]; intros pre Hlt; [reflexivity|].
  set (size := fun it => entry_size (layout_entry fs cwd opts it)) in *.
  set (tsz := fun l : mfu_flist => Zsum (map size l)).
  assert (Hnn : forall ls, Forall (fun x => 0 <= x) (map tsz ls)).
  { intros ls. apply Forall_forall. intros x Hx.
    apply list_elem_of_fmap in Hx as (l0 & -> & _).
    apply Zsum_map_nonneg. intros. apply layout_entry_nonneg. }
  assert (Htot : forall ls, total_entry_size fs cwd opts ls = Zsum (map tsz ls))
    by reflexivity.
  rewrite Htot in Hlt. rewrite map_app, Zsum_app in Hlt. cbn [map] in Hlt.
  change (Zsum (tsz l :: ?r)) with (tsz l + Zsum r) in Hlt.
  pose proof (Zsum_nonneg _ (Hnn pre)). pose proof (Zsum_nonneg _ (Hnn post)).
  assert (Hl : 0 <= tsz l).
  { apply Zsum_map_nonneg. intros. apply layout_entry_nonneg. }
  cbn [length seq map concat]. rewrite map_app, prefix_from_app. f_equal.
  - unfold create_global_offsets.
    destruct (local_totals_exact fs cwd opts (pre ++ l :: post)) as [Hex _].
    { rewrite Htot, map_app, Zsum_app. cbn [map].
      change (Zsum (tsz l :: ?r)) with (tsz l + Zsum r). lia. }
    rewrite Hex. fold size. fold tsz.
    rewrite list_lookup_total_middle by reflexivity.
    unfold create_layout.
    rewrite layout_loop_total
      by (try change (Zsum (map _ l)) with (tsz l); lia).
    rewrite layout_loop_offsets
      by (try change (Zsum (map _ l)) with (tsz l); lia).
    change (Zsum (map _ l)) with (tsz l). rewrite Z.add_0_l.
    unfold MPI_Scan_sum.
    replace (S (length pre)) with (length (map tsz pre) + 1)%nat
      by (rewrite length_map; lia).
    rewrite map_app, take_app_add. cbn [map]. change (take 1 (?x :: ?l)) with [x].
    rewrite MPI_Allreduce_sum_exact.
    + rewrite Zsum_app. change (Zsum [tsz l]) with (tsz l + 0).
      replace (Zsum (map tsz pre) + (tsz l + 0) - tsz l)
        with (Zsum (map tsz pre)) by lia.
      rewrite (wrap64_small (Zsum (map tsz pre))) by lia.
      rewrite prefix_from_shift.
      * rewrite Z.add_0_l. by rewrite Htot.
      * lia.
      * lia.
      * apply Forall_forall. intros x Hx.
        apply list_elem_of_fmap in Hx as (it & -> & _).
        apply layout_entry_nonneg.
      * change (Zsum (map _ l)) with (tsz l). lia.
    + apply Forall_app. split; [apply Hnn|]. repeat constructor. exact Hl.
    + rewrite Zsum_app. change (Zsum [tsz l]) with (tsz l + 0). lia.
  - specialize (IH (pre ++ [l])).
    rewrite <- app_assoc in IH. cbn [app] in IH.
    rewrite length_app in IH. cbn [length] in IH.
    replace (length pre + 1)%nat with (S (length pre)) in IH by lia.
    rewrite IH.
    + f_equal. rewrite !Htot, map_app, Zsum_app. cbn [map].
      change (Zsum [tsz l]) with (tsz l + 0). fold size. fold (tsz l). lia.
    + rewrite Htot, map_app, Zsum_app. cbn [map].
      change (Zsum (tsz l :: ?r)) with (tsz l + Zsum r). lia.
Qed.

(** X7: the layout packs the entries back to back in rank order.  Taken
    over all ranks in order, the global offsets are the running sums of
    the entry sizes: the first entry is at 0 and every other entry starts
    where the one before it (on the same rank or the last one of the
    rank before) ends, with no gap and no overlap. *)
Theorem create_global_offsets_running_sums fs cwd opts lists :
  total_entry_size fs cwd opts lists < 2 ^ 64 ->
  concat (map (create_global_offsets fs cwd opts lists) (seq 0 (length lists)))
  = prefix_from 0
      (map (fun it => entry_size (layout_entry fs cwd opts it)) (concat lists)).
Proof.
  intros Hlt. exact (global_offsets_from fs cwd opts lists [] Hlt).
Qed.

End OffsetProofs.

Lemma create_global_offsets_running_sums_witness :
  concat (map (create_global_offsets (H := sample_codec) ∅ "/" sample_opts
                 [[sample_item "a" MFU_TYPE_FILE 13];
                  [sample_item "d" MFU_TYPE_DIR 0; sample_item "b" MFU_TYPE_FILE 0]])
            (seq 0 2))
  = [0; 1024; 1536].
Proof.
  apply (create_global_offsets_running_sums (H := sample_codec) ∅ "/" sample_opts
           [[sample_item "a" MFU_TYPE_FILE 13];
            [sample_item "d" MFU_TYPE_DIR 0; sample_item "b" MFU_TYPE_FILE 0]]).
  vm_compute. reflexivity.
Defined.

(** ** Header writes *)

Lemma mfu_pwrite_frame (fs : filesystem) fd buf pos path :
  (forall d, fd = Some d -> of_path d <> path) ->
  (mfu_pwrite fs fd buf pos).1 !! path = fs !! path.
Proof.
  intros Hp. unfold mfu_pwrite. destruct fd as [d|]; [|reflexivity].
  destruct (fs !! of_path d) as [[m data| |]|]; try reflexivity.
  destruct (pos <? 0); [reflexivity|]. cbn [fst].
  apply lookup_insert_ne. by apply Hp.
Qed.

Lemma mfu_pwrite_failure (fs : filesystem) fd buf pos :
  (mfu_pwrite fs fd buf pos).2 = -1 -> (mfu_pwrite fs fd buf pos).1 = fs.
Proof.
  unfold mfu_pwrite. destruct fd as [d|]; [|reflexivity].
  destruct (fs !! of_path d) as [[m data| |]|]; try reflexivity.
  destruct (pos <? 0); [reflexivity|]. cbn [fst snd]. lia.
Qed.

Section HeaderWriteProofs.
Context `{Codec}.

(** X8: what a header write leaves behind.  When [write_header] reports
    failure, the file system is untouched (no partial header) and
    [DTAR_err] is set.  When it reports success, [DTAR_err] is as before,
    the encoding succeeded, and the archive file holds exactly the
    encoded header at the given offset and is otherwise unchanged. *)
Theorem write_header_outcome (fs : filesystem) err it cwd bufsize opts fd offset :
  let r := write_header fs err it cwd bufsize opts fd offset in
  (r.2 = MFU_FAILURE -> r.1.1 = fs /\ r.1.2 = true)
  /\ (r.2 = MFU_SUCCESS ->
      r.1.2 = err
      /\ (encode_header fs it cwd bufsize opts).1 = MFU_SUCCESS
      /\ exists d m data,
           fd = Some d /\ fs !! of_path d = Some (Reg m data)
           /\ 0 <= to_off_t offset
           /\ r.1.1
              = <[of_path d :=
                    Reg m (write_at (encode_header fs it cwd bufsize opts).2
                             (Z.to_nat (to_off_t offset)) data)]> fs).
Proof.
  unfold write_header.
  destruct (encode_header fs it cwd bufsize opts) as [[|] buf] eqn:Henc;
    cbn [fst snd]; [|split; [done|discriminate]].
  pose proof (mfu_pwrite_failure fs fd buf (to_off_t offset)) as Hfail.
  destruct (mfu_pwrite fs fd buf (to_off_t offset)) as [fs' n] eqn:Hw.
  cbn [fst snd] in *.
  destruct (Z.eqb_spec n (-1)) as [Hn|Hn]; cbn [fst snd].
  - split; [|discriminate]. intros _. split; [by apply Hfail|reflexivity].
  - split; [discriminate|]. intros _. split; [reflexivity|].
    split; [reflexivity|].
    unfold mfu_pwrite in Hw. destruct fd as [d|]; [|injection Hw as _ <-; done].
    destruct (fs !! of_path d) as [[m data| |]|] eqn:Hd;
      try (injection Hw as _ <-; done).
    destruct (Z.ltb_spec (to_off_t offset) 0); [injection Hw as _ <-; done|].
    injection Hw as <- _. by exists d, m, data.
Qed.

Lemma write_header_frame (fs : filesystem) err it cwd bufsize opts fd offset path :
  (forall d, fd = Some d -> of_path d <> path) ->
  (write_header fs err it cwd bufsize opts fd offset).1.1 !! path = fs !! path.
Proof.
  intros Hp. unfold write_header.
  destruct (encode_header fs it cwd bufsize opts) as [[|] buf]; [|reflexivity].
  pose proof (mfu_pwrite_frame fs fd buf (to_off_t offset) path Hp) as Hf.
  destruct (mfu_pwrite fs fd buf (to_off_t offset)) as [fs' n].
  by destruct (n =? -1).
Qed.

Lemma write_header_sticky (fs : filesystem) it cwd bufsize opts fd offset :
  (write_header fs true it cwd bufsize opts fd offset).1.2 = true.
Proof.
  unfold write_header.
  destruct (encode_header fs it cwd bufsize opts) as [[|] buf]; [|reflexivity].
  destruct (mfu_pwrite fs fd buf (to_off_t offset)) as [fs' n].
  by destruct (n =? -1).
Qed.

(** X9: the header phase writes to the archive only.  Whatever the list,
    the offsets and the outcome of each header, no file other than the
    one behind the archive descriptor is created, removed or changed, and
    an error flag that was set stays set. *)
Theorem create_headers_touch_archive_only (fs : filesystem) err cwd opts fd
    flist offs path :
  (forall d, fd = Some d -> of_path d <> path) ->
  (create_headers fs err cwd opts fd flist offs).1 !! path = fs !! path
  /\ (err = true -> (create_headers fs err cwd opts fd flist offs).2 = true).
Proof.
  intros Hp. revert fs err offs.
  induction flist as [|it flist IH]; intros fs err offs; [done|].
  destruct offs as [|o offs]; [done|].
  cbn [create_headers].
  pose proof (write_header_frame fs err it cwd header_bufsize opts fd o path Hp)
    as Hf.
  pose proof (write_header_sticky fs it cwd header_bufsize opts fd o) as Hs.
  destruct (write_header fs err it cwd header_bufsize opts fd o)
    as [[fs1 err1] rc1] eqn:Hw. cbn [fst snd] in *.
  assert (Hstep : forall fs2 err2,
            (fs2, err2) = (fs1, err1) \/ (fs2, err2) = (fs, err) ->
            (create_headers fs2 err2 cwd opts fd flist offs).1 !! path = fs !! path
            /\ (err = true ->
                (create_headers fs2 err2 cwd opts fd flist offs).2 = true)).
  { intros fs2 err2 [[= -> ->]|[= -> ->]].
    - destruct (IH fs1 err1 offs) as [H1 H2]. split; [by rewrite H1|].
      intros ->. apply H2. rewrite Hw in Hs. exact Hs.
    - apply IH. }
  destruct (file_type it); apply Hstep; auto.
Qed.

End HeaderWriteProofs.

Lemma create_headers_touch_archive_only_witness :
  (create_headers (H := sample_codec) chunk_fs false "/" sample_opts
     (Some {| of_path := "out.tar"; of_pos := 0 |}) tiny_list [0; 1024]).1 !! "a"
  = chunk_fs !! "a"
  /\ (false = true ->
      (create_headers (H := sample_codec) chunk_fs false "/" sample_opts
         (Some {| of_path := "out.tar"; of_pos := 0 |}) tiny_list [0; 1024]).2
      = true).
Proof.
  apply (create_headers_touch_archive_only (H := sample_codec) chunk_fs false "/"
           sample_opts (Some {| of_path := "out.tar"; of_pos := 0 |})
           tiny_list [0; 1024] "a").
  intros d [= <-]. discriminate.
Defined.

(** ** Scanning the archive *)

Lemma index_loop_ok (es : list (archive_entry * Z)) offs :
  index_loop (map (fun x => NH_OK x.1 x.2) es) MFU_SUCCESS offs
  = (MFU_SUCCESS, offs ++ map (fun x => wrap64 x.2) es).
Proof.
  revert offs. induction es as [|[e pos] es IH]; intros offs.
  - by rewrite app_nil_r.
  - cbn [map index_loop fst snd]. rewrite IH. by rewrite <- app_assoc.
Qed.

(** X10: what the scan of [index_entries] returns.  When the archive
    cannot be opened, or when reading any header fails (after any number
    of good ones), the scan fails as a whole and no partial offset list is
    returned.  When every header up to the end of the archive is read, it
    returns the header positions, one per entry, in archive order. *)
Theorem index_entries_outcome :
  (forall a, reader_open a <> 0 -> index_entries a = None)
  /\ (forall (pre : list (archive_entry * Z)) r rest,
        index_entries
          {| reader_open := 0;
             reader_headers :=
               map (fun x => NH_OK x.1 x.2) pre ++ NH_ERR r :: rest |}
        = None)
  /\ (forall es : list (archive_entry * Z),
        index_entries
          {| reader_open := 0;
             reader_headers := map (fun x => NH_OK x.1 x.2) es |}
        = Some (map (fun x => wrap64 x.2) es)).
Proof.
  split; [|split].
  - intros a Ha. unfold index_entries.
    destruct (Z.eqb_spec (reader_open a) 0); [done|].
    by destruct (reader_headers a).
  - intros pre r rest. unfold index_entries. cbn [reader_open reader_headers].
    pose proof (index_loop_error pre r rest []) as Hl.
    destruct (index_loop _ _ _) as [rc offs]. cbn [fst] in Hl. by rewrite Hl.
  - intros es. unfold index_entries. cbn [reader_open reader_headers].
    change (0 =? 0) with true. cbv beta iota. by rewrite index_loop_ok.
Qed.

Lemma round_robin_next R r c :
  0 < R -> 0 <= r < R -> 0 <= c ->
  (c mod R = r -> (r - c) mod R = 0 /\ (r - (c + 1)) mod R = R - 1)
  /\ (c mod R <> r ->
      0 < (r - c) mod R /\ (r - (c + 1)) mod R = (r - c) mod R - 1).
Proof.
  intros HR Hr Hc.
  assert (Hc' : c = R * (c / R) + c mod R) by (apply Z.div_mod; lia).
  pose proof (Z.mod_pos_bound c R HR) as Hb.
  set (q := c / R) in *. set (m := c mod R) in *.
  clearbody q m. split; intros Hm.
  - split.
    + symmetry. apply (Z.mod_unique _ _ (- q)); nia.
    + symmetry. apply (Z.mod_unique _ _ (- q - 1)); nia.
  - destruct (Z_lt_ge_dec m r).
    + assert (H1 : (r - c) mod R = r - m)
        by (symmetry; apply (Z.mod_unique _ _ (- q)); nia).
      assert (H2 : (r - (c + 1)) mod R = r - m - 1)
        by (symmetry; apply (Z.mod_unique _ _ (- q)); nia).
      lia.
    + assert (H1 : (r - c) mod R = R + r - m)
        by (symmetry; apply (Z.mod_unique _ _ (- q - 1)); nia).
      assert (H2 : (r - (c + 1)) mod R = R + r - m - 1)
        by (symmetry; apply (Z.mod_unique _ _ (- q - 1)); nia).
      lia.
Qed.

Lemma extract_flist_loop_shares (es : list (archive_entry * Z)) R r :
  0 < R -> 0 <= r < R ->
  forall c acc,
    0 <= c -> c + Z.of_nat (length es) < 2 ^ 64 ->
    exists fl,
      extract_flist_loop (map (fun x => NH_OK x.1 x.2) es) R r c acc
      = Returned (acc ++ fl)
      /\ forall k : nat,
           fl !! k
           = fst <$> es !! Z.to_nat ((r - c) mod R + Z.of_nat k * R).
Proof.
  intros HR Hr. induction es as [|[e pos] es IH]; intros c acc Hc Hlen.
  - exists []. split; [by rewrite app_nil_r|]. intros k. by rewrite !lookup_nil.
  - cbn [length] in Hlen. cbn [map extract_flist_loop fst snd].
    rewrite (wrap64_small (c + 1)) by lia.
    destruct (round_robin_next R r c HR Hr Hc) as [Hyes Hno].
    pose proof (Z.mod_pos_bound (r - c) R HR) as Hb.
    destruct (Z.eqb_spec (c mod R) r) as [Hm|Hm].
    + destruct (Hyes Hm) as [H0 H1].
      destruct (IH (c + 1) (acc ++ [e])) as (fl & Hrun & Hfl); [lia|lia|].
      exists (e :: fl). split.
      * rewrite Hrun. by rewrite <- app_assoc.
      * intros [|k].
        -- rewrite H0. reflexivity.
        -- cbn [lookup list_lookup]. rewrite Hfl, H0, H1.
           replace (Z.to_nat (0 + Z.of_nat (S k) * R))
             with (S (Z.to_nat (R - 1 + Z.of_nat k * R))) by nia.
           reflexivity.
    + destruct (Hno Hm) as [H0 H1].
      destruct (IH (c + 1) acc) as (fl & Hrun & Hfl); [lia|lia|].
      exists fl. split; [exact Hrun|].
      intros k. rewrite Hfl, H1.
      replace (Z.to_nat ((r - c) mod R + Z.of_nat k * R))
        with (S (Z.to_nat ((r - c) mod R - 1 + Z.of_nat k * R))) by nia.
      reflexivity.
Qed.

(** X11: the round-robin of [extract_flist].  When the archive opens and
    every header is read, rank [r] of [R] returns a list whose k-th item
    is entry number [r + k * R] of the archive, and nothing else: every
    entry is taken by exactly the rank [i mod R], in archive order.  The
    return code is the conjunction of the ranks' flags. *)
Theorem extract_flist_round_robin (es : list (archive_entry * Z)) R r peers :
  0 < R -> 0 <= r < R -> Z.of_nat (length es) < 2 ^ 64 ->
  exists fl,
    extract_flist
      {| reader_open := 0; reader_headers := map (fun x => NH_OK x.1 x.2) es |}
      R r peers
    = Returned (if mfu_alltrue peers then MFU_SUCCESS else MFU_FAILURE, fl)
    /\ forall k : nat,
         fl !! k = fst <$> es !! Z.to_nat (r + Z.of_nat k * R).
Proof.
  intros HR Hr Hlen.
  destruct (extract_flist_loop_shares es R r HR Hr 0 []) as (fl & Hrun & Hfl);
    [lia|lia|].
  exists fl. split.
  - unfold extract_flist. cbn [reader_open reader_headers].
    change (negb (0 =? 0)) with false. cbv beta iota. rewrite Hrun.
    reflexivity.
  - intros k. rewrite Hfl. rewrite Z.sub_0_r, Z.mod_small by lia. reflexivity.
Qed.

Lemma extract_flist_round_robin_witness :
  exists fl,
    extract_flist
      {| reader_open := 0;
         reader_headers :=
           map (fun x => NH_OK x.1 x.2)
             [(archive_entry_new, 0); (archive_entry_new, 1024);
              (archive_entry_new, 1536)] |}
      2 0 [true]
    = Returned (if mfu_alltrue [true] then MFU_SUCCESS else MFU_FAILURE, fl)
    /\ forall k : nat,
         fl !! k
         = fst <$> [(archive_entry_new, 0); (archive_entry_new, 1024);
                    (archive_entry_new, 1536)]
                   !! Z.to_nat (0 + Z.of_nat k * 2).
Proof.
  apply (extract_flist_round_robin
           [(archive_entry_new, 0); (archive_entry_new, 1024);
            (archive_entry_new, 1536)] 2 0 [true]); cbn; lia.
Defined.

(** ** The index left behind by an extraction *)

Lemma read_entry_index_packed (fs : filesystem) file mode l :
  fs !! index_name file = Some (Reg mode (flat_map mfu_pack_uint64 l)) ->
  may_read mode = true ->
  Forall (fun v => 0 <= v < 2 ^ 64) l ->
  Z.of_nat (length l) <= INT_MAX ->
  read_entry_index fs file = Some (Z.of_nat (length l), l).
Proof.
  unfold INT_MAX. intros Hfs Hr Hrange Hlen.
  unfold read_entry_index, mfu_stat, mfu_open_rdonly, mfu_read.
  rewrite Hfs, Hr. cbn [of_path of_pos]. rewrite Hfs.
  rewrite flat_map_pack_length.
  replace (Z.of_nat (8 * length l) / 8) with (Z.of_nat (length l)) by dlia.
  rewrite wrap64_small by lia.
  change (Z.to_nat 0) with 0%nat. rewrite drop_0.
  assert (Hl8 := flat_map_pack_length l).
  rewrite take_ge by lia.
  rewrite flat_map_pack_length.
  replace (Z.of_nat (8 * length l) =? Z.of_nat (length l) * 8)
    with true by (symmetry; apply Z.eqb_eq; lia).
  rewrite Nat2Z.id. by rewrite unpack_loop_pack.
Qed.

Lemma partition_bound_nonneg E R k :
  0 <= E -> 1 <= R -> 0 <= k -> 0 <= partition_bound E R k.
Proof.
  intros HE HR Hk. unfold partition_bound.
  pose proof (Z.mod_pos_bound E R ltac:(lia)).
  assert (0 <= E / R) by (apply Z.div_pos; lia).
  destruct (k <? E mod R) eqn:Hlt.
  - nia.
  - apply Z.ltb_ge in Hlt. nia.
Qed.

Lemma partition_slices_prefix (offs : list Z) (ranks : nat) (k : nat) :
  Z.of_nat (length offs) < 2 ^ 64 -> (1 <= ranks)%nat ->
  Z.of_nat ranks < 2 ^ 64 -> (k <= ranks)%nat ->
  concat
    (map (fun r =>
            take (Z.to_nat (entry_count (Z.of_nat (length offs)) (Z.of_nat ranks)
                              (Z.of_nat r)))
              (drop (Z.to_nat (entry_start (Z.of_nat (length offs))
                                 (Z.of_nat ranks) (Z.of_nat r)))
                 offs))
       (seq 0 k))
  = take (Z.to_nat (partition_bound (Z.of_nat (length offs)) (Z.of_nat ranks)
                      (Z.of_nat k)))
      offs.
Proof.
  intros HE HR1 HR2. set (E := Z.of_nat (length offs)). set (R := Z.of_nat ranks).
  induction k as [|k IH]; intros Hk.
  - cbn [seq map concat]. change (Z.of_nat 0) with 0.
    rewrite partition_bound_0 by lia. reflexivity.
  - rewrite seq_S, map_app, concat_app, IH by lia.
    cbn [map concat Nat.add]. rewrite app_nil_r.
    unfold entry_start, entry_count.
    rewrite (entry_partition_exact E R (Z.of_nat k)) by lia. cbn [fst snd].
    rewrite take_take_drop. f_equal.
    replace (Z.of_nat (S k)) with (Z.of_nat k + 1) by lia.
    rewrite partition_bound_step by lia.
    pose proof (partition_bound_nonneg E R (Z.of_nat k)
                  ltac:(lia) ltac:(lia) ltac:(lia)).
    assert (0 <= E / R) by (apply Z.div_pos; lia).
    destruct (Z.of_nat k <? E mod R); lia.
Qed.




Section DynamicEngine.
Variable CIRCLE_MAX_STRING_LEN : Z.
Variable DCOPY_DEF_PERMS_FILE : Z.
Hypothesis max_fits_int : CIRCLE_MAX_STRING_LEN <= 2 ^ 31.

(** X13: the dynamic engine copies a chunk of a non-empty file.  For the
    work item of chunk [k] of a file of [fsz > 0] bytes (as
    [DTAR_encode_operation] writes it), with the source readable and as
    long as listed, the archive open and no error so far, the callback
    writes the bytes of the chunk at [doffset + C * k], followed, for the
    last chunk, by the NUL bytes that pad the file to a multiple of 512;
    nothing else in the archive changes, [DTAR_err] stays clear and the
    byte counter grows by the bytes of the chunk. *)
Theorem dynamic_copy_chunk (name aname : string) st opts ms ma src arch apos
    C k doffset s junk :
  let fsz := Z.of_nat (length src) in
  chunk_size opts = C -> 0 < C < 2 ^ 63 -> 0 < io_bufsize (DTAR_writer st) ->
  0 <= k -> C * k < fsz -> 0 <= doffset -> doffset + fsz + 512 < 2 ^ 63 ->
  name <> aname ->
  Forall (fun c => c <> NUL) (list_ascii_of_string name) ->
  dtar_fs st !! name = Some (Reg ms src) -> may_read ms = true ->
  dtar_fs st !! aname = Some (Reg ma arch) ->
  src_cache_wf (mfu_archive_src_cache st) ->
  writer_fd (DTAR_writer st) = Some {| of_path := aname; of_pos := apos |} ->
  DTAR_err st = false ->
  DTAR_encode_operation CIRCLE_MAX_STRING_LEN COPY_DATA
    (list_ascii_of_string name) fsz k doffset = Some s ->
  exists st',
    DTAR_perform_copy DCOPY_DEF_PERMS_FILE st opts (s ++ NUL :: junk) = Some st'
    /\ DTAR_err st' = false
    /\ dtar_fs st'
       = <[aname :=
             Reg ma (write_at (chunk_bytes C k src ++ chunk_padding C k fsz)
                       (Z.to_nat (doffset + C * k)) arch)]> (dtar_fs st)
    /\ reduce_bytes st'
       = wrap64 (reduce_bytes st + Z.of_nat (length (chunk_bytes C k src))).
Proof.
  intros fsz Hopts HC Hbuf Hk Hlt Hd Hmax Hne Hnul Hs Hr Ha Hwf Hw Herr Henc.
  unfold DTAR_perform_copy.
  rewrite (decode_encode CIRCLE_MAX_STRING_LEN max_fits_int COPY_DATA
             (list_ascii_of_string name) fsz k doffset s junk)
    by (assumption || (unfold COPY_DATA; lia) || nia).
  cbn [mbind option_bind]. eexists. split; [reflexivity|].
  pose proof (perform_copy_op_chunk DCOPY_DEF_PERMS_FILE st opts
    {| op_file_size := fsz; op_chunk_index := k; op_offset := doffset;
       op_code := COPY_DATA; op_operand := list_ascii_of_string name |}
    name aname ms ma src arch apos C k) as Hrun.
  cbn [op_file_size op_chunk_index op_offset op_operand] in Hrun.
  destruct Hrun as (H1 & H2 & H3 & _); try assumption; try reflexivity;
    try apply string_of_list_ascii_id.
  by repeat split.
Qed.

End DynamicEngine.

Lemma dynamic_copy_chunk_witness :
  exists st',
    DTAR_perform_copy 384 sample_dtar_state sample_opts
      (list_ascii_of_string "13:0:512:0:1:a" ++ NUL :: []) = Some st'
    /\ DTAR_err st' = false
    /\ dtar_fs st'
       = <["out.tar" :=
             Reg 436
               (write_at
                  (chunk_bytes 1048576 0
                     [104; 101; 108; 108; 111; 32; 119; 111; 114; 108; 100;
                      33; 10]
                   ++ chunk_padding 1048576 0 13)
                  (Z.to_nat (512 + 1048576 * 0)) (zeros 2560))]>
           (dtar_fs sample_dtar_state)
    /\ reduce_bytes st'
       = wrap64 (reduce_bytes sample_dtar_state
                 + Z.of_nat (length (chunk_bytes 1048576 0
                     [104; 101; 108; 108; 111; 32; 119; 111; 114; 108; 100;
                      33; 10]))).
Proof.
  apply (dynamic_copy_chunk 4096 384 ltac:(lia) "a" "out.tar" sample_dtar_state
           sample_opts 420 436
           [104; 101; 108; 108; 111; 32; 119; 111; 114; 108; 100; 33; 10]
           (zeros 2560) 0 1048576 0 512
           (list_ascii_of_string "13:0:512:0:1:a") []);
    try reflexivity; try (cbn; lia); try discriminate.
  repeat (constructor; [intros Hx; vm_compute in Hx; discriminate Hx|]).
  constructor.
Defined.

Section DynamicEngineFile.
Variable CIRCLE_MAX_STRING_LEN : Z.
Variable DCOPY_DEF_PERMS_FILE : Z.
Hypothesis max_fits_int : CIRCLE_MAX_STRING_LEN <= 2 ^ 31.

(** X14: the dynamic engine archives a non-empty file.  When the work
    items [DTAR_enqueue_copy] creates for a regular file of [fsz > 0]
    bytes are processed in the order they were enqueued by a rank that has
    no error so far, every item is decoded, the archive ends up with the
    whole content of the file at its data offset followed by the NUL
    bytes that pad it to a multiple of 512, [DTAR_err] stays clear and the
    byte counter has grown by the file size. *)
Theorem dynamic_engine_archives_file (name aname : string) st opts ms ma src
    arch apos C doffset ops queue :
  let fsz := Z.of_nat (length src) in
  chunk_size opts = C -> 0 < C < 2 ^ 63 -> 0 < io_bufsize (DTAR_writer st) ->
  0 < fsz -> 0 <= doffset -> doffset + fsz + 512 < 2 ^ 63 ->
  name <> aname ->
  Forall (fun c => c <> NUL) (list_ascii_of_string name) ->
  dtar_fs st !! name = Some (Reg ms src) -> may_read ms = true ->
  dtar_fs st !! aname = Some (Reg ma arch) ->
  src_cache_wf (mfu_archive_src_cache st) ->
  writer_fd (DTAR_writer st) = Some {| of_path := aname; of_pos := apos |} ->
  DTAR_err st = false ->
  enqueue_file CIRCLE_MAX_STRING_LEN name fsz doffset C = Some ops ->
  mapM id ops = Some queue ->
  exists st',
    drain_queue DCOPY_DEF_PERMS_FILE st opts queue = Some st'
    /\ DTAR_err st' = false
    /\ dtar_fs st'
       = <[aname :=
             Reg ma (write_at
                       (src ++ zeros (Z.to_nat ((512 - fsz mod 512) mod 512)))
                       (Z.to_nat doffset) arch)]> (dtar_fs st)
    /\ reduce_bytes st' = wrap64 (reduce_bytes st + fsz).
Proof.
  intros fsz. subst fsz.
  apply (drain_queue_file CIRCLE_MAX_STRING_LEN DCOPY_DEF_PERMS_FILE
           max_fits_int).
Qed.

End DynamicEngineFile.

Lemma dynamic_engine_archives_file_witness :
  exists st',
    drain_queue 384 sample_dtar_state
      {| preserve := false; chunk_size := 5; buf_size := 1048576;
         create_libcircle := true; extract_libarchive := false |}
      [list_ascii_of_string "13:0:512:0:1:a";
       list_ascii_of_string "13:1:512:0:1:a";
       list_ascii_of_string "13:2:512:0:1:a"] = Some st'
    /\ DTAR_err st' = false
    /\ dtar_fs st'
       = <["out.tar" :=
             Reg 436
               (write_at
                  ([104; 101; 108; 108; 111; 32; 119; 111; 114; 108; 100; 33; 10]
                   ++ zeros (Z.to_nat ((512 - 13 mod 512) mod 512)))
                  (Z.to_nat 512) (zeros 2560))]> (dtar_fs sample_dtar_state)
    /\ reduce_bytes st' = wrap64 (reduce_bytes sample_dtar_state + 13).
Proof.
  apply (dynamic_engine_archives_file 4096 384 ltac:(lia) "a" "out.tar"
           sample_dtar_state
           {| preserve := false; chunk_size := 5; buf_size := 1048576;
              create_libcircle := true; extract_libarchive := false |}
           420 436
           [104; 101; 108; 108; 111; 32; 119; 111; 114; 108; 100; 33; 10]
           (zeros 2560) 0 5 512
           [Some (list_ascii_of_string "13:0:512:0:1:a");
            Some (list_ascii_of_string "13:1:512:0:1:a");
            Some (list_ascii_of_string "13:2:512:0:1:a")]);
    try reflexivity; try (cbn; lia); try discriminate.
  repeat (constructor; [intros Hx; vm_compute in Hx; discriminate Hx|]).
  constructor.
Defined.

(** ** What the copy callback never does *)

Lemma copy_loop_error fuel (fs : filesystem) in_fd out_fd bufsize C t :
  copy_loop fuel fs in_fd out_fd bufsize C t true = (fs, in_fd, out_fd, t, true).
Proof. destruct fuel; [reflexivity|]. cbn [copy_loop]. by rewrite andb_false_r. Qed.

Lemma mfu_write_frame (fs : filesystem) fd buf path :
  (forall d, fd = Some d -> of_path d <> path) ->
  (mfu_write fs fd buf).1.1 !! path = fs !! path
  /\ (forall d, (mfu_write fs fd buf).1.2 = Some d -> of_path d <> path).
Proof.
  intros Hp. unfold mfu_write. destruct fd as [d|]; [|done].
  pose proof (mfu_pwrite_frame fs (Some d) buf (of_pos d) path Hp) as Hf.
  destruct (mfu_pwrite fs (Some d) buf (of_pos d)) as [fs' n].
  cbn [fst snd] in *. destruct (n <? 0); cbn [fst snd].
  - split; [exact Hf|exact Hp].
  - split; [exact Hf|]. intros d' [= <-]. cbn [of_path]. by apply Hp.
Qed.

Lemma copy_loop_frame fuel path : forall (fs : filesystem) in_fd out_fd bufsize
    C t err,
  (forall d, out_fd = Some d -> of_path d <> path) ->
  (copy_loop fuel fs in_fd out_fd bufsize C t err).1.1.1.1 !! path = fs !! path
  /\ (forall d,
        (copy_loop fuel fs in_fd out_fd bufsize C t err).1.1.2 = Some d ->
        of_path d <> path).
Proof.
  induction fuel as [|f IH]; intros fs in_fd out_fd bufsize C t err Hp;
    [split; [reflexivity|exact Hp]|].
  cbn [copy_loop].
  destruct ((t <? C) && negb err); [|split; [reflexivity|exact Hp]].
  destruct (mfu_read fs in_fd _) as [in_fd' [got|]];
    [|split; [reflexivity|exact Hp]].
  destruct (Z.of_nat (length got) =? 0); [split; [reflexivity|exact Hp]|].
  destruct (mfu_write_frame fs out_fd got path Hp) as [Hf Hq].
  destruct (mfu_write fs out_fd got) as [[fs' out_fd'] n]. cbn [fst snd] in *.
  destruct (n =? Z.of_nat (length got)); [|split; [exact Hf|exact Hq]].
  destruct (IH fs' in_fd' out_fd' bufsize C (wrap64 (t + n)) err Hq) as [H1 H2].
  split; [by rewrite H1|exact H2].
Qed.

Lemma mfu_lseek_path fd offset d path :
  (forall d0, fd = Some d0 -> of_path d0 <> path) ->
  mfu_lseek fd offset = Some d -> of_path d <> path.
Proof.
  intros Hp. unfold mfu_lseek. destruct fd as [d0|]; [|done].
  destruct (to_off_t offset <? 0); [done|]. intros [= <-]. cbn [of_path].
  by apply Hp.
Qed.

Section CopySafety.
Variable DCOPY_DEF_PERMS_FILE : Z.

Lemma mfu_archive_open_read_fs (fs : filesystem) file cache :
  (mfu_archive_open_file DCOPY_DEF_PERMS_FILE fs file true cache).1.1 = fs.
Proof.
  unfold mfu_archive_open_file.
  destruct (match cache_name cache with Some _ => _ | None => _ end); [done|].
  by destruct (mfu_open_rdonly fs file).
Qed.

(** X15: an error flag that is set stops the copying.  When [DTAR_err] is
    already set on a rank, processing a work item (any work item) reads
    and copies no content byte: the byte counter is unchanged, and the
    flag stays set. *)
Theorem dynamic_copy_after_error st opts op :
  DTAR_err st = true ->
  let st' := perform_copy_op DCOPY_DEF_PERMS_FILE st opts op in
  DTAR_err st' = true /\ reduce_bytes st' = wrap64 (reduce_bytes st).
Proof.
  intros Herr st'. subst st'. unfold perform_copy_op.
  destruct (mfu_archive_open_file _ _ _ _ _) as [[fs cache] open_ok].
  rewrite Herr.
  replace (if open_ok then true else true) with true by (by destruct open_ok).
  set (in_fd := if open_ok then cache_fd cache else None).
  destruct (mfu_lseek in_fd _) as [d1|];
    destruct (mfu_lseek (writer_fd (DTAR_writer st)) _) as [d2|];
    rewrite copy_loop_error; cbv beta iota zeta;
    try destruct (mfu_write _ _ _) as [[? ?] ?];
    repeat match goal with
    | |- context [if ?b then _ else _] => destruct b
    end; cbn [DTAR_err reduce_bytes]; rewrite ?Z.add_0_r; done.
Qed.

(** X16: the copy callback writes to the archive only.  Whatever the work
    item and the state, no file other than the one behind the archive
    descriptor is created, removed or changed: the source files are only
    read. *)
Theorem dynamic_copy_touches_archive_only st opts op path :
  (forall d, writer_fd (DTAR_writer st) = Some d -> of_path d <> path) ->
  dtar_fs (perform_copy_op DCOPY_DEF_PERMS_FILE st opts op) !! path
  = dtar_fs st !! path.
Proof.
  intros Hp. unfold perform_copy_op.
  pose proof (mfu_archive_open_read_fs (dtar_fs st)
                (string_of_list_ascii (op_operand op))
                (mfu_archive_src_cache st)) as Hopen.
  destruct (mfu_archive_open_file _ _ _ _ _) as [[fs cache] open_ok].
  cbn [fst] in Hopen. subst fs.
  set (in_fd0 := if open_ok then cache_fd cache else None).
  set (err0 := if open_ok then DTAR_err st else true).
  destruct (match mfu_lseek in_fd0 _ with Some d => _ | None => _ end)
    as [in_fd1 err1].
  assert (Hout : forall out_fd1 err2,
    (out_fd1, err2)
    = match mfu_lseek (writer_fd (DTAR_writer st))
              (wrap64 (op_offset op
                       + wrap64 (chunk_size opts * op_chunk_index op))) with
      | Some d => (Some d, err1)
      | None => (writer_fd (DTAR_writer st), true)
      end ->
    forall d, out_fd1 = Some d -> of_path d <> path).
  { intros out_fd1 err2 Heq d Hd.
    destruct (mfu_lseek _ _) as [d'|] eqn:Hseek; injection Heq as -> ->.
    - injection Hd as <-. eapply mfu_lseek_path; [exact Hp|exact Hseek].
    - by apply Hp. }
  destruct (match mfu_lseek (writer_fd (DTAR_writer st)) _ with
            | Some d => _ | None => _ end) as [out_fd1 err2] eqn:Hseek.
  specialize (Hout out_fd1 err2 eq_refl).
  destruct (copy_loop_frame (S (Z.to_nat (chunk_size opts))) path (dtar_fs st)
              in_fd1 out_fd1 (io_bufsize (DTAR_writer st)) (chunk_size opts)
              0 err2 Hout) as [Hfs Hfd].
  destruct (copy_loop _ _ _ _ _ _ _ _) as [[[[fs in_fd] out_fd] total] err].
  cbn [fst snd] in Hfs, Hfd.
  destruct (mfu_write_frame fs out_fd
              (zeros (Z.to_nat (512 - to_int (op_file_size op mod 512))))
              path Hfd) as [Hw _].
  destruct (mfu_write fs out_fd _) as [[fs' out_fd'] n]. cbn [fst] in Hw.
  repeat match goal with
  | |- context [if ?b then _ else _] => destruct b
  end; cbn [dtar_fs]; congruence.
Qed.

End CopySafety.

Lemma dynamic_copy_after_error_witness :
  DTAR_err
    (perform_copy_op 384
       {| dtar_fs := dtar_fs sample_dtar_state;
          DTAR_writer := DTAR_writer sample_dtar_state;
          mfu_archive_src_cache := mfu_archive_src_cache sample_dtar_state;
          DTAR_err := true; reduce_bytes := 7 |}
       sample_opts
       {| op_file_size := 13; op_chunk_index := 0; op_offset := 512;
          op_code := COPY_DATA; op_operand := list_ascii_of_string "a" |})
  = true
  /\ reduce_bytes
       (perform_copy_op 384
          {| dtar_fs := dtar_fs sample_dtar_state;
             DTAR_writer := DTAR_writer sample_dtar_state;
             mfu_archive_src_cache := mfu_archive_src_cache sample_dtar_state;
             DTAR_err := true; reduce_bytes := 7 |}
          sample_opts
          {| op_file_size := 13; op_chunk_index := 0; op_offset := 512;
             op_code := COPY_DATA; op_operand := list_ascii_of_string "a" |})
     = wrap64 7.
Proof.
  apply (dynamic_copy_after_error 384
           {| dtar_fs := dtar_fs sample_dtar_state;
              DTAR_writer := DTAR_writer sample_dtar_state;
              mfu_archive_src_cache := mfu_archive_src_cache sample_dtar_state;
              DTAR_err := true; reduce_bytes := 7 |}
           sample_opts
           {| op_file_size := 13; op_chunk_index := 0; op_offset := 512;
              op_code := COPY_DATA; op_operand := list_ascii_of_string "a" |}).
  reflexivity.
Defined.

Lemma dynamic_copy_touches_archive_only_witness :
  dtar_fs
    (perform_copy_op 384 sample_dtar_state sample_opts
       {| op_file_size := 13; op_chunk_index := 0; op_offset := 512;
          op_code := COPY_DATA; op_operand := list_ascii_of_string "a" |})
    !! "a"
  = dtar_fs sample_dtar_state !! "a".
Proof.
  apply (dynamic_copy_touches_archive_only 384 sample_dtar_state sample_opts
           {| op_file_size := 13; op_chunk_index := 0; op_offset := 512;
              op_code := COPY_DATA; op_operand := list_ascii_of_string "a" |}
           "a").
  intros d [= <-]. discriminate.
Defined.

(** ** Work items of a list *)

Section EnqueueProofs.
Variable CIRCLE_MAX_STRING_LEN : Z.

(** X17: how many work items a list gets.  When [DTAR_enqueue_copy] runs
    through (no item is too long for a libcircle message), the queue
    holds max(1, ceil(size / chunk_size)) items for every regular file of
    the list and none for directories, symlinks and other items. *)
Theorem enqueue_copy_item_count flist : forall offs hs opts queue,
  0 < chunk_size opts < 2 ^ 64 ->
  Forall (fun it => 0 <= file_size it < 2 ^ 64) flist ->
  (length flist <= length offs)%nat -> (length flist <= length hs)%nat ->
  DTAR_enqueue_copy CIRCLE_MAX_STRING_LEN flist offs hs opts = Some queue ->
  Z.of_nat (length queue)
  = Zsum (map (fun it =>
                 if decide (file_type it = MFU_TYPE_FILE)
                 then Z.max 1 ((file_size it + chunk_size opts - 1)
                               / chunk_size opts)
                 else 0) flist).
Proof.
  induction flist as [|it flist IH]; intros offs hs opts queue HC Hsz Ho Hh Hq.
  - destruct offs, hs; injection Hq as <-; reflexivity.
  - apply Forall_cons in Hsz as [Hit Hsz].
    destruct offs as [|o offs]; [cbn [length] in Ho; lia|].
    destruct hs as [|h hs]; [cbn [length] in Hh; lia|].
    cbn [length] in Ho, Hh. cbn [DTAR_enqueue_copy] in Hq. cbn [map].
    change (Zsum (?x :: ?l)) with (x + Zsum l).
    destruct (decide (file_type it = MFU_TYPE_FILE)) as [Hf|Hf].
    + destruct (enqueue_file _ _ _ _ _) as [ops|] eqn:Hops; [|discriminate].
      cbn [mbind option_bind] in Hq.
      destruct (mapM id ops) as [mine|] eqn:Hmine; [|discriminate].
      cbn [mbind option_bind] in Hq.
      destruct (DTAR_enqueue_copy _ flist offs hs opts) as [more|] eqn:Hmore;
        [|discriminate].
      injection Hq as <-. rewrite length_app, Nat2Z.inj_add.
      rewrite (IH offs hs opts more) by (assumption || lia).
      apply length_mapM in Hmine. rewrite <- Hmine.
      by rewrite (enqueue_file_count _ _ _ _ _ _ HC Hit Hops).
    + rewrite (IH offs hs opts queue) by (assumption || lia). lia.
Qed.

End EnqueueProofs.

Lemma enqueue_copy_item_count_witness :
  Z.of_nat (length [list_ascii_of_string "13:0:512:0:1:a";
                    list_ascii_of_string "13:1:512:0:1:a";
                    list_ascii_of_string "13:2:512:0:1:a";
                    list_ascii_of_string "0:0:1536:0:1:b"])
  = Zsum (map (fun it =>
                 if decide (file_type it = MFU_TYPE_FILE)
                 then Z.max 1 ((file_size it + 5 - 1) / 5) else 0)
            (sample_item "d" MFU_TYPE_DIR 0 :: tiny_list)).
Proof.
  apply (enqueue_copy_item_count 4096 (sample_item "d" MFU_TYPE_DIR 0 :: tiny_list)
           [0; 0; 1024] [512; 512; 512]
           {| preserve := false; chunk_size := 5; buf_size := 1048576;
              create_libcircle := true; extract_libarchive := false |});
    try reflexivity; try (cbn; lia).
  repeat constructor; cbn; lia.
Defined.

(** ** What the static engine never does *)

Lemma create_chunk_copy_frame fuel path : forall (fs : filesystem) in_fd fd
    bufsize p D bc err reduce fs' err' reduce',
  (forall d, fd = Some d -> of_path d <> path) ->
  create_chunk_copy fuel fs in_fd fd bufsize p D bc err reduce
  = Some (fs', err', reduce') ->
  fs' !! path = fs !! path /\ (err = true -> err' = true).
Proof.
  induction fuel as [|f IH];
    intros fs in_fd fd bufsize p D bc err reduce fs' err' reduce' Hp Hrun;
    [discriminate|].
  cbn [create_chunk_copy] in Hrun.
  destruct (bc <? chunk_length p); [|by injection Hrun as <- <- <-].
  destruct (mfu_pread fs in_fd _ _) as [got|]; [|by injection Hrun as <- <- <-].
  pose proof (mfu_pwrite_frame fs fd got
    (to_off_t (to_off_t D
               + to_off_t (to_off_t (chunk_offset p) + to_off_t bc))) path Hp)
    as Hf.
  destruct (mfu_pwrite fs fd got _) as [fs1 n]. cbn [fst] in Hf.
  destruct (n <? 0); [by injection Hrun as <- <- <-|].
  destruct (IH _ _ _ _ _ _ _ _ _ _ _ _ Hp Hrun) as [H1 H2].
  split; [by rewrite H1|exact H2].
Qed.

(** X18: the static create engine writes to the archive only.  Whenever
    the chunk loop of a rank ends, whatever its chunks, no file other than
    the one behind the archive descriptor has been created, removed or
    changed, and a [DTAR_err] that was set is still set. *)
Theorem chunk_create_touches_archive_only fuel (fs : filesystem) fd bufsize
    rank_disps all_offsets path : forall data_chunks err reduce fs' err' reduce',
  (forall d, fd = Some d -> of_path d <> path) ->
  create_chunk_loop fuel fs fd bufsize rank_disps all_offsets data_chunks
    err reduce
  = Some (fs', err', reduce') ->
  fs' !! path = fs !! path /\ (err = true -> err' = true).
Proof.
  intros data_chunks. revert fs.
  induction data_chunks as [|p next IH];
    intros fs err reduce fs' err' reduce' Hp Hrun.
  - by injection Hrun as <- <- <-.
  - cbn [create_chunk_loop] in Hrun.
    destruct (chunk_data_offset _ _ p) as [D|]; [|discriminate].
    cbn [mbind option_bind] in Hrun.
    destruct (mfu_open_rdonly fs (chunk_name p)) as [in_fd|];
      [|by injection Hrun as <- <- <-].
    destruct (create_chunk_copy _ _ _ _ _ _ _ _ _ _) as [[[fs1 err1] r1]|]
      eqn:Hcopy; [|discriminate].
    cbn [mbind option_bind fst snd] in Hrun.
    destruct (create_chunk_copy_frame _ _ _ _ _ _ _ _ _ _ _ _ _ _ Hp Hcopy)
      as [H1 H2].
    destruct (IH _ _ _ _ _ _ Hp Hrun) as [H3 H4].
    split; [by rewrite H3|]. intros He. apply H4, H2, He.
Qed.

Lemma chunk_create_touches_archive_only_witness :
  (<["out.tar" :=
       Reg 436
         (write_at [104; 101; 108; 108; 111; 32; 119; 111; 114; 108; 100; 33; 10]
            512 (zeros 2048))]> chunk_fs) !! "a"
  = chunk_fs !! "a"
  /\ (false = true -> false = true).
Proof.
  apply (chunk_create_touches_archive_only 9 chunk_fs
           (Some {| of_path := "out.tar"; of_pos := 0 |}) 3 [0] [512] "a"
           (file_chunks "a" 0 0 0 [8; 5]) false 0 _ false 13).
  - intros d [= <-]. discriminate.
  - vm_compute. reflexivity.
Defined.

(** ** Block alignment *)

Lemma wrap64_mod_512 z : wrap64 z mod 512 = z mod 512.
Proof.
  unfold wrap64. symmetry.
  rewrite (Z.div_mod z (2 ^ 64)) at 1 by lia.
  replace (2 ^ 64 * (z / 2 ^ 64) + z mod 2 ^ 64)
    with (z mod 2 ^ 64 + (z / 2 ^ 64 * 2 ^ 55) * 512) by lia.
  apply Z.mod_add. lia.
Qed.

Lemma prefix_from_aligned b cs :
  b mod 512 = 0 -> Forall (fun c => c mod 512 = 0) cs ->
  Forall (fun o => o mod 512 = 0) (prefix_from b cs).
Proof.
  intros Hb Hcs. revert b Hb.
  induction Hcs as [|c cs Hc Hcs IH]; intros b Hb; [constructor|].
  cbn [prefix_from]. constructor; [exact Hb|]. apply IH.
  rewrite Z.add_mod, Hb, Hc by lia. reflexivity.
Qed.

Lemma Zsum_aligned cs :
  Forall (fun c => c mod 512 = 0) cs -> Zsum cs mod 512 = 0.
Proof.
  induction 1 as [|c cs Hc Hcs IH]; [reflexivity|].
  change (Zsum (c :: cs)) with (c + Zsum cs).
  rewrite Z.add_mod, Hc, IH by lia. reflexivity.
Qed.

Section AlignmentProofs.
Context `{Codec}.
Hypothesis header_blocks :
  forall e hdr, archive_write_header_pax e = Some hdr ->
  Z.of_nat (length hdr) mod 512 = 0.

Lemma encode_header_aligned fs it cwd bufsize opts :
  Z.of_nat (length (encode_header fs it cwd bufsize opts).2) mod 512 = 0.
Proof.
  unfold encode_header.
  destruct (if preserve opts then _ else _) as [rc entry].
  destruct (archive_write_header_pax entry) as [hdr|] eqn:Hhdr; [|reflexivity].
  destruct (Z.of_nat (length hdr) <=? bufsize); [|reflexivity].
  cbn [snd]. by apply (header_blocks entry).
Qed.

Lemma layout_entry_aligned fs cwd opts it :
  entry_size (layout_entry fs cwd opts it) mod 512 = 0.
Proof.
  unfold layout_entry.
  pose proof (encode_header_aligned fs it cwd header_bufsize opts) as Hh.
  destruct (file_type it); cbn [entry_size]; try reflexivity; try exact Hh.
  rewrite wrap64_mod_512, Z.add_mod, Hh by lia.
  assert (Hp : fsize_padded (file_size it) mod 512 = 0).
  { unfold fsize_padded. cbv zeta.
    assert (Hq : wrap64 (wrap64 (file_size it / 512) * 512) mod 512 = 0)
      by (rewrite wrap64_mod_512; apply Z.mod_mul; lia).
    destruct (_ <? _); [|exact Hq].
    rewrite wrap64_mod_512, Z.add_mod, Hq by lia. reflexivity. }
  rewrite Hp. reflexivity.
Qed.

(** X19: the archive is made of 512-byte blocks.  When the codec emits
    headers that are whole 512-byte blocks (as tar and pax headers are),
    every entry of every rank starts at a multiple of 512 and the archive
    size, where the two trailer blocks go, is a multiple of 512. *)
Theorem archive_block_aligned fs cwd opts lists :
  total_entry_size fs cwd opts lists < 2 ^ 64 ->
  Forall (fun o => o mod 512 = 0)
    (concat (map (create_global_offsets fs cwd opts lists)
               (seq 0 (length lists))))
  /\ create_archive_size fs cwd opts lists mod 512 = 0.
Proof.
  intros Hlt. split.
  - pose proof (global_offsets_from fs cwd opts lists [] Hlt) as Hoff.
    cbn [app length] in Hoff. rewrite Hoff.
    apply prefix_from_aligned; [reflexivity|].
    apply Forall_forall. intros x Hx.
    apply list_elem_of_fmap in Hx as (it & -> & _). apply layout_entry_aligned.
  - rewrite create_archive_size_exact by exact Hlt.
    unfold total_entry_size. apply Zsum_aligned.
    apply Forall_forall. intros x Hx.
    apply list_elem_of_fmap in Hx as (l & -> & _). apply Zsum_aligned.
    apply Forall_forall. intros x Hx.
    apply list_elem_of_fmap in Hx as (it & -> & _). apply layout_entry_aligned.
Qed.

End AlignmentProofs.

Lemma archive_block_aligned_witness :
  Forall (fun o => o mod 512 = 0)
    (concat (map (create_global_offsets (H := sample_codec) ∅ "/" sample_opts
                    [[sample_item "a" MFU_TYPE_FILE 13];
                     [sample_item "d" MFU_TYPE_DIR 0;
                      sample_item "b" MFU_TYPE_FILE 0]])
               (seq 0 2)))
  /\ create_archive_size (H := sample_codec) ∅ "/" sample_opts
       [[sample_item "a" MFU_TYPE_FILE 13];
        [sample_item "d" MFU_TYPE_DIR 0; sample_item "b" MFU_TYPE_FILE 0]]
     mod 512 = 0.
Proof.
  apply (archive_block_aligned (H := sample_codec)).
  - intros e hdr [= <-]. by destruct (ae_symlink e).
  - vm_compute. reflexivity.
Defined.

(** ** The file cache *)

Section CacheProofs.
Variable DCOPY_DEF_PERMS_FILE : Z.

(** X20: the cache of [mfu_archive_open_file] works.  After a successful
    open of a file in a mode, opening the same file in the same mode again
    is answered from the cache: no system call is made, the file system
    and the cached descriptor (its position included) are as they were.
    A failed open leaves the cache without a name, so that a later close
    does nothing. *)
Theorem mfu_archive_open_file_cached (fs : filesystem) file read_flag cache :
  let r := mfu_archive_open_file DCOPY_DEF_PERMS_FILE fs file read_flag cache in
  (r.2 = true ->
   mfu_archive_open_file DCOPY_DEF_PERMS_FILE r.1.1 file read_flag r.1.2 = r)
  /\ (r.2 = false ->
      cache_name r.1.2 = None
      /\ mfu_archive_close_file r.1.2 = r.1.2).
Proof.
  cbv zeta.
  destruct (mfu_archive_open_file DCOPY_DEF_PERMS_FILE fs file read_flag cache)
    as [[fs1 cache1] ok] eqn:Hopen.
  cbn [fst snd]. unfold mfu_archive_open_file in Hopen.
  destruct (match cache_name cache with Some _ => _ | None => _ end) eqn:Hhit.
  - injection Hopen as <- <- <-. split; [|discriminate]. intros _.
    unfold mfu_archive_open_file. by rewrite Hhit.
  - assert (Hclosed : cache_name (mfu_archive_close_file cache) = None).
    { unfold mfu_archive_close_file. by destruct (cache_name cache) eqn:Hn. }
    destruct (if read_flag then _ else _) as [fs' [d|]];
      injection Hopen as <- <- <-.
    + split; [|discriminate]. intros _.
      unfold mfu_archive_open_file. cbn [cache_name cache_read].
      rewrite !bool_decide_eq_true_2 by reflexivity. reflexivity.
    + split; [discriminate|]. intros _. split; [exact Hclosed|].
      unfold mfu_archive_close_file at 1. by rewrite Hclosed.
Qed.

End CacheProofs.

(** ** Reading an index file *)

Lemma unpack_loop_length n ptr : length (unpack_loop n ptr) = n.
Proof. revert ptr. induction n as [|n IH]; intros ptr; cbn; by rewrite ?IH. Qed.

Lemma unpack_loop_lookup n : forall ptr i,
  (i < n)%nat ->
  unpack_loop n ptr !! i = Some (mfu_unpack_uint64 (drop (8 * i) ptr)).
Proof.
  induction n as [|n IH]; intros ptr i Hi; [lia|].
  destruct i as [|i]; cbn [unpack_loop lookup list_lookup].
  - reflexivity.
  - rewrite IH by lia. rewrite drop_drop. do 3 f_equal. lia.
Qed.

(** X21: [read_entry_index] takes any readable file for an index.  For a
    regular, readable index file of [n] bytes it succeeds with
    floor(n / 8) entries, entry [i] being the value of the bytes
    [8 i, 8 i + 8); trailing bytes that do not make up an entry are
    ignored and an empty file is an index of zero entries.  A file that
    cannot be opened for reading gives failure. *)
Theorem read_entry_index_any_file (fs : filesystem) filename m d :
  fs !! index_name filename = Some (Reg m d) ->
  Z.of_nat (length d) < 2 ^ 63 ->
  (may_read m = false -> read_entry_index fs filename = None)
  /\ (may_read m = true ->
      exists offs,
        read_entry_index fs filename = Some (Z.of_nat (length d) / 8, offs)
        /\ Z.of_nat (length offs) = Z.of_nat (length d) / 8
        /\ forall i : nat,
             Z.of_nat i < Z.of_nat (length d) / 8 ->
             offs !! i = Some (mfu_unpack_uint64 (drop (8 * i) d))).
Proof.
  intros Hfs Hlen. unfold read_entry_index, mfu_stat, mfu_open_rdonly.
  rewrite Hfs. split; intros Hr; rewrite Hr; [reflexivity|].
  unfold mfu_read. cbn [of_path of_pos]. rewrite Hfs.
  set (count := Z.of_nat (length d) / 8).
  assert (Hc : 0 <= count /\ count * 8 <= Z.of_nat (length d))
    by (subst count; dlia).
  rewrite (wrap64_small (count * 8)) by lia.
  change (Z.to_nat 0) with 0%nat. rewrite drop_0.
  rewrite length_take.
  replace (Z.of_nat (Z.to_nat (count * 8) `min` length d) =? count * 8)
    with true by (symmetry; apply Z.eqb_eq; lia).
  eexists. split; [reflexivity|]. split.
  - rewrite unpack_loop_length. lia.
  - intros i Hi. rewrite unpack_loop_lookup by lia. f_equal.
    unfold mfu_unpack_uint64. f_equal.
    rewrite skipn_firstn_comm, take_take. f_equal. lia.
Qed.

Lemma read_entry_index_any_file_witness :
  (may_read 432 = false ->
   read_entry_index (<["out.tar.idx" := Reg 432 [0; 0; 0; 0; 0; 0; 4; 0; 9]]> ∅)
     "out.tar" = None)
  /\ (may_read 432 = true ->
      exists offs,
        read_entry_index
          (<["out.tar.idx" := Reg 432 [0; 0; 0; 0; 0; 0; 4; 0; 9]]> ∅) "out.tar"
        = Some (Z.of_nat (length [0; 0; 0; 0; 0; 0; 4; 0; 9]) / 8, offs)
        /\ Z.of_nat (length offs)
           = Z.of_nat (length [0; 0; 0; 0; 0; 0; 4; 0; 9]) / 8
        /\ forall i : nat,
             Z.of_nat i < Z.of_nat (length [0; 0; 0; 0; 0; 0; 4; 0; 9]) / 8 ->
             offs !! i
             = Some (mfu_unpack_uint64
                       (drop (8 * i) [0; 0; 0; 0; 0; 0; 4; 0; 9]))).
Proof.
  apply (read_entry_index_any_file
           (<["out.tar.idx" := Reg 432 [0; 0; 0; 0; 0; 0; 4; 0; 9]]> ∅)
           "out.tar" 432 [0; 0; 0; 0; 0; 0; 4; 0; 9]).
  - reflexivity.
  - cbn. lia.
Defined.

(** ** The static extractor as a collective *)

(** X22: [extract_files_offsets_chunk] on one rank.  If this rank cannot
    open the archive, or any other rank reports that it could not, the
    function returns failure before any chunk is looked at: no file is
    written.  If all ranks open the archive and this rank's chunks are the
    consecutive segments of one existing, writable destination file that
    lie inside the archive, the file receives the archive bytes of its
    data region and the return code is success exactly when every other
    rank reports success at the final collective. *)
Theorem chunk_extract_collective (fs : filesystem) (filename oname : string)
    ma mo arch dst owner idx disp D rank_disps data_offsets opts err fuel lens o
    peers_open peers_done data_chunks :
  (mfu_open_rdonly fs filename = None \/ mfu_alltrue peers_open = false ->
   extract_files_offsets_chunk fuel fs filename peers_open peers_done rank_disps
     data_offsets data_chunks opts err
   = Some (fs, err, MFU_FAILURE))
  /\ (mfu_alltrue peers_open = true ->
      filename <> oname -> 0 < buf_size opts -> 0 <= D ->
      may_read ma = true -> may_write mo = true ->
      array_get rank_disps (to_int owner) = Some disp ->
      array_get data_offsets (wrap64 (disp + idx)) = Some D ->
      lens <> [] -> Forall (fun l => 0 < l /\ (Z.to_nat l < fuel)%nat) lens ->
      0 <= o -> D + o + Zsum lens <= Z.of_nat (length arch) ->
      D + o + Zsum lens < 2 ^ 63 ->
      fs !! filename = Some (Reg ma arch) -> fs !! oname = Some (Reg mo dst) ->
      extract_files_offsets_chunk fuel fs filename peers_open peers_done
        rank_disps data_offsets (file_chunks oname owner idx o lens) opts err
      = Some (<[oname :=
                 Reg mo (write_at (take (Z.to_nat (Zsum lens))
                                     (drop (Z.to_nat (D + o)) arch))
                           (Z.to_nat o) dst)]> fs,
              err,
              if mfu_alltrue peers_done then MFU_SUCCESS else MFU_FAILURE)).
Proof.
  split.
  - intros Hfail. unfold extract_files_offsets_chunk.
    destruct Hfail as [-> | Hp].
    + reflexivity.
    + destruct (mfu_open_rdonly fs filename); cbn [rc_ok mfu_alltrue forallb];
        [|reflexivity].
      unfold mfu_alltrue in Hp. unfold id at 1. cbn [andb]. by rewrite Hp.
  - intros Hpeers Hne Hbuf HD Hr Hw Hdisp Hoff Hnil Hall Ho Harch Hmax Ha Hout.
    unfold extract_files_offsets_chunk, mfu_open_rdonly. rewrite Ha, Hr.
    cbn [rc_ok mfu_alltrue forallb]. unfold id at 1. cbn [andb].
    unfold mfu_alltrue in Hpeers. rewrite Hpeers. cbn [negb].
    rewrite (extract_chunk_loop_file filename oname ma mo arch owner idx disp D
               (buf_size opts) 0 rank_disps data_offsets err fuel Hne Hbuf HD Hw
               Hdisp Hoff lens o fs dst 0 Hnil Hall Ho Harch Hmax Ha Hout).
    cbn [mbind option_bind rc_ok forallb]. unfold id at 1. cbn [andb].
    reflexivity.
Qed.

Lemma chunk_extract_collective_witness :
  extract_files_offsets_chunk 9 chunk_fs "out.tar" [true; true] [true; false]
    [0] [512] (file_chunks "a.out" 0 0 0 [8; 5]) sample_opts false
  = Some (<["a.out" :=
             Reg 420 (write_at (take (Z.to_nat (Zsum [8; 5]))
                                  (drop (Z.to_nat (512 + 0)) (zeros 2048)))
                        (Z.to_nat 0) [])]> chunk_fs,
          false, MFU_FAILURE).
Proof.
  apply (proj2 (chunk_extract_collective chunk_fs "out.tar" "a.out" 436 420
                  (zeros 2048) [] 0 0 0 512 [0] [512] sample_opts false 9%nat
                  [8; 5] 0 [true; true] [true; false] []));
    try reflexivity; try lia; try discriminate.
  repeat constructor; lia.
Defined.

(** ** The libcircle create path on one regular file *)

Lemma string_length_append (s t : string) :
  String.length (String.append s t) = (String.length s + String.length t)%nat.
Proof.
  induction s as [|c s IH]; [reflexivity|].
  change (String.append (String c s) t) with (String c (String.append s t)).
  cbn [String.length Nat.add]. by rewrite IH.
Qed.

Lemma index_name_neq (file : string) : index_name file <> file.
Proof.
  unfold index_name. intros Heq. apply (f_equal String.length) in Heq.
  rewrite string_length_append in Heq. cbn in Heq. lia.
Qed.

Lemma fsize_padded_pad (fsz : Z) :
  0 <= fsz <= 2 ^ 64 - 512 ->
  fsize_padded fsz = fsz + (512 - fsz mod 512) mod 512.
Proof.
  intros Hf. destruct (fsize_padded_spec fsz Hf) as (-> & _). dlia.
Qed.

Lemma write_at_whole (buf : list Z) (data : list Z) :
  length data = length buf -> write_at buf 0 data = buf.
Proof.
  intros Hlen. unfold write_at. cbn [Nat.add]. rewrite Hlen, Nat.sub_diag.
  unfold zeros. cbn [replicate]. rewrite app_nil_r, take_0.
  rewrite drop_ge by lia. by rewrite app_nil_r.
Qed.

Section CreateOneFile.
Context `{Codec}.
Variable CIRCLE_MAX_STRING_LEN : Z.
Variable DCOPY_DEF_PERMS_FILE : Z.
Hypothesis max_fits_int : CIRCLE_MAX_STRING_LEN <= 2 ^ 31.

Lemma encode_header_regular (fs : filesystem) it cwd opts nd hdr :
  preserve opts = false -> file_type it = MFU_TYPE_FILE ->
  fs !! file_name it = Some nd ->
  archive_write_header_pax
    {| ae_pathname := mfu_path_relative cwd (file_name it);
       ae_stat := Some nd;
       ae_uname := file_username it;
       ae_gname := file_groupname it;
       ae_symlink := None |} = Some hdr ->
  Z.of_nat (length hdr) <= header_bufsize ->
  encode_header fs it cwd header_bufsize opts = (MFU_SUCCESS, hdr).
Proof.
  intros Hp Ht Hnd Hhdr Hlen. unfold encode_header. rewrite Hp, Ht, Hnd.
  cbv zeta. destruct (decide (MFU_TYPE_FILE = MFU_TYPE_LINK)); [done|].
  cbn [archive_entry_new ae_pathname ae_symlink]. rewrite Hhdr.
  destruct (Z.leb_spec (Z.of_nat (length hdr)) header_bufsize); [done|lia].
Qed.

Lemma layout_regular (fs : filesystem) it cwd opts nd hdr :
  preserve opts = false -> file_type it = MFU_TYPE_FILE ->
  fs !! file_name it = Some nd ->
  archive_write_header_pax
    {| ae_pathname := mfu_path_relative cwd (file_name it);
       ae_stat := Some nd;
       ae_uname := file_username it;
       ae_gname := file_groupname it;
       ae_symlink := None |} = Some hdr ->
  Z.of_nat (length hdr) <= header_bufsize ->
  layout_entry fs cwd opts it
  = {| header_size := Z.of_nat (length hdr);
       content_padded := fsize_padded (file_size it);
       entry_size :=
         wrap64 (Z.of_nat (length hdr) + fsize_padded (file_size it)) |}.
Proof.
  intros Hp Ht Hnd Hhdr Hlen. unfold layout_entry. rewrite Ht.
  by rewrite (encode_header_regular fs it cwd opts nd hdr).
Qed.

(** X23: the libcircle create path on a single rank and one non-empty
    regular file.  With owner and mode taken from the list (no
    [preserve]), a readable source whose length is the listed size, a
    header the codec can emit, a fresh archive name and work items that
    fit a libcircle message, the run returns success; the archive is the
    header, the file content, the NUL bytes padding the content to a
    multiple of 512, and two NUL blocks, created with mode 0664; the
    index holds the single offset 0 and reads back as such; no other file
    changes. *)
Theorem create_one_regular_file (fs : filesystem) (it : flist_item)
    (filename cwdpath : string) (opts : mfu_archive_opts_t) ms src hdr :
  let fsz := Z.of_nat (length src) in
  let hs := Z.of_nat (length hdr) in
  let pad := Z.to_nat ((512 - fsz mod 512) mod 512) in
  preserve opts = false ->
  file_type it = MFU_TYPE_FILE -> file_size it = fsz -> 0 < fsz ->
  fs !! file_name it = Some (Reg ms src) -> may_read ms = true ->
  fs !! filename = None -> fs !! index_name filename = None ->
  file_name it <> filename -> file_name it <> index_name filename ->
  Forall (fun c => c <> NUL) (list_ascii_of_string (file_name it)) ->
  archive_write_header_pax
    {| ae_pathname := mfu_path_relative cwdpath (file_name it);
       ae_stat := Some (Reg ms src);
       ae_uname := file_username it;
       ae_gname := file_groupname it;
       ae_symlink := None |} = Some hdr ->
  hs <= header_bufsize ->
  0 < chunk_size opts < 2 ^ 63 -> 0 < buf_size opts ->
  hs + fsz + 512 + 1024 < 2 ^ 63 ->
  (forall k, 0 <= k <= fsz / chunk_size opts ->
     DTAR_encode_operation CIRCLE_MAX_STRING_LEN COPY_DATA
       (list_ascii_of_string (file_name it)) fsz k hs <> None) ->
  exists fs',
    create_libcircle_single CIRCLE_MAX_STRING_LEN DCOPY_DEF_PERMS_FILE fs [it]
      filename cwdpath opts = Some (fs', MFU_SUCCESS)
    /\ fs' !! filename
       = Some (Reg 436 (hdr ++ src ++ zeros pad ++ zeros 1024))
    /\ fs' !! index_name filename = Some (Reg 432 (mfu_pack_uint64 0))
    /\ read_entry_index fs' filename = Some (1, [0])
    /\ (forall p, p <> filename -> p <> index_name filename ->
        fs' !! p = fs !! p).
Proof.
  intros fsz hs pad Hp Ht Hsz Hpos Hsrc Hr Hnew Hnewi Hne Hnei Hnul Hhdr Hhs HC
    Hbuf Hmax Henc.
  pose proof (index_name_neq filename) as Hin.
  pose proof (Z.mod_pos_bound fsz 512 ltac:(lia)) as Hm.
  assert (Hpadz : Z.of_nat pad = (512 - fsz mod 512) mod 512) by (subst pad; dlia).
  assert (Hpadb : 0 <= Z.of_nat pad < 512)
    by (rewrite Hpadz; apply Z.mod_pos_bound; lia).
  assert (Hpadded : fsize_padded fsz = fsz + Z.of_nat pad).
  { rewrite Hpadz. apply fsize_padded_pad. lia. }
  assert (Hhs0 : 0 <= hs) by (subst hs; lia).
  assert (Efsz : fsz = Z.of_nat (length src)) by reflexivity.
  assert (Ehs : hs = Z.of_nat (length hdr)) by reflexivity.
  clearbody fsz hs pad.
  set (A := hs + fsz + Z.of_nat pad).
  set (fs1 := <[filename := Reg 436 []]> fs).
  assert (Hopen : mfu_open_creat fs filename false 436
                  = (fs1, Some {| of_path := filename; of_pos := 0 |})).
  { unfold mfu_open_creat. by rewrite Hnew. }
  assert (Hsrc1 : fs1 !! file_name it = Some (Reg ms src)).
  { subst fs1. by rewrite lookup_insert_ne. }
  assert (Hhs' : Z.of_nat (length hdr) <= header_bufsize) by lia.
  pose proof (layout_regular fs1 it cwdpath opts _ hdr Hp Ht Hsrc1 Hhdr Hhs')
    as Hle.
  rewrite Hsz, Hpadded, <- Ehs in Hle.
  rewrite (wrap64_small (hs + (fsz + Z.of_nat pad))) in Hle by lia.
  assert (Hlay : create_layout fs1 cwdpath opts [it]
                 = {| header_sizes := [hs]; entry_sizes := [A];
                      offsets := [0]; local_total := A;
                      data_bytes := fsz + Z.of_nat pad |}).
  { unfold create_layout. cbn [layout_loop]. rewrite Hle.
    cbn [header_size entry_size content_padded header_sizes entry_sizes offsets
         local_total data_bytes].
    rewrite !Z.add_0_l, !wrap64_small by lia. subst A.
    by rewrite Z.add_assoc. }
  assert (Hsize : create_archive_size fs1 cwdpath opts [[it]] = A).
  { unfold create_archive_size. cbn [map]. rewrite Hlay.
    cbn [local_total MPI_Allreduce_sum fold_left].
    rewrite Z.add_0_l, wrap64_small; subst A; lia. }
  assert (Hoffs : create_global_offsets fs1 cwdpath opts [[it]] 0 = [0]).
  { unfold create_global_offsets. cbn [map].
    change ([[it]] !!! 0%nat) with [it]. rewrite Hlay.
    cbn [local_total offsets map MPI_Scan_sum take MPI_Allreduce_sum fold_left].
    rewrite !Z.add_0_l, (wrap64_small A) by (subst A; lia).
    rewrite Z.sub_diag. reflexivity. }
  unfold create_libcircle_single. rewrite Hopen. cbv zeta.
  rewrite Hsize, Hoffs, Hlay. cbn [header_sizes].
  set (fs2 := <[index_name filename := Reg 432 (mfu_pack_uint64 0)]> fs1).
  assert (Hidx : write_entry_index fs1 filename [[0]] = (fs2, MFU_SUCCESS)).
  { rewrite (write_entry_index_result fs1 filename [[0]] 432).
    - cbn [concat app flat_map]. by rewrite app_nil_r.
    - done.
    - cbn. unfold INT_MAX. lia.
    - left. split; [|done]. subst fs1. by rewrite lookup_insert_ne. }
  rewrite Hidx. cbn [fst].
  assert (Ha2 : fs2 !! filename = Some (Reg 436 [])).
  { subst fs2 fs1. rewrite lookup_insert_ne by done. apply lookup_insert_eq. }
  rewrite (create_truncate_zeros fs2 filename 0 436 [] A Ha2)
    by (subst A; lia).
  set (fs3 := <[filename := Reg 436 (zeros (Z.to_nat (A + 1024)))]> fs2).
  assert (Hsrc3 : fs3 !! file_name it = Some (Reg ms src)).
  { subst fs3 fs2. by rewrite !lookup_insert_ne. }
  cbn [create_headers]. rewrite Ht. unfold write_header.
  rewrite (encode_header_regular fs3 it cwdpath opts _ hdr Hp Ht Hsrc3 Hhdr Hhs').
  unfold mfu_pwrite at 1. cbn [of_path].
  replace (fs3 !! filename)
    with (Some (Reg 436 (zeros (Z.to_nat (A + 1024)))))
    by (subst fs3; by rewrite lookup_insert_eq).
  rewrite to_off_t_small by lia. change (0 <? 0) with false. cbv iota.
  rewrite <- Ehs.
  destruct (Z.eqb_spec hs (-1)); [lia|]. cbn [fst].
  subst fs3. rewrite insert_insert_eq.
  set (d4 := write_at hdr (Z.to_nat 0) (zeros (Z.to_nat (A + 1024)))).
  set (fs4 := <[filename := Reg 436 d4]> fs2).
  cbn [DTAR_enqueue_copy]. rewrite (decide_True _ _ Ht), Hsz.
  rewrite Z.add_0_l, (wrap64_small hs) by lia.
  destruct (enqueue_file CIRCLE_MAX_STRING_LEN (file_name it) fsz hs
              (chunk_size opts)) as [ops|] eqn:Hops;
    [|unfold enqueue_file in Hops;
      destruct (Z.eqb_spec (chunk_size opts) 0); [lia|discriminate]].
  assert (Hall : Forall (is_Some ∘ id) ops).
  { unfold enqueue_file in Hops.
    destruct (Z.eqb_spec (chunk_size opts) 0); [lia|].
    cbv zeta in Hops. injection Hops as <-.
    assert (Hq : 0 <= fsz / chunk_size opts) by (apply Z.div_pos; lia).
    assert (Hk : forall k, 0 <= k <= fsz / chunk_size opts ->
              is_Some (DTAR_encode_operation CIRCLE_MAX_STRING_LEN COPY_DATA
                         (list_ascii_of_string (file_name it)) fsz k hs)).
    { intros k Hk. specialize (Henc k Hk).
      destruct (DTAR_encode_operation _ _ _ _ _ _); [by eexists|done]. }
    apply Forall_app. split.
    - apply Forall_forall. intros x Hx.
      apply list_elem_of_fmap in Hx as (k & -> & Hin').
      apply elem_of_seqZ in Hin'. apply Hk. lia.
    - destruct (_ || _); [|constructor].
      constructor; [|constructor]. apply Hk. lia. }
  apply mapM_is_Some_2 in Hall as [queue Hqueue].
  cbn [mbind option_bind]. rewrite Hqueue. cbn [mbind option_bind].
  rewrite Efsz in Hops.
  destruct (drain_queue_file CIRCLE_MAX_STRING_LEN DCOPY_DEF_PERMS_FILE
              max_fits_int (file_name it) filename
              {| dtar_fs := fs4;
                 DTAR_writer :=
                   {| writer_name := filename;
                      writer_fd := Some {| of_path := filename; of_pos := 0 |};
                      io_bufsize := buf_size opts |};
                 mfu_archive_src_cache :=
                   {| cache_name := None; cache_read := true;
                      cache_fd := None |};
                 DTAR_err := false;
                 reduce_bytes := 0 |}
              opts ms 436 src d4 0 (chunk_size opts) hs ops queue)
    as (st' & Hrun & Herr' & Hfs' & _);
    try done; try lia.
  { cbn [dtar_fs]. subst fs4 fs2 fs1. by rewrite !lookup_insert_ne. }
  { cbn [dtar_fs]. subst fs4. apply lookup_insert_eq. }
  rewrite app_nil_r, Hrun. cbn [mbind option_bind]. cbn [dtar_fs] in Hfs'.
  rewrite <- Efsz, <- Hpadz, Nat2Z.id in Hfs'.
  rewrite Hfs', Herr'. subst fs4. rewrite insert_insert_eq.
  set (d5 := write_at _ _ d4).
  set (body := hdr ++ src ++ zeros pad).
  assert (Hbody : Z.of_nat (length body) = A).
  { subst body A. rewrite !length_app, length_zeros. lia. }
  assert (Hd5 : d5 = write_at body 0 (zeros (Z.to_nat (A + 1024)))).
  { subst d5 d4 body. change (Z.to_nat 0) with 0%nat.
    replace (Z.to_nat hs) with (0 + length hdr)%nat by lia.
    apply write_at_write_at. }
  destruct (create_trailer_zero_blocks (<[filename := Reg 436 d5]> fs2)
              filename 0 436 d5 A)
    as (d2 & Htr & Hlen2 & Hdrop & Htake);
    [apply lookup_insert_eq|subst A; lia|subst A; lia| |].
  { rewrite Hd5, write_at_length, length_zeros. lia. }
  rewrite Htr, insert_insert_eq. cbn [mfu_alltrue forallb negb id andb].
  assert (Hd2 : d2 = hdr ++ src ++ zeros pad ++ zeros 1024).
  { rewrite <- (take_drop (Z.to_nat A) d2), Hdrop, Htake.
    replace (Z.to_nat A) with (length body) by lia.
    rewrite <- (drop_0 d5) at 1. rewrite Hd5, write_at_read.
    subst body. by rewrite <- !app_assoc. }
  exists (<[filename := Reg 436 d2]> fs2).
  split; [reflexivity|].
  split; [by rewrite lookup_insert_eq, Hd2|].
  assert (Hi : <[filename := Reg 436 d2]> fs2 !! index_name filename
               = Some (Reg 432 (mfu_pack_uint64 0))).
  { subst fs2. rewrite lookup_insert_ne by done. apply lookup_insert_eq. }
  split; [exact Hi|].
  split.
  - apply (read_entry_index_packed _ filename 432 [0]).
    + rewrite Hi. cbn [flat_map]. by rewrite app_nil_r.
    + reflexivity.
    + repeat constructor; lia.
    + cbn. unfold INT_MAX. lia.
  - intros p Hp1 Hp2. subst fs2 fs1. by rewrite !lookup_insert_ne.
Qed.

End CreateOneFile.

Lemma create_one_regular_file_witness :
  exists fs',
    create_libcircle_single (H := sample_codec) 4096 384 tiny_fs
      [sample_item "a" MFU_TYPE_FILE 13] "out.tar" "/"
      {| preserve := false; chunk_size := 5; buf_size := 1048576;
         create_libcircle := true; extract_libarchive := false |}
    = Some (fs', MFU_SUCCESS)
    /\ fs' !! "out.tar"
       = Some (Reg 436
                 (zeros 512
                  ++ [104; 101; 108; 108; 111; 32; 119; 111; 114; 108; 100;
                      33; 10]
                  ++ zeros (Z.to_nat ((512 - 13 mod 512) mod 512))
                  ++ zeros 1024))
    /\ fs' !! index_name "out.tar" = Some (Reg 432 (mfu_pack_uint64 0))
    /\ read_entry_index fs' "out.tar" = Some (1, [0])
    /\ (forall p, p <> "out.tar" -> p <> index_name "out.tar" ->
        fs' !! p = tiny_fs !! p).
Proof.
  apply (create_one_regular_file (H := sample_codec) 4096 384 ltac:(lia)
           tiny_fs (sample_item "a" MFU_TYPE_FILE 13) "out.tar" "/"
           {| preserve := false; chunk_size := 5; buf_size := 1048576;
              create_libcircle := true; extract_libarchive := false |}
           420
           [104; 101; 108; 108; 111; 32; 119; 111; 114; 108; 100; 33; 10]
           (zeros 512));
    try reflexivity; try (cbn; lia); try discriminate.
  - repeat (constructor; [intros Hx; vm_compute in Hx; discriminate Hx|]).
    constructor.
  - intros k Hk. change (Z.of_nat _ / _) with 2 in Hk.
    assert (Hcases : k = 0 \/ k = 1 \/ k = 2) by lia.
    destruct Hcases as [->|[->| ->]]; vm_compute; discriminate.
Defined.

(** ** A source that changed after the list was built *)

Section ChangedSource.
Variable DCOPY_DEF_PERMS_FILE : Z.

(** X24: the dynamic engine notices a source that is too short.  When the
    source file holds fewer bytes than the end of chunk [k] as the work
    item describes it (the file shrank after the list was built), the
    callback copies the bytes that are there, if any, adds their number to
    the byte counter and sets [DTAR_err]: the loop leaves at the read of
    zero bytes and the check of the last offset fails. *)
Theorem dynamic_copy_short_source st opts op (sname aname : string) ms ma src
    arch apos C k fsz :
  let len := Z.of_nat (length src) in
  chunk_size opts = C -> 0 < C < 2 ^ 63 -> 0 < io_bufsize (DTAR_writer st) ->
  op_file_size op = fsz -> op_chunk_index op = k ->
  string_of_list_ascii (op_operand op) = sname ->
  0 <= k -> C * k < fsz -> 0 <= op_offset op ->
  op_offset op + fsz + 512 < 2 ^ 63 ->
  len < fsz -> len < C * (k + 1) ->
  sname <> aname ->
  dtar_fs st !! sname = Some (Reg ms src) -> may_read ms = true ->
  dtar_fs st !! aname = Some (Reg ma arch) ->
  src_cache_wf (mfu_archive_src_cache st) ->
  writer_fd (DTAR_writer st) = Some {| of_path := aname; of_pos := apos |} ->
  DTAR_err st = false ->
  let st' := perform_copy_op DCOPY_DEF_PERMS_FILE st opts op in
  DTAR_err st' = true
  /\ reduce_bytes st' = wrap64 (reduce_bytes st + Z.max 0 (len - C * k)).
Proof.
  intros len Hopts HC Hbuf Hsize Hidx Hname Hk Hlt Hd Hmax Hshort Hshort' Hne Hs
    Hr Ha Hwf Hw Herr st'.
  assert (HS : 0 < fsz < 2 ^ 63) by nia.
  assert (Elen : len = Z.of_nat (length src)) by reflexivity. clearbody len.
  subst st'. unfold perform_copy_op.
  destruct (mfu_archive_open_src DCOPY_DEF_PERMS_FILE (dtar_fs st) sname ms src
              (mfu_archive_src_cache st) Hs Hr Hwf)
    as (cache' & ipos & Hopen & Hcn & Hcr & Hcf).
  rewrite Hname, Hopen. cbv beta iota zeta.
  rewrite Hcf, Herr, Hw, Hopts, Hidx, Hsize.
  rewrite (wrap64_small (C * k)) by nia.
  rewrite (wrap64_small (op_offset op + C * k)) by nia.
  unfold mfu_lseek. rewrite !to_off_t_small by nia.
  destruct (Z.ltb_spec (C * k) 0) as [|_]; [nia|].
  destruct (Z.ltb_spec (op_offset op + C * k) 0) as [|_]; [nia|].
  cbv beta iota zeta. cbn [of_path].
  rewrite (last_chunk_index C fsz k HC HS Hk Hlt).
  assert (Hloop : exists fs' ifd ofd,
    copy_loop (Datatypes.S (Z.to_nat C)) (dtar_fs st)
      (Some {| of_path := sname; of_pos := C * k |})
      (Some {| of_path := aname; of_pos := op_offset op + C * k |})
      (io_bufsize (DTAR_writer st)) C 0 false
    = (fs', ifd, ofd, Z.max 0 (len - C * k), false)).
  { destruct (Z.le_gt_cases len (C * k)) as [Hnone|Hsome].
    - rewrite (copy_loop_done sname aname ms src _ C _ (dtar_fs st)) by (auto; lia).
      rewrite Z.max_l by lia. by eexists _, _, _.
    - rewrite (copy_loop_run sname aname ms ma src (io_bufsize (DTAR_writer st))
                 C Hne Hbuf HC (Datatypes.S (Z.to_nat C)) 0 (dtar_fs st) arch
                 (C * k) (op_offset op + C * k) Hs Ha)
        by lia.
      replace (Z.min (C - 0) (Z.of_nat (length src) - C * k))
        with (Z.max 0 (len - C * k)) by lia.
      rewrite Z.add_0_l. by eexists _, _, _. }
  destruct Hloop as (fs' & ifd & ofd & ->).
  set (n := Z.max 0 (len - C * k)).
  assert (Hn : 0 <= n < C) by (subst n; lia).
  rewrite (wrap64_small (C * k + n)) by nia.
  assert (Hlast :
    (C * k + n <?
       (if negb ((k + 1) * C <? fsz) then fsz else wrap64 (C * k + C))) = true).
  { apply Z.ltb_lt. destruct (Z.ltb_spec ((k + 1) * C) fsz); cbn [negb].
    - rewrite wrap64_small by nia. lia.
    - subst n. lia. }
  rewrite Hlast.
  destruct (negb _).
  - destruct (_ && _).
    + destruct (mfu_write _ _ _) as [[? ?] ?]. cbn [DTAR_err reduce_bytes].
      split; [by destruct (_ =? _)|reflexivity].
    + cbn [DTAR_err reduce_bytes]. by split.
  - cbn [DTAR_err reduce_bytes]. by split.
Qed.

(** X25: the dynamic engine does not notice a source that grew.  For the
    last chunk of a file whose source now holds more bytes than the work
    item says, the loop copies until the chunk is full or the source
    ends, so [min C (len - C * k)] bytes, which is more than the
    [fsz - C * k] bytes the entry has room for unless the listed size is a
    multiple of the chunk size; the padding follows the copied bytes; and
    [DTAR_err] stays clear, since only a short copy is checked for.  The
    bytes beyond the entry's data region land on what follows it in the
    archive. *)
Theorem dynamic_copy_grown_source st opts op (sname aname : string) ms ma src
    arch apos C k fsz :
  let len := Z.of_nat (length src) in
  let doffset := op_offset op in
  let n := Z.min C (len - C * k) in
  chunk_size opts = C -> 0 < C < 2 ^ 63 -> 0 < io_bufsize (DTAR_writer st) ->
  op_file_size op = fsz -> op_chunk_index op = k ->
  string_of_list_ascii (op_operand op) = sname ->
  0 <= k -> C * k < fsz -> fsz <= C * (k + 1) -> fsz < len ->
  0 <= doffset -> doffset + C * k + C + 512 < 2 ^ 63 ->
  sname <> aname ->
  dtar_fs st !! sname = Some (Reg ms src) -> may_read ms = true ->
  dtar_fs st !! aname = Some (Reg ma arch) ->
  src_cache_wf (mfu_archive_src_cache st) ->
  writer_fd (DTAR_writer st) = Some {| of_path := aname; of_pos := apos |} ->
  DTAR_err st = false ->
  let st' := perform_copy_op DCOPY_DEF_PERMS_FILE st opts op in
  DTAR_err st' = false
  /\ dtar_fs st'
     = <[aname :=
           Reg ma (write_at
                     (chunk_bytes C k src
                      ++ zeros (Z.to_nat ((512 - fsz mod 512) mod 512)))
                     (Z.to_nat (doffset + C * k)) arch)]> (dtar_fs st)
  /\ Z.of_nat (length (chunk_bytes C k src)) = n
  /\ reduce_bytes st' = wrap64 (reduce_bytes st + n)
  /\ (fsz < C * (k + 1) -> fsz - C * k < n).
Proof.
  intros len doffset n Hopts HC Hbuf Hsize Hidx Hname Hk Hlt Hlastk Hgrown Hd
    Hmax Hne Hs Hr Ha Hwf Hw Herr st'.
  assert (HS : 0 < fsz < 2 ^ 63) by nia.
  assert (Elen : len = Z.of_nat (length src)) by reflexivity. clearbody len.
  assert (En : n = Z.min C (len - C * k)) by reflexivity. clearbody n.
  assert (Hn : 0 < n <= C /\ fsz <= C * k + n) by lia.
  subst st'. unfold perform_copy_op.
  destruct (mfu_archive_open_src DCOPY_DEF_PERMS_FILE (dtar_fs st) sname ms src
              (mfu_archive_src_cache st) Hs Hr Hwf)
    as (cache' & ipos & Hopen & Hcn & Hcr & Hcf).
  rewrite Hname, Hopen. cbv beta iota zeta.
  rewrite Hcf, Herr, Hw, Hopts, Hidx, Hsize. fold doffset.
  rewrite (wrap64_small (C * k)) by nia.
  rewrite (wrap64_small (doffset + C * k)) by nia.
  unfold mfu_lseek. rewrite !to_off_t_small by nia.
  destruct (Z.ltb_spec (C * k) 0) as [|_]; [nia|].
  destruct (Z.ltb_spec (doffset + C * k) 0) as [|_]; [nia|].
  cbv beta iota zeta. cbn [of_path].
  rewrite (copy_loop_run sname aname ms ma src (io_bufsize (DTAR_writer st)) C
             Hne Hbuf HC (Datatypes.S (Z.to_nat C)) 0 (dtar_fs st) arch (C * k)
             (doffset + C * k) Hs Ha)
    by lia.
  replace (Z.min (C - 0) (Z.of_nat (length src) - C * k)) with n by lia.
  cbv beta iota zeta.
  assert (Hbytes : take (Z.to_nat n) (drop (Z.to_nat (C * k)) src)
                   = chunk_bytes C k src).
  { unfold chunk_bytes. assert (Hl := length_drop src (Z.to_nat (C * k))).
    destruct (decide (Z.to_nat C <= length (drop (Z.to_nat (C * k)) src))%nat).
    - f_equal. lia.
    - rewrite !take_ge by lia. reflexivity. }
  assert (Hblen : Z.of_nat (length (chunk_bytes C k src)) = n).
  { rewrite <- Hbytes, length_take, length_drop. lia. }
  rewrite Hbytes.
  rewrite (last_chunk_index C fsz k HC HS Hk Hlt).
  rewrite Z.add_0_l. rewrite (wrap64_small (C * k + n)) by nia.
  destruct (Z.ltb_spec ((k + 1) * C) fsz) as [|_]; [lia|]. cbn [negb].
  destruct (Z.ltb_spec (C * k + n) fsz) as [|_]; [lia|].
  pose proof (Z.mod_pos_bound fsz 512 ltac:(lia)) as Hm.
  rewrite (to_int_small (fsz mod 512)) by lia.
  destruct (Z.ltb_spec 0 (512 - fsz mod 512)) as [_|]; [|lia].
  cbn [andb].
  destruct (Z.eqb_spec (512 - fsz mod 512) 512) as [Hz|Hnz]; cbn [negb].
  - cbn [DTAR_err dtar_fs reduce_bytes].
    replace ((512 - fsz mod 512) mod 512) with 0 by (rewrite Hz; reflexivity).
    change (zeros (Z.to_nat 0)) with (@nil Z). rewrite app_nil_r.
    repeat split; try reflexivity; lia.
  - rewrite (Z.mod_small (512 - fsz mod 512) 512) by lia.
    unfold mfu_write, mfu_pwrite. cbn [of_path of_pos].
    rewrite lookup_insert_eq.
    destruct (Z.ltb_spec (doffset + C * k + n) 0) as [|_]; [lia|].
    rewrite length_zeros, insert_insert_eq.
    destruct (Z.ltb_spec (Z.of_nat (Z.to_nat (512 - fsz mod 512))) 0) as [|_];
      [lia|].
    replace (Z.of_nat (Z.to_nat (512 - fsz mod 512)) =? 512 - fsz mod 512)
      with true by (symmetry; apply Z.eqb_eq; lia).
    cbn [DTAR_err dtar_fs reduce_bytes].
    split; [reflexivity|]. split; [|repeat split; try reflexivity; lia].
    do 2 f_equal.
    replace (Z.to_nat (doffset + C * k + n))
      with (Z.to_nat (doffset + C * k) + length (chunk_bytes C k src))%nat
      by lia.
    apply write_at_write_at.
Qed.

End ChangedSource.

Lemma dynamic_copy_short_source_witness :
  DTAR_err
    (perform_copy_op 384 sample_dtar_state sample_opts
       {| op_file_size := 20; op_chunk_index := 0; op_offset := 512;
          op_code := COPY_DATA; op_operand := list_ascii_of_string "a" |})
  = true
  /\ reduce_bytes
       (perform_copy_op 384 sample_dtar_state sample_opts
          {| op_file_size := 20; op_chunk_index := 0; op_offset := 512;
             op_code := COPY_DATA; op_operand := list_ascii_of_string "a" |})
     = wrap64 (reduce_bytes sample_dtar_state
               + Z.max 0
                   (Z.of_nat
                      (length [104; 101; 108; 108; 111; 32; 119; 111; 114;
                               108; 100; 33; 10])
                    - 1048576 * 0)).
Proof.
  apply (dynamic_copy_short_source 384 sample_dtar_state sample_opts
           {| op_file_size := 20; op_chunk_index := 0; op_offset := 512;
              op_code := COPY_DATA; op_operand := list_ascii_of_string "a" |}
           "a" "out.tar" 420 436
           [104; 101; 108; 108; 111; 32; 119; 111; 114; 108; 100; 33; 10]
           (zeros 2560) 0 1048576 0 20);
    try reflexivity; try (cbn; lia); try discriminate.
Defined.

Lemma dynamic_copy_grown_source_witness :
  DTAR_err
    (perform_copy_op 384 sample_dtar_state
       {| preserve := false; chunk_size := 5; buf_size := 1048576;
          create_libcircle := true; extract_libarchive := false |}
       {| op_file_size := 8; op_chunk_index := 1; op_offset := 512;
          op_code := COPY_DATA; op_operand := list_ascii_of_string "a" |})
  = false
  /\ dtar_fs
       (perform_copy_op 384 sample_dtar_state
          {| preserve := false; chunk_size := 5; buf_size := 1048576;
             create_libcircle := true; extract_libarchive := false |}
          {| op_file_size := 8; op_chunk_index := 1; op_offset := 512;
             op_code := COPY_DATA; op_operand := list_ascii_of_string "a" |})
     = <["out.tar" :=
           Reg 436
             (write_at
                (chunk_bytes 5 1
                   [104; 101; 108; 108; 111; 32; 119; 111; 114; 108; 100; 33;
                    10]
                 ++ zeros (Z.to_nat ((512 - 8 mod 512) mod 512)))
                (Z.to_nat (512 + 5 * 1)) (zeros 2560))]>
         (dtar_fs sample_dtar_state)
  /\ Z.of_nat
       (length
          (chunk_bytes 5 1
             [104; 101; 108; 108; 111; 32; 119; 111; 114; 108; 100; 33; 10]))
     = Z.min 5 (13 - 5 * 1)
  /\ reduce_bytes
       (perform_copy_op 384 sample_dtar_state
          {| preserve := false; chunk_size := 5; buf_size := 1048576;
             create_libcircle := true; extract_libarchive := false |}
          {| op_file_size := 8; op_chunk_index := 1; op_offset := 512;
             op_code := COPY_DATA; op_operand := list_ascii_of_string "a" |})
     = wrap64 (reduce_bytes sample_dtar_state + Z.min 5 (13 - 5 * 1))
  /\ (8 < 5 * (1 + 1) -> 8 - 5 * 1 < Z.min 5 (13 - 5 * 1)).
Proof.
  apply (dynamic_copy_grown_source 384 sample_dtar_state
           {| preserve := false; chunk_size := 5; buf_size := 1048576;
              create_libcircle := true; extract_libarchive := false |}
           {| op_file_size := 8; op_chunk_index := 1; op_offset := 512;
              op_code := COPY_DATA; op_operand := list_ascii_of_string "a" |}
           "a" "out.tar" 420 436
           [104; 101; 108; 108; 111; 32; 119; 111; 114; 108; 100; 33; 10]
           (zeros 2560) 0 5 1 8);
    try reflexivity; try (cbn; lia); try discriminate.
Defined.

(** ** Metadata through the index *)

Lemma partition_bound_le E R k :
  0 <= E -> 1 <= R -> 0 <= k <= R -> partition_bound E R k <= E.
Proof.
  intros HE HR Hk. unfold partition_bound.
  pose proof (Z.mod_pos_bound E R ltac:(lia)) as Hm.
  pose proof (Z.div_mod E R ltac:(lia)) as Hdm.
  assert (0 <= E / R) by (apply Z.div_pos; lia).
  assert (k * (E / R) <= R * (E / R)) by nia.
  set (q := E / R) in *. set (m := E mod R) in *. clearbody q m.
  destruct (Z.ltb_spec k m); nia.
Qed.


Lemma flist_offsets_loop_total probe path pos offsets s :
  forall n count flist doffs,
  0 <= s -> 0 <= count ->
  s + count + Z.of_nat n <= Z.of_nat (length offsets) ->
  Z.of_nat (length offsets) < 2 ^ 64 ->
  exists rc fl dl,
    flist_offsets_loop probe (Some {| of_path := path; of_pos := pos |})
      offsets s n count flist doffs = Some (rc, fl, dl)
    /\ (rc = MFU_SUCCESS ->
        Forall (fun o => 0 <= to_off_t o /\ probe_ok probe (to_off_t o))
          (take n (drop (Z.to_nat (s + count)) offsets))).
Proof.
  induction n as [|n IH]; intros count flist doffs Hs Hc Hlen Hmax.
  - cbn [flist_offsets_loop take]. eexists _, _, _. split; [reflexivity|].
    intros _. constructor.
  - cbn [flist_offsets_loop]. rewrite (wrap64_small (s + count)) by lia.
    unfold array_get. destruct (Z.ltb_spec (s + count) 0) as [|_]; [lia|].
    destruct (lookup_lt_is_Some_2 offsets (Z.to_nat (s + count)) ltac:(lia))
      as [o Ho].
    rewrite Ho, (drop_S _ _ _ Ho). cbn [mbind option_bind take].
    unfold mfu_lseek.
    assert (Hoo : to_off_t (to_off_t o) = to_off_t o).
    { apply to_off_t_small. unfold to_off_t.
      pose proof (Z.mod_pos_bound (o + 2 ^ 63) (2 ^ 64) ltac:(lia)). lia. }
    rewrite Hoo.
    destruct (Z.ltb_spec (to_off_t o) 0) as [Hneg|Hpos];
      [eexists _, _, _; split; [reflexivity|discriminate]|].
    cbn [of_pos of_path].
    destruct (Z.eqb_spec (probe_open (probe (to_off_t o))) 0) as [Hopen|];
      cbn [negb]; [|eexists _, _, _; split; [reflexivity|discriminate]].
    destruct (probe_next (probe (to_off_t o))) as [e p|] eqn:Hnext;
      [|eexists _, _, _; split; [reflexivity|discriminate]].
    destruct (Z.eqb_spec (probe_close (probe (to_off_t o))) 0) as [Hclose|];
      cbn [negb]; [|eexists _, _, _; split; [reflexivity|discriminate]].
    destruct (Z.eqb_spec (probe_free (probe (to_off_t o))) 0) as [Hfree|];
      cbn [negb]; [|eexists _, _, _; split; [reflexivity|discriminate]].
    rewrite (wrap64_small (count + 1)) by lia.
    destruct (IH (count + 1) (flist ++ [e])
                (doffs ++ [wrap64 (to_off_t o
                                   + wrap64 (probe_bytes (probe (to_off_t o))))])
                Hs ltac:(lia) ltac:(lia) Hmax)
      as (rc & fl & dl & Hrun & Hgood).
    exists rc, fl, dl. split; [exact Hrun|].
    intros Hrc. constructor.
    + split; [exact Hpos|]. repeat split; try assumption. by eexists _, _.
    + replace (Datatypes.S (Z.to_nat (s + count)))
        with (Z.to_nat (s + (count + 1))) by lia.
      by apply Hgood.
Qed.


Lemma mfu_alltrue_const {A} (l : list A) :
  mfu_alltrue (map (fun _ => true) l) = true.
Proof. unfold mfu_alltrue. induction l; [reflexivity|exact IHl]. Qed.

Lemma entry_slice_in_range E R r :
  0 <= E < 2 ^ 64 -> 1 <= R < 2 ^ 64 -> 0 <= r < R ->
  0 <= (entry_partition E R r).1
  /\ 0 <= (entry_partition E R r).2
  /\ (entry_partition E R r).1 + (entry_partition E R r).2 <= E.
Proof.
  intros HE HR Hr. rewrite entry_partition_exact by lia. cbn [fst snd].
  pose proof (partition_bound_nonneg E R r ltac:(lia) ltac:(lia) ltac:(lia)).
  pose proof (partition_bound_le E R (r + 1) ltac:(lia) ltac:(lia) ltac:(lia))
    as Hle.
  rewrite partition_bound_step in Hle by lia.
  assert (0 <= E / R) by (apply Z.div_pos; lia).
  destruct (r <? E mod R); lia.
Qed.

Lemma entry_slices_cover (offsets : list Z) (ranks : nat) :
  Z.of_nat (length offsets) < 2 ^ 64 -> (1 <= ranks)%nat ->
  Z.of_nat ranks < 2 ^ 64 ->
  concat
    (map (fun r =>
            take (Z.to_nat (entry_count (Z.of_nat (length offsets))
                              (Z.of_nat ranks) (Z.of_nat r)))
              (drop (Z.to_nat (entry_start (Z.of_nat (length offsets))
                                 (Z.of_nat ranks) (Z.of_nat r)))
                 offsets))
       (seq 0 ranks))
  = offsets.
Proof.
  intros HE HR HR'.
  rewrite (partition_slices_prefix offsets ranks ranks) by lia.
  rewrite partition_bound_last by lia. apply take_ge. lia.
Qed.


(** X27: the metadata pass never succeeds past a bad entry.  If the
    archive cannot be opened, every rank returns failure with nothing
    inserted.  If it opens but some index offset is negative as an
    [off_t], or the header there is not opened, read, closed and freed
    with [ARCHIVE_OK], the rank that owns the entry breaks out of its loop
    and every rank returns [MFU_FAILURE], whatever the other entries. *)
Theorem extract_flist_offsets_bad_entry (fs : filesystem) filename probe offsets
    (ranks : nat) :
  let E := Z.of_nat (length offsets) in
  let parts :=
    map (fun r => entry_partition E (Z.of_nat ranks) (Z.of_nat r))
      (seq 0 ranks) in
  (1 <= ranks)%nat -> Z.of_nat ranks < 2 ^ 64 -> E < 2 ^ 64 ->
  (mfu_open_rdonly fs filename = None ->
   extract_flist_offsets fs filename probe offsets parts
   = Some (MFU_FAILURE, map (fun _ => []) parts, []))
  /\ (forall o,
        o ∈ offsets ->
        ~ (0 <= to_off_t o /\ probe_ok probe (to_off_t o)) ->
        exists flists doffs,
          extract_flist_offsets fs filename probe offsets parts
          = Some (MFU_FAILURE, flists, doffs)).
Proof.
  intros E parts HR HR' HE. split.
  - intros Hopen. unfold extract_flist_offsets. rewrite Hopen. cbv zeta.
    cbn [rc_ok]. subst parts. destruct ranks as [|n]; [lia|].
    rewrite <- cons_seq. cbn [map mfu_alltrue forallb id andb negb].
    reflexivity.
  - intros o Hin Hbad. unfold extract_flist_offsets.
    destruct (mfu_open_rdonly fs filename) as [[path pos]|] eqn:Hopen.
    2:{ cbv zeta. cbn [rc_ok]. subst parts. destruct ranks as [|n]; [lia|].
        rewrite <- cons_seq. cbn [map mfu_alltrue forallb id andb negb].
        by eexists _, _. }
    cbv zeta. cbn [rc_ok]. rewrite mfu_alltrue_const. cbn [negb].
    set (f := fun part : Z * Z =>
                flist_offsets_loop probe
                  (Some {| of_path := path; of_pos := pos |}) offsets part.1
                  (Z.to_nat part.2) 0 [] []).
    assert (Hsome : is_Some (mapM f parts)).
    { apply mapM_is_Some_2, Forall_forall. intros part Hpart.
      subst parts. apply list_elem_of_fmap in Hpart as (r & -> & Hr).
      apply list_elem_of_In, in_seq in Hr.
      destruct (entry_slice_in_range E (Z.of_nat ranks) (Z.of_nat r))
        as (Hs & Hc & Hsc); [lia..|].
      destruct (flist_offsets_loop_total probe path pos offsets
                  (entry_partition E (Z.of_nat ranks) (Z.of_nat r)).1
                  (Z.to_nat (entry_partition E (Z.of_nat ranks) (Z.of_nat r)).2)
                  0 [] [] Hs ltac:(lia) ltac:(lia) HE)
        as (rc & fl & dl & Hrun & _).
      unfold compose, f. rewrite Hrun. by eexists. }
    destruct Hsome as [results Hres]. rewrite Hres. cbn [mbind option_bind].
    assert (Hfail :
      mfu_alltrue (map (fun r : mfu_rc * list archive_entry * list Z =>
                          rc_ok r.1.1) results) = false).
    { apply not_true_is_false. intros Htrue. unfold mfu_alltrue in Htrue.
      rewrite forallb_forall in Htrue.
      rewrite <- (entry_slices_cover offsets ranks HE HR HR') in Hin.
      apply list_elem_of_In, in_concat in Hin as (sl & Hsl & Hosl).
      apply in_map_iff in Hsl as (r & <- & Hr). apply in_seq in Hr.
      apply mapM_Some_1 in Hres.
      assert (Hpart : parts !! r
                      = Some (entry_partition E (Z.of_nat ranks) (Z.of_nat r))).
      { subst parts. rewrite list_lookup_fmap, lookup_seq_lt by lia.
        reflexivity. }
      destruct (Forall2_lookup_l _ _ _ _ _ Hres Hpart) as (res & Hlook & Hrun).
      destruct (entry_slice_in_range E (Z.of_nat ranks) (Z.of_nat r))
        as (Hs & Hc & Hsc); [lia..|].
      destruct (flist_offsets_loop_total probe path pos offsets
                  (entry_partition E (Z.of_nat ranks) (Z.of_nat r)).1
                  (Z.to_nat (entry_partition E (Z.of_nat ranks) (Z.of_nat r)).2)
                  0 [] [] Hs ltac:(lia) ltac:(lia) HE)
        as (rc & fl & dl & Hrun' & Hgood).
      unfold f in Hrun. rewrite Hrun' in Hrun. injection Hrun as <-.
      assert (Hrc : rc_ok rc = true).
      { apply (Htrue (rc_ok rc)). apply in_map_iff.
        exists (rc, fl, dl). split; [reflexivity|].
        apply list_elem_of_In. by eapply list_elem_of_lookup_2. }
      destruct rc; [|discriminate]. specialize (Hgood eq_refl).
      rewrite Z.add_0_r in Hgood. rewrite Forall_forall in Hgood.
      apply Hbad, Hgood. by apply list_elem_of_In. }
    rewrite Hfail. by eexists _, _.
Qed.


Lemma extract_flist_offsets_bad_entry_witness :
  exists flists doffs,
    extract_flist_offsets chunk_fs "out.tar" sample_probe [0; 2048]
      (map (fun r => entry_partition (Z.of_nat (length [0; 2048])) (Z.of_nat 2)
                       (Z.of_nat r))
         (seq 0 2))
    = Some (MFU_FAILURE, flists, doffs).
Proof.
  apply (proj2 (extract_flist_offsets_bad_entry chunk_fs "out.tar" sample_probe
                  [0; 2048] 2 ltac:(lia) ltac:(lia) ltac:(cbn; lia)) 2048).
  - apply list_elem_of_In. right. left. reflexivity.
  - intros [_ (_ & (e & p & Hn) & _)]. vm_compute in Hn. discriminate Hn.
Defined.
